(** * Pintos file-system core: sector cache and indexed inodes

    A shallow embedding of [filesys/cache.c] and [filesys/inode.c]:
    the 64-line write-back sector cache with clock eviction, the
    direct / indirect / double-indirect block map, the recursive
    allocation and release walks, and the open-inode registry; with
    them the write-through cache the write-back one replaced, and the
    fixed-point arithmetic of [threads/fixed-point.h]. *)

From Stdlib Require Import ZArith List Lia String.
From stdpp Require Import base tactics option list numbers.

Local Open Scope Z_scope.

(** ** Machine integers *)

(** [block_sector_t] and [size_t] are 32-bit unsigned, [off_t] and [int]
    32-bit signed (two's complement, as compiled for the 80x86 target). *)
Definition UINT_MOD : Z := 4294967296.
Definition INT_MAX : Z := 2147483647.

Definition to_uint (z : Z) : Z := z mod UINT_MOD.
Definition to_int (z : Z) : Z := (z + 2147483648) mod UINT_MOD - 2147483648.

(** ** Constants of the sources *)

Definition CACHE_SIZE : nat := 64.
Definition INODE_MAGIC : Z := 0x494e4f44.
Definition DIRECT_BLOCKS : Z := 124.
Definition INDIRECT_BLOCKS : Z := 128.
Definition DOUBLE_INDIRECT_BLOCKS : Z := INDIRECT_BLOCKS * INDIRECT_BLOCKS.

(** Modelled from the spec: [BLOCK_SECTOR_SIZE] comes from
    [devices/block.h], which is not among the sources; the spec fixes the
    sector size at 512 bytes. *)
Definition BLOCK_SECTOR_SIZE : Z := 512.

(** Modelled from the spec: [DIV_ROUND_UP] comes from [round.h], which is
    not among the sources; the spec reads it as [ceil (x / step)].  The
    usual text of the macro is [((X) + (STEP) - 1) / (STEP)]; [wrap] is the
    integer type the sum is formed in, and on the values the spec speaks
    of (no wrap-around) the quotient is that ceiling
    ([DIV_ROUND_UP_ceiling]). *)
Definition DIV_ROUND_UP (wrap : Z -> Z) (x step : Z) : Z :=
  Z.quot (wrap (x + step - 1)) step.

(** The value [-1] seen as a [block_sector_t]. *)
Definition NO_SECTOR : Z := to_uint (-1).

(** A sector's content: [BLOCK_SECTOR_SIZE] bytes, each a [Z] in [0, 256). *)
Definition sector_zero : list Z := replicate (Z.to_nat BLOCK_SECTOR_SIZE) 0.

(** ** The block device *)

(** Modelled from the spec: the raw block device ([devices/block.c] is not
    among the sources) reads and writes one whole sector given its number;
    addresses are dense and every sector holds exactly one sector's worth
    of bytes. *)
Definition block_device : Type := Z -> list Z.

Definition block_read (dev : block_device) (sector : Z) : list Z := dev sector.

Definition block_write (dev : block_device) (sector : Z) (buf : list Z)
  : block_device :=
  fun s => if Z.eqb s sector then buf else dev s.

(** ** The sector cache ([filesys/cache.c]) *)

Module cache_entry_t.
Record t : Type := mk {
  sector : Z;
  data : list Z;
  access : bool;
  dirty : bool;
  free : bool
}.

Definition set_access (b : bool) (e : t) : t :=
  mk (sector e) (data e) b (dirty e) (free e).
Definition set_dirty (b : bool) (e : t) : t :=
  mk (sector e) (data e) (access e) b (free e).
Definition set_free (b : bool) (e : t) : t :=
  mk (sector e) (data e) (access e) (dirty e) b.
Definition set_sector (s : Z) (e : t) : t :=
  mk s (data e) (access e) (dirty e) (free e).
Definition set_data (d : list Z) (e : t) : t :=
  mk (sector e) d (access e) (dirty e) (free e).
End cache_entry_t.

(** The static array [cache], the static hand [clock] of [fs_cache_evict]
    and the device behind them.  [cache_lock] is held for the whole of
    every operation, so the operations are modelled as atomic steps. *)
Record cache_state : Type := mk_cache_state {
  cache : list cache_entry_t.t;
  clock : nat;
  fs_device : block_device
}.

Definition set_cache (l : list cache_entry_t.t) (c : cache_state) : cache_state :=
  mk_cache_state l (clock c) (fs_device c).
Definition set_clock (k : nat) (c : cache_state) : cache_state :=
  mk_cache_state (cache c) k (fs_device c).
Definition set_fs_device (d : block_device) (c : cache_state) : cache_state :=
  mk_cache_state (cache c) (clock c) d.

(** [cache[i] = f (cache[i])]; an index outside the array has no result. *)
Definition update_entry (i : nat) (f : cache_entry_t.t -> cache_entry_t.t)
    (c : cache_state) : option cache_state :=
  e ← cache c !! i;
  Some (set_cache (<[i := f e]> (cache c)) c).

(** [fs_cache_flush (&cache[i])]. *)
Definition fs_cache_flush (i : nat) (c : cache_state) : option cache_state :=
  e ← cache c !! i;
  if cache_entry_t.dirty e then
    update_entry i (cache_entry_t.set_dirty false)
      (set_fs_device
         (block_write (fs_device c) (cache_entry_t.sector e) (cache_entry_t.data e)) c)
  else Some c.

(** The scan of [fs_cache_find], from index [i] over the lines [l]. *)
Fixpoint find_from (i : nat) (l : list cache_entry_t.t) (sector : Z) : option nat :=
  match l with
  | [] => None
  | e :: l' =>
      if negb (cache_entry_t.free e) && Z.eqb (cache_entry_t.sector e) sector
      then Some i
      else find_from (S i) l' sector
  end.

(** [fs_cache_find]: index of the first valid line holding [sector];
    [None] stands for the null pointer. *)
Definition fs_cache_find (sector : Z) (c : cache_state) : option nat :=
  find_from 0 (cache c) sector.

(** One pass of the [for (;;clock = (clock + 1) % CACHE_SIZE)] loop of
    [fs_cache_evict] per unit of fuel.  The result is the index of the
    line handed to the caller. *)
Fixpoint evict_scan (fuel : nat) (c : cache_state) : option (nat * cache_state) :=
  match fuel with
  | O => None
  | S fuel' =>
      e ← cache c !! clock c;
      if cache_entry_t.free e then Some (clock c, c)
      else if cache_entry_t.access e then
        c1 ← update_entry (clock c) (cache_entry_t.set_access false) c;
        evict_scan fuel' (set_clock ((clock c + 1) mod CACHE_SIZE)%nat c1)
      else
        c1 ← (if cache_entry_t.dirty e then fs_cache_flush (clock c) c else Some c);
        c2 ← update_entry (clock c) (cache_entry_t.set_free true) c1;
        Some (clock c, c2)
  end.

(** [fs_cache_evict].  A sweep clears at most [CACHE_SIZE] access bits
    before it meets a line whose bit is clear, so [CACHE_SIZE + 1] passes
    are enough ([fs_cache_evict_total]). *)
Definition fs_cache_evict (c : cache_state) : option (nat * cache_state) :=
  evict_scan (S CACHE_SIZE) c.

(** The zero-filled statics before [fs_cache_init] runs. *)
Definition cache_entry_bss : cache_entry_t.t :=
  cache_entry_t.mk 0 sector_zero false false false.

Definition cache_bss (dev : block_device) : cache_state :=
  mk_cache_state (replicate CACHE_SIZE cache_entry_bss) 0%nat dev.

(** [fs_cache_init]. *)
Definition fs_cache_init (c : cache_state) : cache_state :=
  set_cache (cache_entry_t.set_free true <$> cache c) c.

(** The loop of [fs_cache_destroy] over the indices [i, i + n). *)
Fixpoint destroy_from (n i : nat) (c : cache_state) : option cache_state :=
  match n with
  | O => Some c
  | S n' =>
      e ← cache c !! i;
      c1 ← (if negb (cache_entry_t.free e) then fs_cache_flush i c else Some c);
      destroy_from n' (S i) c1
  end.

(** [fs_cache_destroy]. *)
Definition fs_cache_destroy (c : cache_state) : option cache_state :=
  destroy_from CACHE_SIZE 0 c.

(** The common head of [fs_cache_read] and [fs_cache_write]: the line for
    [sector], loaded from the device into an evicted line on a miss. *)
Definition cache_line_for (sector : Z) (c : cache_state) : option (nat * cache_state) :=
  match fs_cache_find sector c with
  | Some i => Some (i, c)
  | None =>
      '(i, c1) ← fs_cache_evict c;
      c2 ← update_entry i
             (fun e => cache_entry_t.mk sector (block_read (fs_device c1) sector)
                         (cache_entry_t.access e) false false) c1;
      Some (i, c2)
  end.

(** [fs_cache_read]: the bytes copied to the caller's buffer. *)
Definition fs_cache_read (sector : Z) (c : cache_state) : option (list Z * cache_state) :=
  '(i, c1) ← cache_line_for sector c;
  c2 ← update_entry i (cache_entry_t.set_access true) c1;
  e ← cache c2 !! i;
  Some (cache_entry_t.data e, c2).

(** [fs_cache_write]. *)
Definition fs_cache_write (sector : Z) (s : list Z) (c : cache_state) : option cache_state :=
  '(i, c1) ← cache_line_for sector c;
  update_entry i
    (fun e => cache_entry_t.set_data s
                (cache_entry_t.set_dirty true (cache_entry_t.set_access true e))) c1.

(** ** On-disk layout *)

(** A 32-bit word as four bytes, least significant first. *)
Definition le32 (w : Z) : list Z :=
  [w mod 256; (w / 256) mod 256; (w / 65536) mod 256; (w / 16777216) mod 256].

Definition bytes_of_words (ws : list Z) : list Z := flat_map le32 ws.

Fixpoint words_of_bytes (bs : list Z) : list Z :=
  match bs with
  | b0 :: b1 :: b2 :: b3 :: rest =>
      (b0 + 256 * b1 + 65536 * b2 + 16777216 * b3) :: words_of_bytes rest
  | _ => []
  end.

Module inode_disk.
Record t : Type := mk {
  length : Z;
  magic : Z;
  direct_blocks : list Z;
  indirect_block : Z;
  double_indirect_block : Z
}.

Definition set_direct_blocks (l : list Z) (d : t) : t :=
  mk (length d) (magic d) l (indirect_block d) (double_indirect_block d).
Definition set_indirect_block (s : Z) (d : t) : t :=
  mk (length d) (magic d) (direct_blocks d) s (double_indirect_block d).

(** The 512 bytes of the record, as [fs_cache_write (sector, disk_inode)]
    copies them out. *)
Definition to_bytes (d : t) : list Z :=
  bytes_of_words
    ([to_uint (length d); magic d] ++ direct_blocks d
       ++ [indirect_block d; double_indirect_block d]).

(** The record laid over a sector's bytes, as
    [fs_cache_read (sector, &inode->data)] fills it. *)
Definition of_bytes (bs : list Z) : t :=
  let ws := words_of_bytes bs in
  mk (to_int (nth 0 ws 0)) (nth 1 ws 0)
     (take (Z.to_nat DIRECT_BLOCKS) (drop 2 ws))
     (nth 126 ws 0) (nth 127 ws 0).

(** What [calloc (1, sizeof *disk_inode)] hands out. *)
Definition zeroed : t :=
  mk 0 0 (replicate (Z.to_nat DIRECT_BLOCKS) 0) 0 0.
End inode_disk.

(** [struct inode_indirect_block] is its array [blocks]. *)
Module inode_indirect_block.
Definition to_bytes (blocks : list Z) : list Z := bytes_of_words blocks.
Definition of_bytes (bs : list Z) : list Z := words_of_bytes bs.
End inode_indirect_block.

Module inode.
Record t : Type := mk {
  sector : Z;
  open_cnt : Z;
  removed : bool;
  deny_write_cnt : Z;
  data : inode_disk.t
}.

Definition set_open_cnt (n : Z) (i : t) : t :=
  mk (sector i) n (removed i) (deny_write_cnt i) (data i).
Definition set_removed (b : bool) (i : t) : t :=
  mk (sector i) (open_cnt i) b (deny_write_cnt i) (data i).
Definition set_deny_write_cnt (n : Z) (i : t) : t :=
  mk (sector i) (open_cnt i) (removed i) n (data i).
End inode.

(** The record [inode_create] hands to [inode_allocate]: zeroed by
    [calloc], then stamped with the length and the magic number. *)
Definition fresh_disk_inode (length : Z) : inode_disk.t :=
  inode_disk.mk length INODE_MAGIC
    (inode_disk.direct_blocks inode_disk.zeroed)
    (inode_disk.indirect_block inode_disk.zeroed)
    (inode_disk.double_indirect_block inode_disk.zeroed).

(** [a[i]] for an array held as a list; outside the array there is no
    value (the access is undefined in C). *)
Definition array_get (a : list Z) (i : Z) : option Z :=
  if i <? 0 then None else a !! Z.to_nat i.

(** ** The free-sector allocator *)

(** Modelled from the spec: the free-sector allocator ([filesys/free-map.c]
    is not among the sources) is an opaque service: [allocate (n)] hands
    out the first address of [n] sectors or fails, [release (sector, n)]
    takes them back.  The only facts assumed of it are that a sector it
    hands out was not in use, and that its number is a [block_sector_t]
    other than the value [-1] by which the sources say "no sector". *)
Class FreeMap : Type := {
  free_map_t : Type;
  fm_allocate : Z -> free_map_t -> option (Z * free_map_t);
  fm_release : Z -> Z -> free_map_t -> free_map_t;
  fm_in_use : free_map_t -> Z -> bool;
  fm_allocate_fresh : forall cnt m s m',
    0 < cnt -> fm_allocate cnt m = Some (s, m') -> fm_in_use m s = false;
  fm_allocate_range : forall cnt m s m',
    fm_allocate cnt m = Some (s, m') -> 0 <= s < NO_SECTOR
}.

(** Modelled from the spec: one allocator that meets this contract, for the
    sample states: a bitmap in which bit [i] is set while sector [i] is in
    use, and a request takes the first run of clear bits. *)
Module Bitmap.
Definition all_clear (cnt : nat) (l : list bool) : bool :=
  (cnt <=? List.length l)%nat && forallb negb (take cnt l).

Fixpoint scan (cnt : nat) (i : nat) (l : list bool) : option nat :=
  if all_clear cnt l then Some i
  else match l with
       | [] => None
       | _ :: l' => scan cnt (S i) l'
       end.

Fixpoint set_multiple (start cnt : nat) (v : bool) (l : list bool) : list bool :=
  match cnt with
  | O => l
  | S cnt' => set_multiple (S start) cnt' v (<[start := v]> l)
  end.

Definition allocate (cnt : Z) (m : list bool) : option (Z * list bool) :=
  match scan (Z.to_nat cnt) 0 m with
  | Some i =>
      if NO_SECTOR >? Z.of_nat i
      then Some (Z.of_nat i, set_multiple i (Z.to_nat cnt) true m)
      else None
  | None => None
  end.

Definition release (sector cnt : Z) (m : list bool) : list bool :=
  if sector <? 0 then m
  else set_multiple (Z.to_nat sector) (Z.to_nat cnt) false m.

Definition in_use (m : list bool) (sector : Z) : bool :=
  if sector <? 0 then false else default false (m !! Z.to_nat sector).
End Bitmap.

(** ** The inode layer ([filesys/inode.c]) *)

(** How a call ends: with a value, with the kernel halted by [PANIC] or a
    failed [ASSERT], or with no defined result (an access outside an
    array, a null or dangling pointer). *)
Inductive result (A : Type) : Type :=
  | Ok (a : A)
  | Panic (msg : string)
  | Fault.
Arguments Ok {A} a.
Arguments Panic {A} msg.
Arguments Fault {A}.

(** The calls made to the collaborators, in order. *)
Inductive event : Type :=
  | EvAllocate (sector : Z)
  | EvRelease (sector : Z)
  | EvCacheWrite (sector : Z) (buf : list Z).

Section InodeLayer.
Context `{FM : FreeMap}.

(** The state the inode layer runs in: the sector cache, the free map,
    the list [open_inodes] (newest first, each [struct inode] under the
    address [malloc] gave it), the kernel allocator and the history of
    calls.  The kernel allocator ([threads/malloc.c]) is not among the
    sources: whether its n-th request succeeds is read off [heap_ok]. *)
Record fs_state : Type := mk_fs_state {
  fs_cache : cache_state;
  free_map : free_map_t;
  open_inodes : list (nat * inode.t);
  heap_ok : nat -> bool;
  heap_next : nat;
  trace : list event
}.

Definition set_fs_cache (c : cache_state) (st : fs_state) : fs_state :=
  mk_fs_state c (free_map st) (open_inodes st) (heap_ok st) (heap_next st) (trace st).
Definition set_free_map (m : free_map_t) (st : fs_state) : fs_state :=
  mk_fs_state (fs_cache st) m (open_inodes st) (heap_ok st) (heap_next st) (trace st).
Definition set_open_inodes (l : list (nat * inode.t)) (st : fs_state) : fs_state :=
  mk_fs_state (fs_cache st) (free_map st) l (heap_ok st) (heap_next st) (trace st).
Definition set_heap_next (n : nat) (st : fs_state) : fs_state :=
  mk_fs_state (fs_cache st) (free_map st) (open_inodes st) (heap_ok st) n (trace st).
Definition log (e : event) (st : fs_state) : fs_state :=
  mk_fs_state (fs_cache st) (free_map st) (open_inodes st) (heap_ok st) (heap_next st)
    (trace st ++ [e]).

Definition M (A : Type) : Type := fs_state -> result (A * fs_state).

Definition ret {A} (a : A) : M A := fun st => Ok (a, st).
Definition bind {A B} (m : M A) (f : A -> M B) : M B :=
  fun st =>
    match m st with
    | Ok (a, st') => f a st'
    | Panic msg => Panic msg
    | Fault => Fault
    end.
Definition panic {A} (msg : string) : M A := fun _ => Panic msg.
Definition fault {A} : M A := fun _ => Fault.
Definition get : M fs_state := fun st => Ok (st, st).
Definition modify (f : fs_state -> fs_state) : M unit := fun st => Ok (tt, f st).
Definition of_option {A} (o : option A) : M A :=
  match o with Some a => ret a | None => fault end.

#[global] Instance M_ret : MRet M := @ret.
#[global] Instance M_bind : MBind M := fun A B f m => bind m f.

(** [fs_cache_read (sector, buf)] as the inode layer calls it. *)
Definition cache_read (sector : Z) : M (list Z) :=
  fun st =>
    match fs_cache_read sector (fs_cache st) with
    | Some (buf, c) => Ok (buf, set_fs_cache c st)
    | None => Fault
    end.

(** [fs_cache_write (sector, buf)] as the inode layer calls it. *)
Definition cache_write (sector : Z) (buf : list Z) : M unit :=
  fun st =>
    match fs_cache_write sector buf (fs_cache st) with
    | Some c => Ok (tt, log (EvCacheWrite sector buf) (set_fs_cache c st))
    | None => Fault
    end.

(** [free_map_allocate (cnt, &entry)]: the verdict and the new [*entry],
    which a failed request leaves as it was. *)
Definition free_map_allocate (cnt : Z) (entry : Z) : M (bool * Z) :=
  fun st =>
    match fm_allocate cnt (free_map st) with
    | Some (s, m) => Ok ((true, s), log (EvAllocate s) (set_free_map m st))
    | None => Ok ((false, entry), st)
    end.

(** [free_map_release (sector, cnt)]. *)
Definition free_map_release (sector cnt : Z) : M unit :=
  modify (fun st => log (EvRelease sector)
                      (set_free_map (fm_release sector cnt (free_map st)) st)).

(** Modelled from the spec: [malloc] and [calloc] come from
    [threads/malloc.c], which is not among the sources; all the spec and
    the callers know is that a request may fail.  The result is whether
    this request succeeded. *)
Definition malloc : M bool :=
  fun st => Ok (heap_ok st (heap_next st), set_heap_next (S (heap_next st)) st).

(** [min] on [size_t]. *)
Definition min (a b : Z) : Z := if a <? b then a else b.

(** [bytes_to_sectors]: the sum is formed in [off_t], the result is a
    [size_t]. *)
Definition bytes_to_sectors (size : Z) : Z :=
  to_uint (DIV_ROUND_UP to_int size BLOCK_SECTOR_SIZE).

(** [index_to_sector].  A failed [calloc] is not checked for, and the
    copy into the null buffer has no defined result. *)
Definition index_to_sector (disk : inode_disk.t) (index : Z) : M Z :=
  let index_base := 0 in
  let index_limit := 0 in
  let index_limit := index_limit + DIRECT_BLOCKS in
  if index <? index_limit then
    of_option (array_get (inode_disk.direct_blocks disk) index)
  else
    let index_base := index_limit in
    let index_limit := index_limit + INDIRECT_BLOCKS in
    if index <? index_limit then
      ok ← malloc;
      if negb ok then fault else
      buf ← cache_read (inode_disk.indirect_block disk);
      let indir_block := inode_indirect_block.of_bytes buf in
      of_option (array_get indir_block (index - index_base))
    else
      let index_base := index_limit in
      let index_limit := index_limit + DOUBLE_INDIRECT_BLOCKS in
      if index <? index_limit then
        let index_first := Z.quot (index - index_base) INDIRECT_BLOCKS in
        let index_second := Z.rem (index - index_base) INDIRECT_BLOCKS in
        ok ← malloc;
        if negb ok then fault else
        buf ← cache_read (inode_disk.double_indirect_block disk);
        let indir_block := inode_indirect_block.of_bytes buf in
        first ← of_option (array_get indir_block index_first);
        buf ← cache_read first;
        let indir_block := inode_indirect_block.of_bytes buf in
        of_option (array_get indir_block index_second)
      else ret NO_SECTOR.

(** [byte_to_sector]; the inode is passed as the record the (non-null)
    pointer leads to. *)
Definition byte_to_sector (ino : inode.t) (pos : Z) : M Z :=
  if (0 <=? pos) && (pos <? inode_disk.length (inode.data ino)) then
    index_to_sector (inode.data ino) (Z.quot pos BLOCK_SECTOR_SIZE)
  else ret NO_SECTOR.

(** [inode_init]. *)
Definition inode_init : M unit := modify (set_open_inodes []).

(** The loop of [inode_allocate_indirect]: [count] passes from index [i],
    each handing [&indir_block.blocks[i]] to the next level [rec]. *)
Fixpoint allocate_children (rec : Z -> Z -> M Z) (n : Z) (count i : nat)
    (blocks : list Z) (nsectors : Z) : M (list Z) :=
  match count with
  | O => ret blocks
  | S count' =>
      let subsize := min nsectors n in
      entry ← of_option (blocks !! i);
      entry' ← rec entry subsize;
      allocate_children rec n count' (S i) (<[i := entry']> blocks)
        (to_uint (nsectors - subsize))
  end.

(** [inode_allocate_indirect (&entry, nsectors, depth)]: the result is
    the new [*entry].  The static buffer [data] is [sector_zero]. *)
Fixpoint inode_allocate_indirect (depth : nat) (entry nsectors : Z) : M Z :=
  match depth with
  | O =>
      '(_, entry) ← free_map_allocate 1 entry;
      _ ← cache_write entry sector_zero;
      ret entry
  | S depth' =>
      entry ← (if entry =? 0 then
                 '(_, entry) ← free_map_allocate 1 entry;
                 _ ← cache_write entry sector_zero;
                 ret entry
               else ret entry);
      buf ← cache_read entry;
      let indir_block := inode_indirect_block.of_bytes buf in
      let n := if (depth =? 1)%nat then 1 else INDIRECT_BLOCKS in
      let l := DIV_ROUND_UP to_uint nsectors n in
      indir_block ← allocate_children (inode_allocate_indirect depth') n
                       (Z.to_nat l) 0 indir_block nsectors;
      _ ← cache_write entry (inode_indirect_block.to_bytes indir_block);
      ret entry
  end.

(** The loop of [inode_deallocate_indirect]. *)
Fixpoint deallocate_children (rec : Z -> Z -> M unit) (n : Z) (count i : nat)
    (blocks : list Z) (nsectors : Z) : M unit :=
  match count with
  | O => ret tt
  | S count' =>
      let size := min nsectors n in
      entry ← of_option (blocks !! i);
      _ ← rec entry size;
      deallocate_children rec n count' (S i) blocks (to_uint (nsectors - size))
  end.

(** [inode_deallocate_indirect (entry, nsectors, depth)]. *)
Fixpoint inode_deallocate_indirect (depth : nat) (entry nsectors : Z) : M unit :=
  match depth with
  | O => free_map_release entry 1
  | S depth' =>
      buf ← cache_read entry;
      let indir_block := inode_indirect_block.of_bytes buf in
      let n := if (depth =? 1)%nat then 1 else INDIRECT_BLOCKS in
      let l := DIV_ROUND_UP to_uint nsectors n in
      _ ← deallocate_children (inode_deallocate_indirect depth') n
            (Z.to_nat l) 0 indir_block nsectors;
      free_map_release entry 1
  end.

(** The first loop of [inode_allocate], over [direct_blocks]. *)
Fixpoint allocate_direct (count i : nat) (blocks : list Z) : M (list Z) :=
  match count with
  | O => ret blocks
  | S count' =>
      entry ← of_option (blocks !! i);
      '(_, entry) ← free_map_allocate 1 entry;
      _ ← cache_write entry sector_zero;
      allocate_direct count' (S i) (<[i := entry]> blocks)
  end.

(** [inode_allocate (disk_inode)]: the verdict and the record as the
    call leaves it.  The third tier is the call the source makes:
    [inode_allocate_indirect (&disk_inode->indirect_block, l, 1)]. *)
Definition inode_allocate (disk_inode : inode_disk.t) : M (bool * inode_disk.t) :=
  let length := inode_disk.length disk_inode in
  if length <? 0 then ret (false, disk_inode) else
  let nsectors := bytes_to_sectors length in
  let l := min nsectors DIRECT_BLOCKS in
  blocks ← allocate_direct (Z.to_nat l) 0 (inode_disk.direct_blocks disk_inode);
  let disk_inode := inode_disk.set_direct_blocks blocks disk_inode in
  let nsectors := to_uint (nsectors - l) in
  if nsectors =? 0 then ret (true, disk_inode) else
  let l := min nsectors INDIRECT_BLOCKS in
  entry ← inode_allocate_indirect 1 (inode_disk.indirect_block disk_inode) l;
  let disk_inode := inode_disk.set_indirect_block entry disk_inode in
  let nsectors := to_uint (nsectors - l) in
  if nsectors =? 0 then ret (true, disk_inode) else
  let l := min nsectors DOUBLE_INDIRECT_BLOCKS in
  entry ← inode_allocate_indirect 1 (inode_disk.indirect_block disk_inode) l;
  let disk_inode := inode_disk.set_indirect_block entry disk_inode in
  let nsectors := to_uint (nsectors - l) in
  if nsectors =? 0 then ret (true, disk_inode) else
  ret (false, disk_inode).

(** The first loop of [inode_deallocate]. *)
Fixpoint deallocate_direct (count i : nat) (blocks : list Z) : M unit :=
  match count with
  | O => ret tt
  | S count' =>
      entry ← of_option (blocks !! i);
      _ ← free_map_release entry 1;
      deallocate_direct count' (S i) blocks
  end.

(** [inode_deallocate (inode)]. *)
Definition inode_deallocate (ino : inode.t) : M bool :=
  let length := inode_disk.length (inode.data ino) in
  if length <? 0 then ret false else
  let nsectors := bytes_to_sectors length in
  let l := min nsectors DIRECT_BLOCKS in
  _ ← deallocate_direct (Z.to_nat l) 0 (inode_disk.direct_blocks (inode.data ino));
  let nsectors := to_uint (nsectors - l) in
  let l := min nsectors INDIRECT_BLOCKS in
  nsectors ← (if 0 <? l then
                _ ← inode_deallocate_indirect 1
                      (inode_disk.indirect_block (inode.data ino)) l;
                ret (to_uint (nsectors - l))
              else ret nsectors);
  let l := min nsectors DOUBLE_INDIRECT_BLOCKS in
  _ ← (if 0 <? l then
         inode_deallocate_indirect 2
           (inode_disk.double_indirect_block (inode.data ino)) l
       else ret tt);
  ret true.

(** The registry entry a handle points to; a handle that is not in the
    registry is dangling. *)
Definition lookup_inode (p : nat) (l : list (nat * inode.t)) : option inode.t :=
  snd <$> List.find (fun e => Nat.eqb (fst e) p) l.

Definition deref (p : nat) : M inode.t :=
  st ← get; of_option (lookup_inode p (open_inodes st)).

(** The record under the handle [p] is replaced by its image under [f]. *)
Definition update_at (p : nat) (f : inode.t -> inode.t) (e : nat * inode.t)
  : nat * inode.t :=
  if Nat.eqb (fst e) p then (fst e, f (snd e)) else e.

Definition update_inode (p : nat) (f : inode.t -> inode.t) : M unit :=
  modify (fun st => set_open_inodes (update_at p f <$> open_inodes st) st).

(** [inode_create]. [sizeof *disk_inode] is 4 + 4 + 124 * 4 + 4 + 4 bytes,
    so the second assertion holds. *)
Definition inode_create (sector length : Z) : M bool :=
  if length <? 0 then panic "assertion `length >= 0' failed" else
  ok ← malloc;
  if (ok : bool) then
    let disk_inode := fresh_disk_inode length in
    '(success, disk_inode) ← inode_allocate disk_inode;
    if (success : bool) then
      _ ← cache_write sector (inode_disk.to_bytes disk_inode);
      ret true
    else ret false
  else ret false.

(** [inode_reopen]; [None] is the null pointer. *)
Definition inode_reopen (inode : option nat) : M (option nat) :=
  match inode with
  | Some p =>
      ino ← deref p;
      _ ← update_inode p (inode.set_open_cnt (to_int (inode.open_cnt ino + 1)));
      ret inode
  | None => ret inode
  end.

(** [inode_open].  The new record enters the registry with all its
    fields set; the read that fills [data] does not look at the
    registry. *)
Definition inode_open (sector : Z) : M (option nat) :=
  st ← get;
  match List.find (fun e => inode.sector (snd e) =? sector) (open_inodes st) with
  | Some e => inode_reopen (Some (fst e))
  | None =>
      p ← (fun st => Ok (heap_next st, st));
      ok ← malloc;
      if negb ok then ret None else
      buf ← cache_read sector;
      _ ← modify (fun st =>
             set_open_inodes
               ((p, inode.mk sector 1 false 0 (inode_disk.of_bytes buf))
                  :: open_inodes st) st);
      ret (Some p)
  end.

(** [inode_get_inumber]. *)
Definition inode_get_inumber (inode : nat) : M Z :=
  ino ← deref inode; ret (inode.sector ino).

(** [inode_close]. *)
Definition inode_close (inode : option nat) : M unit :=
  match inode with
  | None => ret tt
  | Some p =>
      ino ← deref p;
      let cnt := to_int (inode.open_cnt ino - 1) in
      _ ← update_inode p (inode.set_open_cnt cnt);
      if cnt =? 0 then
        _ ← modify (fun st =>
               set_open_inodes
                 (List.filter (fun e => negb (Nat.eqb (fst e) p)) (open_inodes st)) st);
        if inode.removed ino then
          _ ← free_map_release (inode.sector ino) 1;
          _ ← inode_deallocate ino;
          ret tt
        else ret tt
      else ret tt
  end.

(** [inode_remove]. *)
Definition inode_remove (inode : nat) : M unit :=
  _ ← deref inode; update_inode inode (inode.set_removed true).

(** [inode_length]. *)
Definition inode_length (ino : inode.t) : Z := inode_disk.length (inode.data ino).

(** [memcpy (dst + ofs, src, |src|)] inside the buffer [dst]. *)
Definition memcpy_at (dst : list Z) (ofs : nat) (src : list Z) : list Z :=
  take ofs dst ++ src ++ drop (ofs + List.length src) dst.

(** The [while (size > 0)] loop of [inode_read_at], one pass per unit of
    fuel.  [buffer] is what has been copied out so far, [bounce] whether
    the bounce buffer exists. *)
Fixpoint read_loop (fuel : nat) (ino : inode.t) (buffer : list Z)
    (size offset bytes_read : Z) (bounce : bool) : M (Z * list Z) :=
  match fuel with
  | O => ret (bytes_read, buffer)
  | S fuel' =>
      if size >? 0 then
        sector_idx ← byte_to_sector ino offset;
        let sector_ofs := Z.rem offset BLOCK_SECTOR_SIZE in
        let inode_left := to_int (inode_length ino - offset) in
        let sector_left := BLOCK_SECTOR_SIZE - sector_ofs in
        let min_left := if inode_left <? sector_left then inode_left else sector_left in
        let chunk_size := if size <? min_left then size else min_left in
        if chunk_size <=? 0 then ret (bytes_read, buffer) else
        if (sector_ofs =? 0) && (chunk_size =? BLOCK_SECTOR_SIZE) then
          buf ← cache_read sector_idx;
          read_loop fuel' ino (buffer ++ buf) (size - chunk_size)
            (to_int (offset + chunk_size)) (bytes_read + chunk_size) bounce
        else
          ok ← (if bounce then ret true else malloc);
          if negb ok then ret (bytes_read, buffer) else
          buf ← cache_read sector_idx;
          if sector_ofs <? 0 then fault else
          read_loop fuel' ino
            (buffer ++ take (Z.to_nat chunk_size) (drop (Z.to_nat sector_ofs) buf))
            (size - chunk_size) (to_int (offset + chunk_size))
            (bytes_read + chunk_size) true
      else ret (bytes_read, buffer)
  end.

(** [inode_read_at]: the count and the bytes stored into the caller's
    buffer, in order.  Every pass takes at least one byte off [size]. *)
Definition inode_read_at (inode : nat) (size offset : Z) : M (Z * list Z) :=
  ino ← deref inode;
  read_loop (Z.to_nat size) ino [] size offset 0 false.

(** The [while (size > 0)] loop of [inode_write_at]. *)
Fixpoint write_loop (fuel : nat) (ino : inode.t) (buffer : list Z)
    (size offset bytes_written : Z) (bounce : bool) : M Z :=
  match fuel with
  | O => ret bytes_written
  | S fuel' =>
      if size >? 0 then
        sector_idx ← byte_to_sector ino offset;
        let sector_ofs := Z.rem offset BLOCK_SECTOR_SIZE in
        let inode_left := to_int (inode_length ino - offset) in
        let sector_left := BLOCK_SECTOR_SIZE - sector_ofs in
        let min_left := if inode_left <? sector_left then inode_left else sector_left in
        let chunk_size := if size <? min_left then size else min_left in
        if chunk_size <=? 0 then ret bytes_written else
        let chunk := take (Z.to_nat chunk_size) (drop (Z.to_nat bytes_written) buffer) in
        if (sector_ofs =? 0) && (chunk_size =? BLOCK_SECTOR_SIZE) then
          _ ← cache_write sector_idx chunk;
          write_loop fuel' ino buffer (size - chunk_size)
            (to_int (offset + chunk_size)) (bytes_written + chunk_size) bounce
        else
          ok ← (if bounce then ret true else malloc);
          if negb ok then ret bytes_written else
          buf ← (if (sector_ofs >? 0) || (chunk_size <? sector_left)
                 then cache_read sector_idx
                 else ret sector_zero);
          if sector_ofs <? 0 then fault else
          _ ← cache_write sector_idx (memcpy_at buf (Z.to_nat sector_ofs) chunk);
          write_loop fuel' ino buffer (size - chunk_size)
            (to_int (offset + chunk_size)) (bytes_written + chunk_size) true
      else ret bytes_written
  end.

(** [inode_write_at]. *)
Definition inode_write_at (inode : nat) (buffer : list Z) (size offset : Z) : M Z :=
  ino ← deref inode;
  if negb (inode.deny_write_cnt ino =? 0) then ret 0 else
  sector_idx ← byte_to_sector ino (to_int (offset + size - 1));
  if sector_idx =? NO_SECTOR then panic "extendable fs not implement" else
  write_loop (Z.to_nat size) ino buffer size offset 0 false.

(** [inode_deny_write]. *)
Definition inode_deny_write (inode : nat) : M unit :=
  ino ← deref inode;
  let cnt := to_int (inode.deny_write_cnt ino + 1) in
  _ ← update_inode inode (inode.set_deny_write_cnt cnt);
  if cnt <=? inode.open_cnt ino then ret tt
  else panic "assertion `inode->deny_write_cnt <= inode->open_cnt' failed".

(** [inode_allow_write]. *)
Definition inode_allow_write (inode : nat) : M unit :=
  ino ← deref inode;
  if negb (inode.deny_write_cnt ino >? 0)
  then panic "assertion `inode->deny_write_cnt > 0' failed" else
  if negb (inode.deny_write_cnt ino <=? inode.open_cnt ino)
  then panic "assertion `inode->deny_write_cnt <= inode->open_cnt' failed" else
  update_inode inode (inode.set_deny_write_cnt (to_int (inode.deny_write_cnt ino - 1))).
End InodeLayer.

(** The two facts a free map owes its callers, for the bitmap. *)
Lemma bitmap_scan_clear cnt i l j :
  Bitmap.scan cnt i l = Some j ->
  (i <= j)%nat /\ Bitmap.all_clear cnt (drop (j - i) l) = true.
Proof.
  revert i. induction l as [|b l IH]; intros i; cbn [Bitmap.scan].
  - destruct (Bitmap.all_clear cnt []) eqn:E; [|discriminate].
    intros [= <-]. split; [lia|]. by rewrite drop_nil.
  - destruct (Bitmap.all_clear cnt (b :: l)) eqn:E.
    + intros [= <-]. split; [lia|]. by rewrite Nat.sub_diag.
    + intros H. apply IH in H as [Hle H]. split; [lia|].
      replace (j - i)%nat with (S (j - S i)) by lia. done.
Qed.

Lemma bitmap_allocate_fresh cnt m s m' :
  0 < cnt -> Bitmap.allocate cnt m = Some (s, m') -> Bitmap.in_use m s = false.
Proof.
  unfold Bitmap.allocate, Bitmap.in_use. intros Hcnt.
  destruct (Bitmap.scan (Z.to_nat cnt) 0 m) as [j|] eqn:E; [|discriminate].
  destruct (NO_SECTOR >? Z.of_nat j); [|discriminate].
  intros [= <- <-]. apply bitmap_scan_clear in E as [_ E].
  rewrite Nat.sub_0_r in E.
  destruct (Z.of_nat j <? 0) eqn:Hj; [done|]. rewrite Nat2Z.id.
  unfold Bitmap.all_clear in E. apply andb_prop in E as [Hlen E].
  destruct (Z.to_nat cnt) as [|k] eqn:Hk; [lia|].
  destruct (drop j m) as [|b rest] eqn:Hd; [cbn in Hlen; discriminate|].
  cbn in E. apply andb_prop in E as [Hb _].
  assert (m !! j = Some b) as ->.
  { rewrite <- (Nat.add_0_r j), <- lookup_drop, Hd. done. }
  by destruct b.
Qed.

Lemma bitmap_allocate_range cnt m s m' :
  Bitmap.allocate cnt m = Some (s, m') -> 0 <= s < NO_SECTOR.
Proof.
  unfold Bitmap.allocate.
  destruct (Bitmap.scan (Z.to_nat cnt) 0 m) as [j|]; [|discriminate].
  destruct (NO_SECTOR >? Z.of_nat j) eqn:E; [|discriminate].
  intros [= <- <-]. apply Z.gtb_lt in E. lia.
Qed.

(** The bitmap allocator is a free map. *)
#[global] Instance bitmap_free_map : FreeMap := {|
  free_map_t := list bool;
  fm_allocate := Bitmap.allocate;
  fm_release := Bitmap.release;
  fm_in_use := Bitmap.in_use;
  fm_allocate_fresh := bitmap_allocate_fresh;
  fm_allocate_range := bitmap_allocate_range
|}.


(** ** Observations and invariants of the cache *)

(** The test of [fs_cache_find]: the line is valid and holds [sector]. *)
Definition holds (sector : Z) (e : cache_entry_t.t) : bool :=
  negb (cache_entry_t.free e) && Z.eqb (cache_entry_t.sector e) sector.

(** What the cache and the device together hold for [sector]: the resident
    line's bytes, or the device's when no line holds the sector. *)
Definition sector_content (c : cache_state) (sector : Z) : list Z :=
  match fs_cache_find sector c with
  | Some i =>
      match cache c !! i with
      | Some e => cache_entry_t.data e
      | None => fs_device c sector
      end
  | None => fs_device c sector
  end.

(** The invariant of the cache between operations. *)
Record cache_wf (c : cache_state) : Prop := mk_cache_wf {
  wf_length : List.length (cache c) = CACHE_SIZE;
  wf_clock : (clock c < CACHE_SIZE)%nat;
  wf_unique : forall i j ei ej,
    cache c !! i = Some ei -> cache c !! j = Some ej ->
    cache_entry_t.free ei = false -> cache_entry_t.free ej = false ->
    cache_entry_t.sector ei = cache_entry_t.sector ej -> i = j;
  wf_clean : forall i e,
    cache c !! i = Some e ->
    cache_entry_t.free e = false -> cache_entry_t.dirty e = false ->
    cache_entry_t.data e = fs_device c (cache_entry_t.sector e);
  wf_free : forall i e,
    cache c !! i = Some e -> cache_entry_t.free e = true ->
    cache_entry_t.access e = false /\ cache_entry_t.dirty e = false
}.


(** A history of cache operations. *)
Inductive cache_op : Type :=
  | CacheRead (sector : Z)
  | CacheWrite (sector : Z) (buf : list Z).

Definition run_op (op : cache_op) (c : cache_state) : option cache_state :=
  match op with
  | CacheRead s => snd <$> fs_cache_read s c
  | CacheWrite s buf => fs_cache_write s buf c
  end.

Fixpoint run_ops (ops : list cache_op) (c : cache_state) : option cache_state :=
  match ops with
  | [] => Some c
  | op :: ops' => c1 ← run_op op c; run_ops ops' c1
  end.

(** The last buffer the history wrote to [sector], if it wrote any. *)
Fixpoint last_write (sector : Z) (ops : list cache_op) : option (list Z) :=
  match ops with
  | [] => None
  | op :: ops' =>
      match last_write sector ops' with
      | Some buf => Some buf
      | None =>
          match op with
          | CacheWrite s buf => if Z.eqb s sector then Some buf else None
          | CacheRead _ => None
          end
      end
  end.


(** The lines whose access bit the sweep still has to clear. *)
Definition pending (l : list cache_entry_t.t) : nat :=
  List.length (List.filter (fun e => negb (cache_entry_t.free e) && cache_entry_t.access e) l).


(** ** Sample states *)

(** A device of all-zero sectors behind a freshly initialised cache. *)
Definition blank_device : block_device := fun _ => sector_zero.
Definition fresh_cache : cache_state := fs_cache_init (cache_bss blank_device).

(** The cache after a write to each of the sectors 0 to 63 and then a read
    of each: every line valid, accessed and dirty. *)
Definition warm_ops : list cache_op :=
  ((fun i => CacheWrite (Z.of_nat i) [1]) <$> seq 0 CACHE_SIZE)
    ++ ((fun i => CacheRead (Z.of_nat i)) <$> seq 0 CACHE_SIZE).
Definition warm_cache : cache_state := default fresh_cache (run_ops warm_ops fresh_cache).


(** ** Histories of the open-inode registry *)

(** What happened at the registry: [inode_open (sector)] returned the
    handle [p], or returned the null pointer, or [inode_close] was called
    on the live handle [p] of the inode at [sector]. *)
Inductive reg_event : Type :=
  | Opened (sector : Z) (p : nat)
  | OpenFailed (sector : Z)
  | Closed (sector : Z) (p : nat).

(** The opens of [sector] in a history that no close has matched yet. *)
Fixpoint unmatched (sector : Z) (evs : list reg_event) : Z :=
  match evs with
  | [] => 0
  | ev :: evs' =>
      match ev with
      | Opened s _ => if Z.eqb s sector then 1 else 0
      | OpenFailed _ => 0
      | Closed s _ => if Z.eqb s sector then -1 else 0
      end + unmatched sector evs'
  end.

Section Registry.
Context `{FM : FreeMap}.

(** [history st0 evs st]: the opens and closes [evs] (latest first) lead
    from [st0] to [st]. *)
Inductive history (st0 : fs_state) : list reg_event -> fs_state -> Prop :=
  | history_nil : history st0 [] st0
  | history_open evs st s p st' :
      history st0 evs st ->
      inode_open s st = Ok (Some p, st') ->
      history st0 (Opened s p :: evs) st'
  | history_open_failed evs st s st' :
      history st0 evs st ->
      inode_open s st = Ok (None, st') ->
      history st0 (OpenFailed s :: evs) st'
  | history_close evs st p ino st' :
      history st0 evs st ->
      lookup_inode p (open_inodes st) = Some ino ->
      inode_close (Some p) st = Ok (tt, st') ->
      history st0 (Closed (inode.sector ino) p :: evs) st'.

(** The state of the registry when [cnt] opens of each sector are
    outstanding: one record per sector that has any, under a handle of
    its own, counting exactly those opens. *)
Record registry_ok (cnt : Z -> Z) (st : fs_state) : Prop := mk_registry_ok {
  reg_handles : NoDup (fst <$> open_inodes st);
  reg_sectors : NoDup ((fun e => inode.sector (snd e)) <$> open_inodes st);
  reg_counts : forall p ino,
    (p, ino) ∈ open_inodes st ->
    inode.open_cnt ino = cnt (inode.sector ino) /\ 0 < inode.open_cnt ino /\
    inode.removed ino = false;
  reg_closed : forall s,
    (forall p ino, (p, ino) ∈ open_inodes st -> inode.sector ino <> s) -> cnt s = 0;
  reg_fresh : forall p ino, (p, ino) ∈ open_inodes st -> (p < heap_next st)%nat;
  reg_cache : cache_wf (fs_cache st)
}.
End Registry.

(** ** Sample states of the file system *)

(** A bitmap of 1002 sectors with sectors 0 and 1 taken, a fresh cache over
    a blank device, no open inode, and a kernel allocator that never
    fails. *)
Definition sample_free_map : list bool := [true; true] ++ replicate 1000%nat false.

Definition sample_state : fs_state :=
  mk_fs_state fresh_cache sample_free_map [] (fun _ => true) 0%nat [].

(** An inode of one sector (sector 2), open once under handle 0. *)
Definition sample_inode : inode.t :=
  inode.mk 1 1 false 0
    (inode_disk.mk 512 INODE_MAGIC
       (<[0%nat := 2]> (inode_disk.direct_blocks inode_disk.zeroed)) 0 0).

Definition sample_open_state : fs_state :=
  set_open_inodes [(0%nat, sample_inode)] sample_state.

(** The same with writes denied once. *)
Definition sample_denied_state : fs_state :=
  set_open_inodes [(0%nat, inode.set_deny_write_cnt 1 sample_inode)] sample_state.


(** ** Observations of the inode layer *)

(** The sectors a history obtained from, and gave back to, the free map. *)
Definition allocated (evs : list event) : list Z :=
  omap (fun e => match e with EvAllocate s => Some s | _ => None end) evs.

Definition released (evs : list event) : list Z :=
  omap (fun e => match e with EvRelease s => Some s | _ => None end) evs.

(** Every sector the history obtained from the free map is written with
    zeros through the cache by the very next call. *)
Fixpoint zero_filled (evs : list event) : Prop :=
  match evs with
  | [] => True
  | EvAllocate s :: rest =>
      match rest with
      | EvCacheWrite s' buf :: rest' => s' = s /\ buf = sector_zero /\ zero_filled rest'
      | _ => False
      end
  | _ :: rest => zero_filled rest
  end.


(** The state and the value a call ended with ([dflt] if it did not end
    with a value). *)
Definition state_after `{FM : FreeMap} {A} (r : result (A * fs_state)) (dflt : fs_state)
  : fs_state :=
  match r with Ok (_, st) => st | _ => dflt end.

Definition value_of `{FM : FreeMap} {A} (r : result (A * fs_state)) (dflt : A) : A :=
  match r with Ok (a, _) => a | _ => dflt end.

(** The sample state after [inode_open (1)] once and twice. *)
Definition opened_once : fs_state := state_after (inode_open 1 sample_state) sample_state.
Definition opened_twice : fs_state := state_after (inode_open 1 opened_once) sample_state.

(** [inode_allocate] for a file of 253 sectors (129536 bytes) on the sample
    state, and [inode_deallocate] on the record it leaves. *)
Definition allocated_253 : inode_disk.t :=
  snd (value_of (inode_allocate (fresh_disk_inode 129536) sample_state)
         (false, fresh_disk_inode 0)).
Definition after_allocate_253 : fs_state :=
  state_after (inode_allocate (fresh_disk_inode 129536) sample_state) sample_state.
Definition after_deallocate_253 : fs_state :=
  state_after (inode_deallocate (inode.mk 1 1 true 0 allocated_253) after_allocate_253)
    sample_state.


Section TraceObservations.
Context `{FM : FreeMap}.

(** The call extends the history of [st] by a stretch in which every
    sector obtained from the free map is at once written with zeros. *)
Definition extends_zero_filled (st st' : fs_state) : Prop :=
  exists evs, trace st' = trace st ++ evs /\ zero_filled evs.

(** Every run of [m] that ends with a value does so. *)
Definition zero_fills {A} (m : M A) : Prop :=
  forall st a st', m st = Ok (a, st') -> extends_zero_filled st st'.
End TraceObservations.


(** The record [inode_allocate] leaves for a file of one sector whose data
    sector is [d]. *)
Definition one_sector_inode (d : Z) : inode_disk.t :=
  inode_disk.set_direct_blocks
    (<[0%nat := d]> (inode_disk.direct_blocks inode_disk.zeroed))
    (fresh_disk_inode 512).

(** ** The first version of the cache

    The first [filesys/cache.c] passes every call straight to the device;
    it is what the write-back cache has to be indistinguishable from. *)
Module write_through.
Definition fs_cache_read (sector : Z) (dev : block_device) : list Z * block_device :=
  (block_read dev sector, dev).

Definition fs_cache_write (sector : Z) (s : list Z) (dev : block_device) : block_device :=
  block_write dev sector s.

(** The buffers the reads of a history fill, in order, and the device
    the history leaves. *)
Fixpoint observe (ops : list cache_op) (dev : block_device)
  : list (list Z) * block_device :=
  match ops with
  | [] => ([], dev)
  | CacheRead s :: ops' =>
      let '(buf, dev1) := fs_cache_read s dev in
      let '(outs, dev2) := observe ops' dev1 in
      (buf :: outs, dev2)
  | CacheWrite s buf :: ops' => observe ops' (fs_cache_write s buf dev)
  end.
End write_through.

(** The same for the write-back cache. *)
Fixpoint observe (ops : list cache_op) (c : cache_state)
  : option (list (list Z) * cache_state) :=
  match ops with
  | [] => Some ([], c)
  | CacheRead s :: ops' =>
      '(buf, c1) ← fs_cache_read s c;
      '(outs, c2) ← observe ops' c1;
      Some (buf :: outs, c2)
  | CacheWrite s buf :: ops' =>
      c1 ← fs_cache_write s buf c;
      observe ops' c1
  end.

(** The cache after one more write, to a sector no line of [warm_cache]
    holds. *)
Definition warm_cache_written : cache_state :=
  default warm_cache (fs_cache_write 100 [5] warm_cache).
(** ** What a call leaves alone *)

Section Frames.
Context `{FM : FreeMap}.

(** Every run of [m] that ends with a value takes the state to one
    related to it by [R]. *)
Definition maintains {A} (R : fs_state -> fs_state -> Prop) (m : M A) : Prop :=
  forall st a st', m st = Ok (a, st') -> R st st'.

(** The step of a call that only looks: on a well-formed cache it leaves
    a well-formed cache in which every sector holds what it held, and the
    free map, the registry and the history of calls are as they were. *)
Definition same_disk (st st' : fs_state) : Prop :=
  cache_wf (fs_cache st) ->
  cache_wf (fs_cache st') /\
  (forall s, sector_content (fs_cache st') s = sector_content (fs_cache st) s) /\
  free_map st' = free_map st /\ open_inodes st' = open_inodes st /\
  trace st' = trace st /\ heap_ok st' = heap_ok st.

(** The step of a call that may write sectors but takes nothing from the
    free map and gives nothing back, and leaves the registry alone. *)
Definition no_allocation (st st' : fs_state) : Prop :=
  cache_wf (fs_cache st) ->
  cache_wf (fs_cache st') /\
  free_map st' = free_map st /\ open_inodes st' = open_inodes st /\
  heap_ok st' = heap_ok st /\
  exists evs, trace st' = trace st ++ evs /\ allocated evs = [] /\ released evs = [].
End Frames.

(** The sample inode read whole. *)
Definition sample_read : result ((Z * list Z) * fs_state) :=
  inode_read_at 0 512 0 sample_open_state.

(** A write of one byte into the sample inode. *)
Definition sample_write : result (Z * fs_state) :=
  inode_write_at 0 [7] 1 0 sample_open_state.
(** ** More sample states *)

(** The sample state with every sector of the free map taken. *)
Definition full_state : fs_state :=
  mk_fs_state fresh_cache [true; true] [] (fun _ => true) 0%nat [].

(** [inode_allocate] for a file of two sectors on the sample state, and
    [inode_deallocate] on the record it leaves. *)
Definition allocated_2 : inode_disk.t :=
  snd (value_of (inode_allocate (fresh_disk_inode 1024) sample_state)
         (false, fresh_disk_inode 0)).
Definition after_allocate_2 : fs_state :=
  state_after (inode_allocate (fresh_disk_inode 1024) sample_state) sample_state.
(** ** Fixed-point arithmetic ([threads/fixed-point.h]) *)

(** The functions are pure; a failed [ASSERT] ends a call with [Panic], a
    division by zero, or the [int] quotient of the least [int] by [-1],
    with [Fault].  [int] results are taken modulo two
    to the 32 as the 80x86 target computes them; the products formed in
    [long long] cannot overflow. *)
Module fixed_point.
Definition FIX_BITS : Z := 32.
Definition FIX_P : Z := 16.
Definition FIX_Q : Z := 16.
Definition FIX_F : Z := Z.shiftl 1 FIX_Q.
Definition FIX_MAX_INT : Z := Z.shiftl 1 FIX_P - 1.
Definition FIX_MIN_INT : Z := - FIX_MAX_INT.

Definition P : Z := 17.
Definition Q : Z := 14.
Definition FRACTION : Z := Z.shiftl 1 Q.

(** The conversion macros, on [int] arguments. *)
Definition CONVERT_TO_FP (n : Z) : Z := to_int (n * FRACTION).
Definition CONVERT_TO_INT_ZERO (x : Z) : Z := Z.quot x FRACTION.
Definition CONVERT_TO_INT_NEAREST (x : Z) : Z :=
  if 0 <=? x then Z.quot (to_int (x + Z.quot FRACTION 2)) FRACTION
  else Z.quot (to_int (x - Z.quot FRACTION 2)) FRACTION.

Record fixed_point_t : Type := __mk_fix { f : Z }.

Definition fix_int (n : Z) : result fixed_point_t :=
  if (FIX_MIN_INT <=? n) && (n <=? FIX_MAX_INT)
  then Ok (__mk_fix (to_int (n * FIX_F)))
  else Panic "assertion `n >= FIX_MIN_INT && n <= FIX_MAX_INT' failed".

Definition fix_frac (n d : Z) : result fixed_point_t :=
  if d =? 0 then Panic "assertion `d != 0' failed" else
  if (n =? -2147483648) && (d =? -1) then Fault else
  if (FIX_MIN_INT <=? to_int (Z.quot n d)) && (to_int (Z.quot n d) <=? FIX_MAX_INT)
  then Ok (__mk_fix (to_int (Z.quot (n * FIX_F) d)))
  else Panic "assertion `n / d >= FIX_MIN_INT && n / d <= FIX_MAX_INT' failed".

Definition fix_round (x : fixed_point_t) : Z :=
  Z.quot (to_int (f x + Z.quot FIX_F 2)) FIX_F.

Definition fix_trunc (x : fixed_point_t) : Z := Z.quot (f x) FIX_F.

Definition fix_add (x y : fixed_point_t) : fixed_point_t :=
  __mk_fix (to_int (f x + f y)).

Definition fix_sub (x y : fixed_point_t) : fixed_point_t :=
  __mk_fix (to_int (f x - f y)).

Definition fix_mul (x y : fixed_point_t) : fixed_point_t :=
  __mk_fix (to_int (Z.quot (f x * f y) FIX_F)).

Definition fix_scale (x : fixed_point_t) (n : Z) : result fixed_point_t :=
  if 0 <=? n then Ok (__mk_fix (to_int (f x * n)))
  else Panic "assertion `n >= 0' failed".

Definition fix_div (x y : fixed_point_t) : result fixed_point_t :=
  if f y =? 0 then Fault
  else Ok (__mk_fix (to_int (Z.quot (f x * FIX_F) (f y)))).

Definition fix_unscale (x : fixed_point_t) (n : Z) : result fixed_point_t :=
  if 0 <? n then Ok (__mk_fix (Z.quot (f x) n))
  else Panic "assertion `n > 0' failed".

Definition fix_inv (x : fixed_point_t) : result fixed_point_t :=
  match fix_int 1 with
  | Ok one => fix_div one x
  | Panic msg => Panic msg
  | Fault => Fault
  end.

Definition fix_compare (x y : fixed_point_t) : Z :=
  if f x <? f y then -1 else if f x >? f y then 1 else 0.
End fixed_point.


(** A disk on which sector 10 is a double-indirect block whose entry 0
    is sector 11, an indirect block whose entry 3 is sector 77; and an
    inode record of 256 sectors that points to it. *)
Definition double_sample_state : fs_state :=
  state_after
    (cache_write 11 (inode_indirect_block.to_bytes (<[3%nat := 77]> (replicate 128%nat 0)))
       (state_after
          (cache_write 10
             (inode_indirect_block.to_bytes (<[0%nat := 11]> (replicate 128%nat 0)))
             sample_state)
          sample_state))
    sample_state.

Definition double_sample_disk : inode_disk.t :=
  inode_disk.mk 131072 INODE_MAGIC (inode_disk.direct_blocks inode_disk.zeroed) 0 10.

(** [inode_allocate] for a file of 125 sectors (64000 bytes) on the sample
    state, and [inode_deallocate] on the record it leaves. *)
Definition allocated_125 : inode_disk.t :=
  snd (value_of (inode_allocate (fresh_disk_inode 64000) sample_state)
         (false, fresh_disk_inode 0)).
Definition after_allocate_125 : fs_state :=
  state_after (inode_allocate (fresh_disk_inode 64000) sample_state) sample_state.
Definition after_deallocate_125 : fs_state :=
  state_after (inode_deallocate (inode.mk 1 1 true 0 allocated_125) after_allocate_125)
    sample_state.


(** ** A disk that has been used before *)

(** The sectors a history wrote through the cache. *)
Definition written (evs : list event) : list Z :=
  omap (fun e => match e with EvCacheWrite s _ => Some s | _ => None end) evs.

(** A device with old content: sector 0 begins with the word 900, sector
    900 with the word 901, and sector 901 holds 512 bytes of value 7;
    every other sector is blank. *)
Definition stale_device : block_device :=
  fun s =>
    if s =? 0 then inode_indirect_block.to_bytes (<[0%nat := 900]> (replicate 128%nat 0))
    else if s =? 900
         then inode_indirect_block.to_bytes (<[0%nat := 901]> (replicate 128%nat 0))
         else if s =? 901 then replicate 512%nat 7 else sector_zero.

(** The sample state over that device: a freshly initialised cache, the
    sample free map (sectors 2 to 1001 free), no open inode. *)
Definition stale_state : fs_state :=
  mk_fs_state (fs_cache_init (cache_bss stale_device)) sample_free_map []
    (fun _ => true) 0%nat [].

(** [inode_create (1, 129536)] (253 sectors) on it, [inode_open (1)], and
    reads of the first and of the last block of the new file. *)
Definition created_253 : fs_state :=
  state_after (inode_create 1 129536 stale_state) stale_state.
Definition opened_253 : fs_state :=
  state_after (inode_open 1 created_253) stale_state.
Definition read_first_of_253 : fs_state :=
  state_after (inode_read_at 1 512 0 opened_253) stale_state.
Definition read_last_of_253 : fs_state :=
  state_after (inode_read_at 1 512 129024 opened_253) stale_state.

(** * Properties *)

(** ** The scan of [fs_cache_find] *)

Lemma find_from_shift k l s :
  find_from k l s = (fun j => (k + j)%nat) <$> find_from 0 l s.
Proof.
  revert k. induction l as [|e l IH]; intros k; cbn; [done|].
  destruct (negb (cache_entry_t.free e) && (cache_entry_t.sector e =? s)).
  - cbn. f_equal. lia.
  - rewrite (IH (S k)), (IH 1%nat).
    destruct (find_from 0 l s); cbn; [f_equal; lia | done].
Qed.

Lemma find_from_Some l s j :
  find_from 0 l s = Some j ->
  exists e, l !! j = Some e /\ holds s e = true /\
    forall j' e', (j' < j)%nat -> l !! j' = Some e' -> holds s e' = false.
Proof.
  revert j. induction l as [|e l IH]; intros j; cbn; [done|].
  fold (holds s e). destruct (holds s e) eqn:He.
  - intros [= <-]. exists e. split_and!; [done..|]. intros; lia.
  - rewrite find_from_shift. destruct (find_from 0 l s) as [j0|] eqn:E; [|done].
    cbn. intros [= <-]. destruct (IH j0 eq_refl) as (e0 & Hl & Hh & Hmin).
    exists e0. split_and!; [done..|].
    intros [|j'] e' Hlt; cbn; [by intros [= <-]|].
    apply Hmin. lia.
Qed.

Lemma find_from_None l s :
  find_from 0 l s = None <->
  forall j e, l !! j = Some e -> holds s e = false.
Proof.
  induction l as [|e l IH]; cbn.
  - split; [intros _ j e' H; by rewrite lookup_nil in H | done].
  - fold (holds s e). destruct (holds s e) eqn:He.
    + split; [done|]. intros H. specialize (H 0%nat e eq_refl). congruence.
    + rewrite find_from_shift. destruct (find_from 0 l s) as [j0|] eqn:E; cbn.
      * split; [done|]. intros H. destruct IH as [_ IH].
        discriminate IH. intros j e' Hj. apply (H (S j)). done.
      * split; [|done]. intros _ [|j] e'; cbn; [by intros [= <-]|].
        destruct IH as [IH _]. apply IH. done.
Qed.

Lemma find_from_first l s j e :
  l !! j = Some e -> holds s e = true ->
  (forall j' e', (j' < j)%nat -> l !! j' = Some e' -> holds s e' = false) ->
  find_from 0 l s = Some j.
Proof.
  intros Hl Hh Hmin. destruct (find_from 0 l s) as [j0|] eqn:E.
  - apply find_from_Some in E as (e0 & Hl0 & Hh0 & Hmin0).
    destruct (Nat.lt_trichotomy j0 j) as [Hlt|[->|Hlt]]; [|done|].
    + specialize (Hmin _ _ Hlt Hl0). congruence.
    + specialize (Hmin0 _ _ Hlt Hl). congruence.
  - rewrite find_from_None in E. specialize (E _ _ Hl). congruence.
Qed.

(** Replacing a line by one that passes the test for [s] exactly when the
    old one did leaves the scan for [s] as it was. *)
Lemma find_from_insert l i e e' s :
  l !! i = Some e -> holds s e' = holds s e ->
  find_from 0 (<[i := e']> l) s = find_from 0 l s.
Proof.
  revert i. induction l as [|e0 l IH]; intros i; [done|].
  destruct i as [|i]; cbn.
  - intros [= ->] Hh. fold (holds s e') (holds s e). by rewrite Hh.
  - intros Hl Hh. rewrite (find_from_shift 1 (<[i:=e']> l)), (find_from_shift 1 l).
    destruct (negb (cache_entry_t.free e0) && (cache_entry_t.sector e0 =? s)); [done|].
    f_equal. by apply IH.
Qed.

Lemma holds_true s e :
  holds s e = true <-> cache_entry_t.free e = false /\ cache_entry_t.sector e = s.
Proof.
  unfold holds. rewrite andb_true_iff, negb_true_iff, Z.eqb_eq. done.
Qed.

Lemma holds_false s e :
  holds s e = false <-> cache_entry_t.free e = true \/ cache_entry_t.sector e <> s.
Proof.
  unfold holds. rewrite andb_false_iff, negb_false_iff, Z.eqb_neq. done.
Qed.

(** With at most one valid line per sector, the scan finds the line. *)
Lemma fs_cache_find_unique c i e :
  cache_wf c -> cache c !! i = Some e -> cache_entry_t.free e = false ->
  fs_cache_find (cache_entry_t.sector e) c = Some i.
Proof.
  intros Hwf Hl Hf. unfold fs_cache_find.
  apply (find_from_first _ _ _ e); [done|by apply holds_true|].
  intros j' e' Hlt Hl'. destruct (holds (cache_entry_t.sector e) e') eqn:Hh; [|done].
  apply holds_true in Hh as [Hf' Hs].
  pose proof (wf_unique c Hwf j' i e' e Hl' Hl Hf' Hf Hs). lia.
Qed.

Lemma fs_cache_find_Some s c i :
  fs_cache_find s c = Some i ->
  exists e, cache c !! i = Some e /\ cache_entry_t.free e = false /\
            cache_entry_t.sector e = s.
Proof.
  intros H. apply find_from_Some in H as (e & Hl & Hh & _).
  apply holds_true in Hh. eauto.
Qed.

Lemma fs_cache_find_None s c i e :
  fs_cache_find s c = None -> cache c !! i = Some e ->
  cache_entry_t.free e = true \/ cache_entry_t.sector e <> s.
Proof.
  intros H Hl. apply holds_false. unfold fs_cache_find in H.
  rewrite find_from_None in H. eauto.
Qed.

(** ** Replacing one line *)

Lemma sector_content_insert c i e e' s :
  cache c !! i = Some e ->
  holds s e' = holds s e ->
  (holds s e = true -> cache_entry_t.data e' = cache_entry_t.data e) ->
  sector_content (set_cache (<[i := e']> (cache c)) c) s = sector_content c s.
Proof.
  intros Hl Hh Hd. unfold sector_content, fs_cache_find. cbn.
  rewrite (find_from_insert _ _ _ _ _ Hl Hh).
  destruct (find_from 0 (cache c) s) as [j|] eqn:E; [|done].
  apply find_from_Some in E as (ej & Hj & Hhj & _). rewrite Hj.
  destruct (decide (j = i)) as [->|Hne].
  - rewrite list_lookup_insert_eq by (by eapply lookup_lt_Some).
    rewrite Hl in Hj. injection Hj as <-. auto.
  - by rewrite list_lookup_insert_ne, Hj.
Qed.

Lemma cache_wf_insert c i e e' :
  cache_wf c -> cache c !! i = Some e ->
  (cache_entry_t.free e' = false ->
   forall j ej, j <> i -> cache c !! j = Some ej ->
     cache_entry_t.free ej = false ->
     cache_entry_t.sector ej <> cache_entry_t.sector e') ->
  (cache_entry_t.free e' = false -> cache_entry_t.dirty e' = false ->
   cache_entry_t.data e' = fs_device c (cache_entry_t.sector e')) ->
  (cache_entry_t.free e' = true ->
   cache_entry_t.access e' = false /\ cache_entry_t.dirty e' = false) ->
  cache_wf (set_cache (<[i := e']> (cache c)) c).
Proof.
  intros Hwf Hl Huniq Hclean Hfree.
  assert (i < List.length (cache c))%nat as Hi by (by eapply lookup_lt_Some).
  assert (forall j ej, <[i := e']> (cache c) !! j = Some ej ->
            (j = i /\ ej = e') \/ (j <> i /\ cache c !! j = Some ej)) as Hcase.
  { intros j ej. destruct (decide (j = i)) as [->|Hne].
    - rewrite list_lookup_insert_eq by done. intros [= <-]. by left.
    - rewrite list_lookup_insert_ne by done. by right. }
  constructor; cbn.
  - rewrite length_insert. apply Hwf.
  - apply Hwf.
  - intros j k ej ek Hj Hk Hfj Hfk Hs.
    apply Hcase in Hj as [[-> ->]|[Hj1 Hj]]; apply Hcase in Hk as [[-> ->]|[Hk1 Hk]].
    + done.
    + exfalso. eapply (Huniq Hfj k ek); eauto.
    + exfalso. eapply (Huniq Hfk j ej); eauto.
    + eapply (wf_unique c Hwf); eauto.
  - intros j ej Hj Hfj Hdj. apply Hcase in Hj as [[-> ->]|[Hj1 Hj]]; [auto|].
    eapply (wf_clean c Hwf); eauto.
  - intros j ej Hj Hfj. apply Hcase in Hj as [[-> ->]|[Hj1 Hj]]; [auto|].
    eapply (wf_free c Hwf); eauto.
Qed.

(** A valid line keeps its sector: the other lines cannot clash with it. *)
Lemma cache_wf_insert_same c i e e' :
  cache_wf c -> cache c !! i = Some e ->
  cache_entry_t.free e = false -> cache_entry_t.free e' = false ->
  cache_entry_t.sector e' = cache_entry_t.sector e ->
  (cache_entry_t.dirty e' = false ->
   cache_entry_t.data e' = fs_device c (cache_entry_t.sector e')) ->
  cache_wf (set_cache (<[i := e']> (cache c)) c).
Proof.
  intros Hwf Hl Hf Hf' Hs Hclean.
  apply (cache_wf_insert c i e e'); [done..| | auto |congruence].
  intros _ j ej Hne Hj Hfj Heq. apply Hne.
  eapply (wf_unique c Hwf); eauto. congruence.
Qed.

Lemma cache_wf_set_clock c k :
  cache_wf c -> (k < CACHE_SIZE)%nat -> cache_wf (set_clock k c).
Proof. intros [? ? ? ? ?] Hk. by constructor. Qed.

Lemma sector_content_set_clock c k s :
  sector_content (set_clock k c) s = sector_content c s.
Proof. done. Qed.

Lemma update_entry_Some i f c e :
  cache c !! i = Some e ->
  update_entry i f c = Some (set_cache (<[i := f e]> (cache c)) c).
Proof. intros H. unfold update_entry. by rewrite H. Qed.

(** ** Write-back of one line *)

Lemma set_dirty_clean e :
  cache_entry_t.dirty e = false -> cache_entry_t.set_dirty false e = e.
Proof. destruct e; cbn; by intros ->. Qed.

Lemma fs_cache_flush_spec i c e :
  cache_wf c -> cache c !! i = Some e -> cache_entry_t.free e = false ->
  exists c',
    fs_cache_flush i c = Some c' /\ cache_wf c' /\
    (forall s, sector_content c' s = sector_content c s) /\
    cache c' = <[i := cache_entry_t.set_dirty false e]> (cache c) /\
    clock c' = clock c /\
    fs_device c' =
      (if cache_entry_t.dirty e
       then block_write (fs_device c) (cache_entry_t.sector e) (cache_entry_t.data e)
       else fs_device c).
Proof.
  intros Hwf Hl Hf. unfold fs_cache_flush. rewrite Hl. cbn.
  destruct (cache_entry_t.dirty e) eqn:Hd.
  - set (c1 := set_fs_device _ c).
    assert (cache_wf c1) as Hwf1.
    { destruct Hwf as [H1 H2 H3 H4 H5]. constructor; cbn; try done.
      intros j ej Hj Hfj Hdj. unfold block_write.
      destruct (Z.eqb_spec (cache_entry_t.sector ej) (cache_entry_t.sector e)) as [Heq|Hne].
      - assert (j = i) as -> by eauto. congruence.
      - eauto. }
    assert (forall s, sector_content c1 s = sector_content c s) as Hc1.
    { intros s. unfold sector_content, fs_cache_find. cbn.
      destruct (find_from 0 (cache c) s) as [j|] eqn:E.
      - apply find_from_Some in E as (ej & -> & _). done.
      - unfold block_write. destruct (Z.eqb_spec s (cache_entry_t.sector e)) as [->|]; [|done].
        rewrite find_from_None in E. specialize (E _ _ Hl).
        apply holds_false in E as [E|E]; congruence. }
    rewrite (update_entry_Some _ _ c1 e) by done.
    eexists. split; [done|]. split_and!; try done.
    + apply (cache_wf_insert_same c1 i e); try done.
      intros _. cbn. unfold block_write. by rewrite Z.eqb_refl.
    + intros s. rewrite <- Hc1. apply (sector_content_insert c1 i e); done.
  - exists c. split_and!; try done.
    by rewrite set_dirty_clean, list_insert_id.
Qed.

(** ** The clock sweep *)

Lemma clock_advance_lt k : ((k + 1) mod CACHE_SIZE < CACHE_SIZE)%nat.
Proof. apply Nat.mod_upper_bound. done. Qed.

(** Clearing the access bit of the valid line under the hand. *)
Lemma clear_access_spec c e :
  cache_wf c -> cache c !! clock c = Some e -> cache_entry_t.free e = false ->
  let c1 := set_clock ((clock c + 1) mod CACHE_SIZE)%nat
              (set_cache (<[clock c := cache_entry_t.set_access false e]> (cache c)) c) in
  cache_wf c1 /\ (forall s, sector_content c1 s = sector_content c s).
Proof.
  intros Hwf Hl Hf c1. split.
  - apply cache_wf_set_clock; [|apply clock_advance_lt].
    apply (cache_wf_insert_same c _ e); try done.
    cbn. intros Hd. by apply (wf_clean c Hwf (clock c)).
  - intros s. unfold c1. rewrite sector_content_set_clock.
    by apply (sector_content_insert c _ e).
Qed.

(** Handing out the line under the hand once its access bit is clear:
    written back if dirty, then marked free. *)
Lemma evict_victim_spec c i e :
  cache_wf c -> cache c !! i = Some e ->
  cache_entry_t.free e = false -> cache_entry_t.access e = false ->
  exists c1 c2,
    (if cache_entry_t.dirty e then fs_cache_flush i c else Some c) = Some c1 /\
    update_entry i (cache_entry_t.set_free true) c1 = Some c2 /\
    cache_wf c2 /\ (forall s, sector_content c2 s = sector_content c s) /\
    cache c2 = <[i := cache_entry_t.set_free true (cache_entry_t.set_dirty false e)]> (cache c) /\
    fs_device c2 =
      (if cache_entry_t.dirty e
       then block_write (fs_device c) (cache_entry_t.sector e) (cache_entry_t.data e)
       else fs_device c).
Proof.
  intros Hwf Hl Hf Ha.
  destruct (fs_cache_flush_spec i c e Hwf Hl Hf) as (c1 & Hfl & Hwf1 & Hc1 & Hl1 & Hk1 & Hd1).
  assert (i < List.length (cache c))%nat as Hi by (by eapply lookup_lt_Some).
  set (e1 := cache_entry_t.set_dirty false e) in *.
  assert (cache c1 !! i = Some e1) as Hi1.
  { rewrite Hl1. by apply list_lookup_insert_eq. }
  exists c1, (set_cache (<[i := cache_entry_t.set_free true e1]> (cache c1)) c1).
  split_and!.
  - destruct (cache_entry_t.dirty e) eqn:Hd; [done|].
    unfold fs_cache_flush in Hfl. rewrite Hl in Hfl. cbn in Hfl. by rewrite Hd in Hfl.
  - by apply update_entry_Some.
  - apply (cache_wf_insert c1 i e1); try done.
  - intros s. rewrite <- Hc1.
    destruct (holds s e1) eqn:Hh.
    + apply holds_true in Hh as [Hf1 Hs1].
      unfold sector_content at 2.
      rewrite <- Hs1, (fs_cache_find_unique c1 i e1 Hwf1 Hi1 Hf1), Hi1.
      unfold sector_content.
      assert (fs_cache_find (cache_entry_t.sector e1)
                (set_cache (<[i:=cache_entry_t.set_free true e1]> (cache c1)) c1) = None) as ->.
      { apply find_from_None. cbn. intros j ej Hj. apply holds_false.
        destruct (decide (j = i)) as [->|Hne].
        - rewrite list_lookup_insert_eq in Hj by (by eapply lookup_lt_Some).
          injection Hj as <-. by left.
        - rewrite list_lookup_insert_ne in Hj by done.
          destruct (cache_entry_t.free ej) eqn:Hfj; [by left|right].
          intros Heq. apply Hne. eapply (wf_unique c1 Hwf1); eauto. }
      cbn [fs_device set_cache]. symmetry. by apply (wf_clean c1 Hwf1 i e1 Hi1 Hf1).
    + apply (sector_content_insert c1 i e1); [done| |congruence].
      rewrite Hh. apply holds_false. by left.
  - cbn. rewrite Hl1. by rewrite list_insert_insert_eq.
  - done.
Qed.

Lemma evict_scan_spec fuel c v c' :
  cache_wf c -> evict_scan fuel c = Some (v, c') ->
  cache_wf c' /\ (forall s, sector_content c' s = sector_content c s) /\
  (exists ev, cache c' !! v = Some ev /\ cache_entry_t.free ev = true) /\
  (forall j e', cache c' !! j = Some e' -> cache_entry_t.free e' = false ->
     exists e, cache c !! j = Some e /\ cache_entry_t.free e = false /\
               cache_entry_t.sector e = cache_entry_t.sector e').
Proof.
  revert c. induction fuel as [|fuel IH]; intros c Hwf; cbn [evict_scan]; [done|].
  destruct (cache c !! clock c) as [e|] eqn:Hl; cbn; [|done].
  destruct (cache_entry_t.free e) eqn:Hf.
  { intros [= <- <-]. split_and!; eauto. }
  destruct (cache_entry_t.access e) eqn:Ha.
  - rewrite (update_entry_Some _ _ c e Hl). cbn.
    destruct (clear_access_spec c e Hwf Hl Hf) as [Hwf1 Hc1].
    intros H. apply IH in H as (Hwf' & Hc' & Hv & Hsub); [|done].
    split_and!; try done.
    + intros s. by rewrite Hc', Hc1.
    + intros j e' Hj Hfj. destruct (Hsub j e' Hj Hfj) as (e1 & Hj1 & Hf1 & Hs1).
      cbn in Hj1. destruct (decide (j = clock c)) as [->|Hne].
      * rewrite list_lookup_insert_eq in Hj1 by (by eapply lookup_lt_Some).
        injection Hj1 as <-. eauto.
      * rewrite list_lookup_insert_ne in Hj1 by done. eauto.
  - destruct (evict_victim_spec c (clock c) e Hwf Hl Hf Ha)
      as (c1 & c2 & -> & Hup & Hwf2 & Hc2 & Hl2 & Hd2).
    cbn. rewrite Hup. cbn. intros [= <- <-].
    assert (clock c < List.length (cache c))%nat as Hi by (by eapply lookup_lt_Some).
    split_and!; try done.
    + eexists. rewrite Hl2. split; [by apply list_lookup_insert_eq|done].
    + intros j e' Hj Hfj. rewrite Hl2 in Hj.
      destruct (decide (j = clock c)) as [->|Hne].
      * rewrite list_lookup_insert_eq in Hj by done. injection Hj as <-. done.
      * rewrite list_lookup_insert_ne in Hj by done. eauto.
Qed.

Lemma pending_clear l i e :
  l !! i = Some e -> cache_entry_t.free e = false -> cache_entry_t.access e = true ->
  pending l = S (pending (<[i := cache_entry_t.set_access false e]> l)).
Proof.
  intros Hl Hf Ha. unfold pending.
  rewrite <- (take_drop_middle l i e Hl) at 1.
  rewrite insert_take_drop by (by eapply lookup_lt_Some).
  rewrite !List.filter_app, !List.length_app. cbn. rewrite Hf, Ha. cbn. lia.
Qed.

Lemma evict_scan_total fuel c :
  (clock c < List.length (cache c))%nat -> List.length (cache c) = CACHE_SIZE ->
  (pending (cache c) < fuel)%nat ->
  is_Some (evict_scan fuel c).
Proof.
  revert c. induction fuel as [|fuel IH]; intros c Hk Hlen Hp; [lia|].
  cbn [evict_scan].
  destruct (lookup_lt_is_Some_2 _ _ Hk) as [e Hl]. rewrite Hl. cbn.
  destruct (cache_entry_t.free e) eqn:Hf; [done|].
  destruct (cache_entry_t.access e) eqn:Ha.
  - rewrite (update_entry_Some _ _ c e Hl). cbn. apply IH; cbn [cache clock set_clock set_cache].
    + rewrite length_insert, Hlen. apply clock_advance_lt.
    + by rewrite length_insert.
    + rewrite (pending_clear _ _ _ Hl Hf Ha) in Hp. lia.
  - assert (exists c1, (if cache_entry_t.dirty e then fs_cache_flush (clock c) c else Some c)
                       = Some c1 /\ List.length (cache c1) = List.length (cache c))
      as (c1 & -> & Hlen1).
    { destruct (cache_entry_t.dirty e) eqn:Hd; [|eauto].
      unfold fs_cache_flush. rewrite Hl. cbn. rewrite Hd.
      erewrite update_entry_Some by (cbn; done). eexists. split; [done|].
      cbn. by rewrite length_insert. }
    cbn. destruct (lookup_lt_is_Some_2 (cache c1) (clock c)) as [e1 Hl1]; [lia|].
    by rewrite (update_entry_Some _ _ c1 e1 Hl1).
Qed.

Lemma pending_le l : (pending l <= List.length l)%nat.
Proof. unfold pending. apply List.filter_length_le. Qed.

(** [fs_cache_evict] always returns. *)
Lemma fs_cache_evict_total c :
  cache_wf c -> is_Some (fs_cache_evict c).
Proof.
  intros Hwf. apply evict_scan_total.
  - rewrite (wf_length c Hwf). apply Hwf.
  - apply Hwf.
  - pose proof (pending_le (cache c)). rewrite (wf_length c Hwf) in H. lia.
Qed.

(** ** Reads and writes *)

Lemma cache_line_for_spec s c :
  cache_wf c ->
  exists i c1 e,
    cache_line_for s c = Some (i, c1) /\ cache_wf c1 /\
    cache c1 !! i = Some e /\ cache_entry_t.free e = false /\
    cache_entry_t.sector e = s /\
    cache_entry_t.data e = sector_content c s /\
    (forall s', sector_content c1 s' = sector_content c s').
Proof.
  intros Hwf. unfold cache_line_for.
  destruct (fs_cache_find s c) as [i|] eqn:Hfind.
  - destruct (fs_cache_find_Some _ _ _ Hfind) as (e & Hl & Hf & Hs).
    exists i, c, e. split_and!; try done.
    unfold sector_content. by rewrite Hfind, Hl.
  - destruct (fs_cache_evict_total c Hwf) as [[v c1] Hev]. rewrite Hev. cbn.
    destruct (evict_scan_spec _ _ _ _ Hwf Hev) as (Hwf1 & Hc1 & (ev & Hv & Hfv) & Hsub).
    rewrite (update_entry_Some _ _ c1 ev Hv). cbn.
    set (e' := cache_entry_t.mk s _ _ false false).
    assert (forall j ej, cache c1 !! j = Some ej -> holds s ej = false) as Hnone.
    { intros j ej Hj. apply holds_false.
      destruct (cache_entry_t.free ej) eqn:Hfj; [by left|right].
      destruct (Hsub j ej Hj Hfj) as (e0 & Hj0 & Hf0 & Hs0). rewrite <- Hs0.
      destruct (fs_cache_find_None _ _ _ _ Hfind Hj0); congruence. }
    assert (fs_cache_find s c1 = None) as Hfind1 by (by apply find_from_None).
    assert (v < List.length (cache c1))%nat as Hlt by (by eapply lookup_lt_Some).
    set (c2 := set_cache (<[v := e']> (cache c1)) c1).
    assert (cache_wf c2) as Hwf2.
    { apply (cache_wf_insert c1 v ev); try done.
      intros _ j ej Hne Hj Hfj Heq. cbn in Heq. specialize (Hnone j ej Hj).
      apply holds_false in Hnone as [?|?]; congruence. }
    assert (cache c2 !! v = Some e') as Hl2 by (by apply list_lookup_insert_eq).
    assert (fs_cache_find s c2 = Some v) as Hfind2.
    { apply (fs_cache_find_unique c2 v e' Hwf2 Hl2). done. }
    exists v, c2, e'. split; [done|]. split_and!; try done.
    + cbn. rewrite <- Hc1. unfold sector_content. by rewrite Hfind1.
    + intros s'. rewrite <- Hc1.
      destruct (Z.eq_dec s' s) as [->|Hne].
      * unfold sector_content. rewrite Hfind1, Hfind2, Hl2. done.
      * apply (sector_content_insert c1 v ev); try done.
        -- transitivity false; [|symmetry]; apply holds_false; [right|left]; cbn; congruence.
        -- intros Hh. apply holds_true in Hh as [? _]. congruence.
Qed.

(** [fs_cache_read] returns what the cache and device hold for the
    sector, and changes the content of no sector. *)
Lemma fs_cache_read_spec s c :
  cache_wf c ->
  exists c',
    fs_cache_read s c = Some (sector_content c s, c') /\ cache_wf c' /\
    (forall s', sector_content c' s' = sector_content c s').
Proof.
  intros Hwf. unfold fs_cache_read.
  destruct (cache_line_for_spec s c Hwf) as (i & c1 & e & -> & Hwf1 & Hl & Hf & Hs & Hd & Hc1).
  cbn. rewrite (update_entry_Some _ _ c1 e Hl). cbn.
  rewrite list_lookup_insert_eq by (by eapply lookup_lt_Some). cbn.
  rewrite Hd. eexists. split; [done|]. split.
  - apply (cache_wf_insert_same c1 i e); try done.
    cbn. intros Hdirty. by apply (wf_clean c1 Hwf1 i).
  - intros s'. rewrite <- Hc1. by apply (sector_content_insert c1 i e).
Qed.

(** [fs_cache_write] makes the buffer the content of the sector, and
    changes the content of no other sector. *)
Lemma fs_cache_write_spec s buf c :
  cache_wf c ->
  exists c',
    fs_cache_write s buf c = Some c' /\ cache_wf c' /\
    (forall s', sector_content c' s' = if Z.eqb s' s then buf else sector_content c s') /\
    (exists i e, fs_cache_find s c' = Some i /\ cache c' !! i = Some e /\
                 cache_entry_t.data e = buf /\ cache_entry_t.dirty e = true /\
                 cache_entry_t.access e = true).
Proof.
  intros Hwf. unfold fs_cache_write.
  destruct (cache_line_for_spec s c Hwf) as (i & c1 & e & -> & Hwf1 & Hl & Hf & Hs & Hd & Hc1).
  cbn. rewrite (update_entry_Some _ _ c1 e Hl).
  set (e' := cache_entry_t.set_data buf _).
  assert (i < List.length (cache c1))%nat as Hlt by (by eapply lookup_lt_Some).
  assert (cache_wf (set_cache (<[i:=e']> (cache c1)) c1)) as Hwf'.
  { apply (cache_wf_insert_same c1 i e); done. }
  assert (fs_cache_find s (set_cache (<[i:=e']> (cache c1)) c1) = Some i) as Hfind.
  { rewrite <- Hs. change (cache_entry_t.sector e) with (cache_entry_t.sector e').
    apply fs_cache_find_unique; [done| |done]. cbn. by apply list_lookup_insert_eq. }
  eexists. split; [done|]. split_and!; [done| |].
  - intros s'. destruct (Z.eqb_spec s' s) as [->|Hne].
    + unfold sector_content. rewrite Hfind. cbn.
      by rewrite list_lookup_insert_eq.
    + rewrite <- Hc1. apply (sector_content_insert c1 i e); [done|done|].
      intros Hh. apply holds_true in Hh as [_ ?]. congruence.
  - exists i, e'. split_and!; try done. cbn. by apply list_lookup_insert_eq.
Qed.

(** ** Initialisation, histories and teardown *)

Lemma fs_cache_init_wf dev : cache_wf (fs_cache_init (cache_bss dev)).
Proof.
  assert (forall i e, cache (fs_cache_init (cache_bss dev)) !! i = Some e ->
            e = cache_entry_t.set_free true cache_entry_bss) as Hall.
  { intros i e. unfold fs_cache_init, cache_bss. cbn [cache set_cache].
    rewrite list_lookup_fmap.
    destruct (replicate CACHE_SIZE cache_entry_bss !! i) as [e0|] eqn:E; [|done].
    apply lookup_replicate in E as [-> _]. by intros [= <-]. }
  constructor.
  - unfold fs_cache_init, cache_bss. cbn [cache set_cache].
    by rewrite length_fmap, length_replicate.
  - cbn. unfold CACHE_SIZE. lia.
  - intros i j ei ej Hi Hj Hfi. apply Hall in Hi as ->. done.
  - intros i e Hi Hf. apply Hall in Hi as ->. done.
  - intros i e Hi _. apply Hall in Hi as ->. done.
Qed.

Lemma run_op_spec op c :
  cache_wf c ->
  exists c',
    run_op op c = Some c' /\ cache_wf c' /\
    (forall s, sector_content c' s =
       match last_write s [op] with
       | Some buf => buf
       | None => sector_content c s
       end).
Proof.
  intros Hwf. destruct op as [s|s buf]; cbn.
  - destruct (fs_cache_read_spec s c Hwf) as (c' & -> & Hwf' & Hc).
    exists c'. done.
  - destruct (fs_cache_write_spec s buf c Hwf) as (c' & -> & Hwf' & Hc & _).
    exists c'. split_and!; [done..|].
    intros s'. rewrite Hc, (Z.eqb_sym s' s). by destruct (s =? s').
Qed.

(** Any history of reads and writes runs to the end, keeps the invariant,
    and leaves every sector with the last buffer written to it. *)
Lemma run_ops_spec ops c :
  cache_wf c ->
  exists c',
    run_ops ops c = Some c' /\ cache_wf c' /\
    (forall s, sector_content c' s =
       match last_write s ops with
       | Some buf => buf
       | None => sector_content c s
       end).
Proof.
  revert c. induction ops as [|op ops IH]; intros c Hwf.
  - exists c. done.
  - destruct (run_op_spec op c Hwf) as (c1 & H1 & Hwf1 & Hc1).
    destruct (IH c1 Hwf1) as (c' & H' & Hwf' & Hc').
    exists c'. cbn [run_ops]. rewrite H1. cbn. split_and!; [done..|].
    intros s. rewrite Hc'. cbn [last_write].
    destruct (last_write s ops); [done|].
    rewrite Hc1. cbn [last_write]. done.
Qed.

(** Every state the cache reaches from [fs_cache_init] satisfies the
    invariant. *)
Lemma reachable_cache_wf dev ops c :
  run_ops ops (fs_cache_init (cache_bss dev)) = Some c -> cache_wf c.
Proof.
  intros H. destruct (run_ops_spec ops _ (fs_cache_init_wf dev)) as (c' & H' & Hwf & _).
  congruence.
Qed.

Lemma destroy_from_spec n i c :
  cache_wf c -> (i + n = CACHE_SIZE)%nat ->
  (forall j e, (j < i)%nat -> cache c !! j = Some e ->
     cache_entry_t.free e = false -> cache_entry_t.dirty e = false) ->
  exists c',
    destroy_from n i c = Some c' /\ cache_wf c' /\
    (forall s, sector_content c' s = sector_content c s) /\
    (forall j e, cache c' !! j = Some e ->
       cache_entry_t.free e = false -> cache_entry_t.dirty e = false).
Proof.
  revert i c. induction n as [|n IH]; intros i c Hwf Hin Hclean; cbn [destroy_from].
  - exists c. split_and!; try done. intros j e Hj. apply (Hclean j); [|done].
    apply lookup_lt_Some in Hj. rewrite (wf_length c Hwf) in Hj. lia.
  - destruct (lookup_lt_is_Some_2 (cache c) i) as [e Hl].
    { rewrite (wf_length c Hwf). lia. }
    rewrite Hl. cbn.
    assert (exists c1, (if negb (cache_entry_t.free e) then fs_cache_flush i c else Some c)
                       = Some c1 /\ cache_wf c1 /\
              (forall s, sector_content c1 s = sector_content c s) /\
              (forall j e, (j < S i)%nat -> cache c1 !! j = Some e ->
                 cache_entry_t.free e = false -> cache_entry_t.dirty e = false))
      as (c1 & -> & Hwf1 & Hc1 & Hclean1).
    { destruct (cache_entry_t.free e) eqn:Hf; cbn.
      - exists c. split_and!; try done. intros j ej Hj Hlj Hfj.
        destruct (decide (j = i)) as [->|Hne]; [congruence|].
        apply (Hclean j); [lia|done..].
      - destruct (fs_cache_flush_spec i c e Hwf Hl Hf) as (c1 & -> & Hwf1 & Hc1 & Hl1 & _).
        exists c1. split_and!; try done. intros j ej Hj Hlj Hfj. rewrite Hl1 in Hlj.
        destruct (decide (j = i)) as [->|Hne].
        + rewrite list_lookup_insert_eq in Hlj by (by eapply lookup_lt_Some).
          by injection Hlj as <-.
        + rewrite list_lookup_insert_ne in Hlj by done.
          apply (Hclean j); [lia|done..]. }
    cbn. destruct (IH (S i) c1 Hwf1) as (c' & -> & Hwf' & Hc' & Hclean'); [lia|done|].
    exists c'. split_and!; try done. intros s. by rewrite Hc', Hc1.
Qed.

(** After [fs_cache_destroy] the device holds, for every sector, what the
    cache and device together held before. *)
Lemma fs_cache_destroy_spec c :
  cache_wf c ->
  exists c',
    fs_cache_destroy c = Some c' /\
    (forall s, fs_device c' s = sector_content c s).
Proof.
  intros Hwf. destruct (destroy_from_spec CACHE_SIZE 0 c Hwf) as (c' & H & Hwf' & Hc & Hclean);
    [done|intros; lia|].
  exists c'. split; [done|]. intros s. rewrite <- Hc. unfold sector_content.
  destruct (fs_cache_find s c') as [i|] eqn:Hfind; [|done].
  destruct (fs_cache_find_Some _ _ _ Hfind) as (e & Hl & Hf & Hs). rewrite Hl.
  rewrite <- Hs. symmetry. apply (wf_clean c' Hwf' i); eauto.
Qed.

(** ** The hand of the clock *)




(** ** Write-back at eviction *)

Lemma evict_scan_write_back fuel c v c' e :
  evict_scan fuel c = Some (v, c') -> cache c !! v = Some e ->
  cache_entry_t.free e = false -> cache_entry_t.dirty e = true ->
  fs_device c' (cache_entry_t.sector e) = cache_entry_t.data e /\
  exists e', cache c' !! v = Some e' /\ cache_entry_t.free e' = true /\
             cache_entry_t.dirty e' = false.
Proof.
  revert c e. induction fuel as [|fuel IH]; intros c e; cbn [evict_scan]; [done|].
  destruct (cache c !! clock c) as [e0|] eqn:Hl; cbn; [|done].
  destruct (cache_entry_t.free e0) eqn:Hf.
  { intros [= <- <-]. rewrite Hl. intros [= <-]. congruence. }
  assert (clock c < List.length (cache c))%nat as Hlt by (by eapply lookup_lt_Some).
  destruct (cache_entry_t.access e0) eqn:Ha.
  - rewrite (update_entry_Some _ _ c e0 Hl). cbn. intros H Hv Hfe Hde.
    destruct (decide (v = clock c)) as [->|Hne].
    + rewrite Hl in Hv. injection Hv as ->.
      apply (IH _ (cache_entry_t.set_access false e)) in H; [done| |done..].
      cbn. by apply list_lookup_insert_eq.
    + apply (IH _ e) in H; [done| |done..].
      cbn. by rewrite list_lookup_insert_ne.
  - destruct (cache_entry_t.dirty e0) eqn:Hd.
    + unfold fs_cache_flush. rewrite Hl. cbn. rewrite Hd.
      erewrite update_entry_Some by (cbn; done). cbn.
      erewrite update_entry_Some by (cbn; by apply list_lookup_insert_eq). cbn.
      intros [= <- <-]. rewrite Hl. intros [= <-] _ _. cbn. split.
      * unfold block_write. by rewrite Z.eqb_refl.
      * eexists. rewrite list_insert_insert_eq. split; [by apply list_lookup_insert_eq|done].
    + cbn. rewrite (update_entry_Some _ _ c e0 Hl). cbn.
      intros [= <- <-]. rewrite Hl. intros [= <-]. congruence.
Qed.

(** ** The claims about the cache *)

(** C3. Cache coherency: after [fs_cache_write (S, B)], whatever reads and
    writes of other sectors (and reads of [S]) follow, [fs_cache_read (S)]
    returns exactly [B]; in particular while the line of [S] is still
    resident it holds [B]. *)
Theorem cache_write_then_read (c : cache_state) (S : Z) (B : list Z)
    (ops : list cache_op) :
  cache_wf c -> last_write S ops = None ->
  exists c1 c2 c3,
    fs_cache_write S B c = Some c1 /\ run_ops ops c1 = Some c2 /\
    fs_cache_read S c2 = Some (B, c3) /\
    (forall i e, fs_cache_find S c2 = Some i -> cache c2 !! i = Some e ->
                 cache_entry_t.data e = B).
Proof.
  intros Hwf Hops.
  destruct (fs_cache_write_spec S B c Hwf) as (c1 & Hw & Hwf1 & Hc1 & _).
  destruct (run_ops_spec ops c1 Hwf1) as (c2 & Hr & Hwf2 & Hc2).
  destruct (fs_cache_read_spec S c2 Hwf2) as (c3 & Hrd & _).
  assert (sector_content c2 S = B) as HB.
  { by rewrite Hc2, Hops, Hc1, Z.eqb_refl. }
  rewrite HB in Hrd. exists c1, c2, c3. split_and!; [done..|].
  intros i e Hfind Hl. rewrite <- HB. unfold sector_content. by rewrite Hfind, Hl.
Qed.

Lemma cache_write_then_read_witness :
  cache_wf fresh_cache /\
  last_write 7 [CacheRead 3; CacheWrite 4 [9]; CacheRead 7] = None /\
  exists c1 c2 c3,
    fs_cache_write 7 [1; 2; 3] fresh_cache = Some c1 /\
    run_ops [CacheRead 3; CacheWrite 4 [9]; CacheRead 7] c1 = Some c2 /\
    fs_cache_read 7 c2 = Some ([1; 2; 3], c3) /\
    (forall i e, fs_cache_find 7 c2 = Some i -> cache c2 !! i = Some e ->
                 cache_entry_t.data e = [1; 2; 3]).
Proof.
  split; [apply fs_cache_init_wf|]. split; [reflexivity|].
  apply (cache_write_then_read fresh_cache 7 [1; 2; 3]
           [CacheRead 3; CacheWrite 4 [9]; CacheRead 7]);
    [apply fs_cache_init_wf | reflexivity].
Defined.

(** C4. Write-back: when [fs_cache_evict] hands out a line that was valid
    and dirty, the device holds that line's bytes for its sector and the
    line comes back free and clean; and after [fs_cache_destroy] the device
    holds, for every sector written through the cache, the last buffer
    written to it. *)
Theorem write_back_correct :
  (forall c v c' e,
     fs_cache_evict c = Some (v, c') -> cache c !! v = Some e ->
     cache_entry_t.free e = false -> cache_entry_t.dirty e = true ->
     fs_device c' (cache_entry_t.sector e) = cache_entry_t.data e /\
     exists e', cache c' !! v = Some e' /\ cache_entry_t.free e' = true /\
                cache_entry_t.dirty e' = false) /\
  (forall c ops S B,
     cache_wf c -> last_write S ops = Some B ->
     exists c1 c2,
       run_ops ops c = Some c1 /\ fs_cache_destroy c1 = Some c2 /\
       fs_device c2 S = B).
Proof.
  split.
  - intros c v c' e. apply evict_scan_write_back.
  - intros c ops S B Hwf Hops.
    destruct (run_ops_spec ops c Hwf) as (c1 & Hr & Hwf1 & Hc1).
    destruct (fs_cache_destroy_spec c1 Hwf1) as (c2 & Hd & Hc2).
    exists c1, c2. split_and!; [done..|]. by rewrite Hc2, Hc1, Hops.
Qed.

Lemma warm_cache_wf : cache_wf warm_cache.
Proof.
  unfold warm_cache.
  destruct (run_ops_spec warm_ops fresh_cache (fs_cache_init_wf _)) as (c & -> & Hwf & _).
  done.
Qed.

Lemma write_back_correct_witness :
  (exists v c' e,
     fs_cache_evict warm_cache = Some (v, c') /\ cache warm_cache !! v = Some e /\
     cache_entry_t.free e = false /\ cache_entry_t.dirty e = true /\
     fs_device c' (cache_entry_t.sector e) = cache_entry_t.data e) /\
  (cache_wf fresh_cache /\
   last_write 5 [CacheWrite 5 [1]; CacheRead 9; CacheWrite 5 [2]] = Some [2] /\
   exists c1 c2,
     run_ops [CacheWrite 5 [1]; CacheRead 9; CacheWrite 5 [2]] fresh_cache = Some c1 /\
     fs_cache_destroy c1 = Some c2 /\ fs_device c2 5 = [2]).
Proof.
  split.
  - assert (exists c', fs_cache_evict warm_cache = Some (63%nat, c')) as [c' E]
      by (eexists; vm_compute; reflexivity).
    assert (exists e, cache warm_cache !! 63%nat = Some e /\
              cache_entry_t.free e = false /\ cache_entry_t.dirty e = true)
      as (e & Hl & Hf & Hd)
      by (eexists; vm_compute; split; [|split]; reflexivity).
    exists 63%nat, c', e.
    split; [exact E|]. split; [exact Hl|]. split; [exact Hf|]. split; [exact Hd|].
    exact (proj1 (proj1 write_back_correct warm_cache 63%nat c' e E Hl Hf Hd)).
  - split; [apply fs_cache_init_wf|]. split; [reflexivity|].
    apply (proj2 write_back_correct fresh_cache
             [CacheWrite 5 [1]; CacheRead 9; CacheWrite 5 [2]] 5 [2]);
      [apply fs_cache_init_wf | reflexivity].
Defined.



(** ** Integers *)

Lemma to_int_small z : -2147483648 <= z <= INT_MAX -> to_int z = z.
Proof.
  unfold to_int, INT_MAX, UINT_MOD. intros H.
  rewrite Z.mod_small by lia. lia.
Qed.

Lemma to_uint_small z : 0 <= z < UINT_MOD -> to_uint z = z.
Proof. unfold to_uint. intros H. by rewrite Z.mod_small. Qed.

(** On values that do not wrap, [DIV_ROUND_UP] is the ceiling of the
    quotient. *)
Lemma DIV_ROUND_UP_ceiling wrap x step :
  0 <= x -> 0 < step -> wrap (x + step - 1) = x + step - 1 ->
  DIV_ROUND_UP wrap x step = (x + step - 1) / step /\
  step * (DIV_ROUND_UP wrap x step - 1) < x <= step * DIV_ROUND_UP wrap x step.
Proof.
  intros Hx Hs Hw. unfold DIV_ROUND_UP. rewrite Hw, Z.quot_div_nonneg by lia.
  split; [done|].
  pose proof (Z.div_mod (x + step - 1) step ltac:(lia)).
  pose proof (Z.mod_pos_bound (x + step - 1) step Hs). nia.
Qed.

Section InodeFacts.
Context `{FM : FreeMap}.

(** ** Running the monad *)

Lemma bind_Ok {A B} (m : M A) (f : A -> M B) st a st' :
  m st = Ok (a, st') -> (x ← m; f x) st = f a st'.
Proof. intros H. unfold mbind, M_bind, bind. by rewrite H. Qed.

Lemma bind_Panic {A B} (m : M A) (f : A -> M B) st msg :
  m st = Panic msg -> (x ← m; f x) st = Panic msg.
Proof. intros H. unfold mbind, M_bind, bind. by rewrite H. Qed.

Lemma deref_Ok p st ino :
  lookup_inode p (open_inodes st) = Some ino -> deref p st = Ok (ino, st).
Proof. intros H. unfold deref. rewrite (bind_Ok get _ st st st) by done. by rewrite H. Qed.

(** ** [byte_to_sector] and the guards of [inode_write_at] *)

Lemma byte_to_sector_inside (ino : inode.t) (pos : Z) (st : fs_state) :
  0 <= pos < inode_disk.length (inode.data ino) ->
  byte_to_sector ino pos st
    = index_to_sector (inode.data ino) (pos / BLOCK_SECTOR_SIZE) st.
Proof.
  intros [H0 H1]. unfold byte_to_sector.
  destruct (Z.leb_spec 0 pos); [|lia].
  destruct (Z.ltb_spec pos (inode_disk.length (inode.data ino))); [|lia].
  cbn. by rewrite Z.quot_div_nonneg.
Qed.

Lemma byte_to_sector_outside (ino : inode.t) (pos : Z) (st : fs_state) :
  ~ (0 <= pos < inode_disk.length (inode.data ino)) ->
  byte_to_sector ino pos st = Ok (NO_SECTOR, st).
Proof.
  intros H. unfold byte_to_sector.
  destruct (Z.leb_spec 0 pos); destruct (Z.ltb_spec pos (inode_disk.length (inode.data ino)));
    cbn; try done. lia.
Qed.

(** C6. [byte_to_sector] is [index_to_sector] at block [pos / 512] when
    [0 <= pos < length], and the "no sector" value [-1] (as a
    [block_sector_t]), with nothing touched, for every other [pos]. *)
Theorem byte_to_sector_spec (ino : inode.t) (pos : Z) (st : fs_state) :
  (0 <= pos < inode_disk.length (inode.data ino) ->
   byte_to_sector ino pos st
     = index_to_sector (inode.data ino) (pos / BLOCK_SECTOR_SIZE) st) /\
  (~ (0 <= pos < inode_disk.length (inode.data ino)) ->
   byte_to_sector ino pos st = Ok (NO_SECTOR, st)) /\
  NO_SECTOR = to_uint (-1).
Proof.
  split; [apply byte_to_sector_inside|]. split; [apply byte_to_sector_outside|done].
Qed.

(** C5. With writes allowed and [size > 0], a write whose last byte
    [offset + size - 1] maps to "no sector" ends in the [PANIC] of
    [inode_write_at]: no byte is written and nothing is returned.  This is
    the case whenever that byte lies at or past the inode's length. *)
Theorem inode_write_at_past_end (p : nat) (ino : inode.t) (buffer : list Z)
    (size offset : Z) (st : fs_state) :
  lookup_inode p (open_inodes st) = Some ino ->
  inode.deny_write_cnt ino = 0 -> size > 0 ->
  ((exists st', byte_to_sector ino (to_int (offset + size - 1)) st = Ok (NO_SECTOR, st')) ->
   inode_write_at p buffer size offset st = Panic "extendable fs not implement") /\
  (inode_length ino <= offset + size - 1 <= INT_MAX ->
   inode_write_at p buffer size offset st = Panic "extendable fs not implement").
Proof.
  intros Hp Hdeny Hsize.
  assert ((exists st', byte_to_sector ino (to_int (offset + size - 1)) st = Ok (NO_SECTOR, st')) ->
          inode_write_at p buffer size offset st = Panic "extendable fs not implement") as Hmain.
  { intros [st' Hb]. unfold inode_write_at.
    rewrite (bind_Ok _ _ _ _ _ (deref_Ok _ _ _ Hp)).
    rewrite Hdeny. cbn [Z.eqb negb].
    rewrite (bind_Ok _ _ _ _ _ Hb). by rewrite Z.eqb_refl. }
  split; [done|]. intros Hend. apply Hmain. exists st.
  apply byte_to_sector_outside. unfold inode_length in Hend.
  destruct (Z.le_gt_cases (inode_disk.length (inode.data ino)) 0).
  - lia.
  - rewrite to_int_small by (unfold INT_MAX in *; lia). lia.
Qed.

(** C10. While [deny_write_cnt] is positive (indeed, whenever it is not
    zero) [inode_write_at] returns 0 at once and leaves the whole state -
    cache, device and all - as it was; so a call that transfers a byte
    or changes anything ran with [deny_write_cnt] at zero. *)
Theorem inode_write_at_denied (p : nat) (ino : inode.t) (buffer : list Z)
    (size offset : Z) (st : fs_state) :
  lookup_inode p (open_inodes st) = Some ino ->
  (0 < inode.deny_write_cnt ino ->
   inode_write_at p buffer size offset st = Ok (0, st)) /\
  (forall n st',
     inode_write_at p buffer size offset st = Ok (n, st') ->
     n <> 0 \/ st' <> st -> inode.deny_write_cnt ino = 0).
Proof.
  intros Hp.
  assert (inode.deny_write_cnt ino <> 0 ->
          inode_write_at p buffer size offset st = Ok (0, st)) as Hmain.
  { intros Hd. unfold inode_write_at.
    rewrite (bind_Ok _ _ _ _ _ (deref_Ok _ _ _ Hp)).
    destruct (Z.eqb_spec (inode.deny_write_cnt ino) 0); [done|]. done. }
  split.
  - intros Hd. apply Hmain. lia.
  - intros n st' Hw Hchg.
    destruct (Z.eq_dec (inode.deny_write_cnt ino) 0) as [|Hne]; [done|].
    rewrite (Hmain Hne) in Hw. injection Hw as <- <-. by destruct Hchg.
Qed.
End InodeFacts.

Lemma byte_to_sector_spec_witness :
  (0 <= 100 < inode_disk.length (inode.data sample_inode) /\
   byte_to_sector sample_inode 100 sample_state
     = index_to_sector (inode.data sample_inode) (100 / BLOCK_SECTOR_SIZE) sample_state /\
   byte_to_sector sample_inode 100 sample_state = Ok (2, sample_state)) /\
  (~ (0 <= 512 < inode_disk.length (inode.data sample_inode)) /\
   byte_to_sector sample_inode 512 sample_state = Ok (NO_SECTOR, sample_state)).
Proof.
  split.
  - assert (0 <= 100 < inode_disk.length (inode.data sample_inode)) as H by (unfold INT_MAX; cbn; lia).
    split; [exact H|].
    pose proof (proj1 (byte_to_sector_spec sample_inode 100 sample_state) H) as E.
    split; [exact E|]. rewrite E. reflexivity.
  - assert (~ (0 <= 512 < inode_disk.length (inode.data sample_inode))) as H by (unfold INT_MAX; cbn; lia).
    split; [exact H|].
    exact (proj1 (proj2 (byte_to_sector_spec sample_inode 512 sample_state)) H).
Defined.

Lemma inode_write_at_past_end_witness :
  lookup_inode 0 (open_inodes sample_open_state) = Some sample_inode /\
  inode.deny_write_cnt sample_inode = 0 /\ 1 > 0 /\
  inode_length sample_inode <= 512 + 1 - 1 <= INT_MAX /\
  inode_write_at 0 [7] 1 512 sample_open_state = Panic "extendable fs not implement".
Proof.
  assert (inode_length sample_inode <= 512 + 1 - 1 <= INT_MAX) as H by (unfold INT_MAX; cbn; lia).
  split; [reflexivity|]. split; [reflexivity|]. split; [reflexivity|]. split; [exact H|].
  exact (proj2 (inode_write_at_past_end 0 sample_inode [7] 1 512 sample_open_state
                  eq_refl eq_refl eq_refl) H).
Defined.

Lemma inode_write_at_denied_witness :
  lookup_inode 0 (open_inodes sample_denied_state)
    = Some (inode.set_deny_write_cnt 1 sample_inode) /\
  0 < inode.deny_write_cnt (inode.set_deny_write_cnt 1 sample_inode) /\
  inode_write_at 0 [7] 1 0 sample_denied_state = Ok (0, sample_denied_state).
Proof.
  split; [reflexivity|]. split; [reflexivity|].
  exact (proj1 (inode_write_at_denied 0 (inode.set_deny_write_cnt 1 sample_inode) [7] 1 0
                  sample_denied_state eq_refl) eq_refl).
Defined.

(** ** Lists of registry entries *)

Lemma NoDup_fmap_eq {A B} (f : A -> B) (l : list A) x y :
  NoDup (f <$> l) -> x ∈ l -> y ∈ l -> f x = f y -> x = y.
Proof.
  induction l as [|a l IH]; cbn; intros Hnd Hx Hy Hf.
  - by apply elem_of_nil in Hx.
  - apply list.NoDup_cons in Hnd as [Hna Hnd].
    apply elem_of_cons in Hx as [->|Hx]; apply elem_of_cons in Hy as [->|Hy]; auto.
    + exfalso. apply Hna. rewrite Hf. apply list_elem_of_fmap. eauto.
    + exfalso. apply Hna. rewrite <- Hf. apply list_elem_of_fmap. eauto.
Qed.

Lemma NoDup_fmap_filter {A B} (f : A -> B) (P : A -> bool) (l : list A) :
  NoDup (f <$> l) -> NoDup (f <$> List.filter P l).
Proof.
  induction l as [|a l IH]; cbn; [done|].
  intros Hnd. apply list.NoDup_cons in Hnd as [Hna Hnd].
  destruct (P a); cbn; [|auto]. apply list.NoDup_cons. split; [|auto].
  intros Hin. apply Hna. apply list_elem_of_fmap in Hin as (y & -> & Hy).
  apply list_elem_of_fmap. exists y. split; [done|].
  apply list_elem_of_In. apply list_elem_of_In in Hy. by apply List.filter_In in Hy as [? _].
Qed.

Lemma elem_of_filter_bool {A} (P : A -> bool) (l : list A) x :
  x ∈ List.filter P l <-> x ∈ l /\ P x = true.
Proof. rewrite !list_elem_of_In. apply List.filter_In. Qed.

Lemma fst_update_at p f (l : list (nat * inode.t)) : fst <$> (update_at p f <$> l) = fst <$> l.
Proof.
  rewrite <- list_fmap_compose. apply list_fmap_ext. intros _ e _. cbn.
  unfold update_at. by destruct (fst e =? p)%nat.
Qed.

Lemma sector_update_at p f (l : list (nat * inode.t)) :
  (forall i, inode.sector (f i) = inode.sector i) ->
  (fun e => inode.sector (snd e)) <$> (update_at p f <$> l)
    = (fun e => inode.sector (snd e)) <$> l.
Proof.
  intros Hf. rewrite <- list_fmap_compose. apply list_fmap_ext. intros _ e _. cbn.
  unfold update_at. destruct (fst e =? p)%nat; cbn; [apply Hf|done].
Qed.

Lemma elem_of_update_at p f (l : list (nat * inode.t)) q i :
  (q, i) ∈ update_at p f <$> l <->
  exists i0, (q, i0) ∈ l /\ i = if Nat.eqb q p then f i0 else i0.
Proof.
  rewrite list_elem_of_fmap. split.
  - intros ([q0 i0] & Heq & Hin). unfold update_at in Heq. cbn in Heq.
    destruct (Nat.eqb_spec q0 p) as [->|Hne]; injection Heq as -> ->.
    + exists i0. by rewrite Nat.eqb_refl.
    + exists i0. split; [done|]. by destruct (Nat.eqb_spec q0 p).
  - intros (i0 & Hin & ->). exists (q, i0). split; [|done].
    unfold update_at. cbn. by destruct (q =? p)%nat.
Qed.

Lemma filter_update_at p f (l : list (nat * inode.t)) :
  List.filter (fun e => negb (Nat.eqb (fst e) p)) (update_at p f <$> l)
    = List.filter (fun e => negb (Nat.eqb (fst e) p)) l.
Proof.
  induction l as [|e l IH]; cbn; [done|].
  assert (fst (update_at p f e) = fst e) as Hfst
    by (unfold update_at; by destruct (fst e =? p)%nat).
  rewrite Hfst. destruct (Nat.eqb_spec (fst e) p) as [Heq|Hne]; cbn; [apply IH|].
  f_equal; [|apply IH]. unfold update_at. by destruct (Nat.eqb_spec (fst e) p).
Qed.

Lemma lookup_inode_Some (l : list (nat * inode.t)) p ino :
  lookup_inode p l = Some ino -> (p, ino) ∈ l.
Proof.
  unfold lookup_inode. destruct (List.find _ l) as [[q i]|] eqn:E; [|done].
  cbn. intros [= <-]. apply List.find_some in E as [Hin Hq]. cbn in Hq.
  apply Nat.eqb_eq in Hq as ->. by apply list_elem_of_In.
Qed.

Lemma lookup_inode_elem (l : list (nat * inode.t)) p ino :
  NoDup (fst <$> l) -> (p, ino) ∈ l -> lookup_inode p l = Some ino.
Proof.
  intros Hnd Hin. unfold lookup_inode.
  destruct (List.find (fun e => (fst e =? p)%nat) l) as [[q i]|] eqn:E.
  - apply List.find_some in E as [Hin' Hq]. cbn in Hq. apply Nat.eqb_eq in Hq as ->.
    apply list_elem_of_In in Hin'. cbn. f_equal.
    by injection (NoDup_fmap_eq fst l (p, i) (p, ino) Hnd Hin' Hin eq_refl).
  - apply list_elem_of_In in Hin. apply (List.find_none _ _ E) in Hin.
    cbn in Hin. by rewrite Nat.eqb_refl in Hin.
Qed.

Lemma unmatched_le s evs : unmatched s evs <= Z.of_nat (List.length evs).
Proof.
  induction evs as [|ev evs IH]; cbn [unmatched List.length]; [done|].
  destruct ev as [s' p|s'|s' p]; try destruct (s' =? s); lia.
Qed.

Section RegistryFacts.
Context `{FM : FreeMap}.

(** ** The cache under the inode layer *)

Lemma cache_read_Ok s st :
  cache_wf (fs_cache st) ->
  exists c',
    cache_read s st = Ok (sector_content (fs_cache st) s, set_fs_cache c' st) /\
    cache_wf c' /\
    (forall s', sector_content c' s' = sector_content (fs_cache st) s').
Proof.
  intros Hwf. destruct (fs_cache_read_spec s _ Hwf) as (c' & Hr & Hwf' & Hc).
  exists c'. unfold cache_read. by rewrite Hr.
Qed.

Lemma cache_write_Ok s buf st :
  cache_wf (fs_cache st) ->
  exists c',
    cache_write s buf st = Ok (tt, log (EvCacheWrite s buf) (set_fs_cache c' st)) /\
    cache_wf c' /\
    (forall s', sector_content c' s' =
                if Z.eqb s' s then buf else sector_content (fs_cache st) s').
Proof.
  intros Hwf. destruct (fs_cache_write_spec s buf _ Hwf) as (c' & Hw & Hwf' & Hc & _).
  exists c'. unfold cache_write. by rewrite Hw.
Qed.

(** ** Opening and closing *)

Lemma inode_reopen_Ok p ino st :
  lookup_inode p (open_inodes st) = Some ino ->
  inode_reopen (Some p) st
    = Ok (Some p,
          set_open_inodes
            (update_at p (inode.set_open_cnt (to_int (inode.open_cnt ino + 1)))
               <$> open_inodes st) st).
Proof.
  intros Hp. unfold inode_reopen.
  rewrite (bind_Ok _ _ _ _ _ (deref_Ok _ _ _ Hp)). done.
Qed.

(** Opening a sector that has a record returns that record's handle and
    adds one to its count; no record is added. *)
Lemma inode_open_existing s p ino st :
  NoDup (fst <$> open_inodes st) ->
  NoDup ((fun e => inode.sector (snd e)) <$> open_inodes st) ->
  (p, ino) ∈ open_inodes st -> inode.sector ino = s ->
  inode_open s st
    = Ok (Some p,
          set_open_inodes
            (update_at p (inode.set_open_cnt (to_int (inode.open_cnt ino + 1)))
               <$> open_inodes st) st).
Proof.
  intros Hh Hs Hin Hsec. unfold inode_open.
  rewrite (bind_Ok get _ st st st) by done.
  destruct (List.find _ (open_inodes st)) as [e|] eqn:E.
  - apply List.find_some in E as [Hin' He]. apply list_elem_of_In in Hin'.
    apply Z.eqb_eq in He.
    assert (e = (p, ino)) as ->.
    { apply (NoDup_fmap_eq _ _ _ _ Hs Hin' Hin). cbn. congruence. }
    apply inode_reopen_Ok. by apply lookup_inode_elem.
  - apply list_elem_of_In in Hin. apply (List.find_none _ _ E) in Hin.
    cbn in Hin. apply Z.eqb_neq in Hin. done.
Qed.

(** Opening a sector that has no record: a failed [malloc] gives the null
    pointer and leaves the registry alone; otherwise a record with count
    1 enters the registry under a handle of its own. *)
Lemma inode_open_new s st :
  cache_wf (fs_cache st) ->
  (forall p ino, (p, ino) ∈ open_inodes st -> inode.sector ino <> s) ->
  (heap_ok st (heap_next st) = false /\
   inode_open s st = Ok (None, set_heap_next (S (heap_next st)) st)) \/
  (heap_ok st (heap_next st) = true /\
   exists c',
     cache_wf c' /\
     inode_open s st
       = Ok (Some (heap_next st),
             set_open_inodes
               ((heap_next st,
                 inode.mk s 1 false 0
                   (inode_disk.of_bytes (sector_content (fs_cache st) s)))
                  :: open_inodes st)
               (set_fs_cache c' (set_heap_next (S (heap_next st)) st))) /\
     (forall s', sector_content c' s' = sector_content (fs_cache st) s')).
Proof.
  intros Hwf Hnone. unfold inode_open.
  rewrite (bind_Ok get _ st st st) by done.
  destruct (List.find _ (open_inodes st)) as [[q i]|] eqn:E.
  { apply List.find_some in E as [Hin He]. apply list_elem_of_In in Hin.
    apply Z.eqb_eq in He. cbn in He. by destruct (Hnone q i Hin). }
  rewrite (bind_Ok _ _ st (heap_next st) st) by done.
  rewrite (bind_Ok malloc _ st (heap_ok st (heap_next st))
             (set_heap_next (S (heap_next st)) st)) by done.
  destruct (heap_ok st (heap_next st)) eqn:Hok; cbn [negb]; [right|left; done].
  split; [done|].
  destruct (cache_read_Ok s (set_heap_next (S (heap_next st)) st) Hwf)
    as (c' & Hr & Hwf' & Hc).
  exists c'. split; [done|]. split; [|done].
  rewrite (bind_Ok _ _ _ _ _ Hr). done.
Qed.

(** Closing a live handle whose inode was not removed. *)
Lemma inode_close_Ok p ino st :
  lookup_inode p (open_inodes st) = Some ino -> inode.removed ino = false ->
  inode_close (Some p) st
    = Ok (tt,
          if to_int (inode.open_cnt ino - 1) =? 0
          then set_open_inodes
                 (List.filter (fun e => negb (Nat.eqb (fst e) p)) (open_inodes st)) st
          else set_open_inodes
                 (update_at p (inode.set_open_cnt (to_int (inode.open_cnt ino - 1)))
                    <$> open_inodes st) st).
Proof.
  intros Hp Hr. unfold inode_close.
  rewrite (bind_Ok _ _ _ _ _ (deref_Ok _ _ _ Hp)).
  unfold update_inode at 1, modify at 1. unfold mbind at 1, M_bind at 1, bind at 1.
  destruct (to_int (inode.open_cnt ino - 1) =? 0); [|done].
  unfold modify at 1. unfold mbind at 1, M_bind at 1, bind at 1.
  rewrite Hr. cbn. by rewrite filter_update_at.
Qed.

(** ** The registry invariant *)

Lemma registry_adjust cnt st p ino d :
  registry_ok cnt st -> (p, ino) ∈ open_inodes st ->
  0 < inode.open_cnt ino + d <= INT_MAX ->
  registry_ok (fun s' => (if inode.sector ino =? s' then d else 0) + cnt s')
    (set_open_inodes
       (update_at p (inode.set_open_cnt (to_int (inode.open_cnt ino + d)))
          <$> open_inodes st) st).
Proof.
  intros [Hh Hs Hc Hz Hf Hw] Hin Hd.
  rewrite to_int_small by (unfold INT_MAX in *; lia).
  constructor; cbn [open_inodes set_open_inodes heap_next fs_cache].
  - by rewrite fst_update_at.
  - by rewrite sector_update_at.
  - intros q i Hq. apply elem_of_update_at in Hq as (i0 & Hq & ->).
    destruct (Nat.eqb_spec q p) as [->|Hne].
    + assert (i0 = ino) as ->.
      { by injection (NoDup_fmap_eq fst _ (p, i0) (p, ino) Hh Hq Hin eq_refl). }
      cbn. rewrite Z.eqb_refl. destruct (Hc p ino Hin) as (Hc1 & Hc2 & Hc3).
      split_and!; [lia|lia|done].
    + destruct (Z.eqb_spec (inode.sector ino) (inode.sector i0)) as [Heq|_].
      * exfalso. apply Hne.
        by injection (NoDup_fmap_eq _ _ (q, i0) (p, ino) Hs Hq Hin (eq_sym Heq)).
      * rewrite Z.add_0_l. by apply (Hc q).
  - intros s Hnone.
    assert (forall q i, (q, i) ∈ open_inodes st -> inode.sector i <> s) as Hnone'.
    { intros q i Hq Heq.
      apply (Hnone q (if Nat.eqb q p
                      then inode.set_open_cnt (inode.open_cnt ino + d) i else i)).
      - apply elem_of_update_at. eauto.
      - by destruct (q =? p)%nat. }
    rewrite (Hz s Hnone').
    destruct (Z.eqb_spec (inode.sector ino) s) as [Heq|]; [|done].
    by destruct (Hnone' p ino Hin).
  - intros q i Hq. apply elem_of_update_at in Hq as (i0 & Hq & _). by apply (Hf q i0).
  - done.
Qed.

Lemma registry_heap cnt st :
  registry_ok cnt st -> registry_ok cnt (set_heap_next (S (heap_next st)) st).
Proof.
  intros [Hh Hs Hc Hz Hf Hw]. constructor; try done.
  intros q i Hq. cbn. specialize (Hf q i Hq). lia.
Qed.

Lemma registry_push cnt st s c' d :
  registry_ok cnt st -> cache_wf c' ->
  (forall p ino, (p, ino) ∈ open_inodes st -> inode.sector ino <> s) ->
  registry_ok (fun s' => (if s =? s' then 1 else 0) + cnt s')
    (set_open_inodes ((heap_next st, inode.mk s 1 false 0 d) :: open_inodes st)
       (set_fs_cache c' (set_heap_next (S (heap_next st)) st))).
Proof.
  intros [Hh Hs Hc Hz Hf Hw] Hwf' Hnone.
  constructor; cbn [open_inodes set_open_inodes heap_next fs_cache set_fs_cache
                    set_heap_next fmap list_fmap fst snd inode.sector].
  - apply list.NoDup_cons. split; [|done]. intros Hin.
    apply list_elem_of_fmap in Hin as ([q i] & Heq & Hq). cbn in Heq. subst q.
    specialize (Hf _ _ Hq). lia.
  - apply list.NoDup_cons. split; [|done]. intros Hin.
    apply list_elem_of_fmap in Hin as ([q i] & Heq & Hq). cbn in Heq.
    by destruct (Hnone q i Hq).
  - intros q i Hq. apply elem_of_cons in Hq as [[= -> ->]|Hq].
    + cbn. rewrite Z.eqb_refl, (Hz s Hnone). done.
    + destruct (Z.eqb_spec s (inode.sector i)) as [Heq|_].
      * by destruct (Hnone q i Hq).
      * rewrite Z.add_0_l. by apply (Hc q).
  - intros s' Hnone'.
    destruct (Z.eqb_spec s s') as [<-|_].
    + destruct (Hnone' (heap_next st) (inode.mk s 1 false 0 d)); [|done].
      apply elem_of_cons. by left.
    + rewrite Z.add_0_l. apply Hz. intros q i Hq. apply (Hnone' q).
      apply elem_of_cons. by right.
  - intros q i Hq. apply elem_of_cons in Hq as [[= -> ->]|Hq]; [lia|].
    specialize (Hf q i Hq). lia.
  - done.
Qed.

Lemma registry_drop cnt st p ino :
  registry_ok cnt st -> (p, ino) ∈ open_inodes st -> inode.open_cnt ino = 1 ->
  registry_ok (fun s' => (if inode.sector ino =? s' then -1 else 0) + cnt s')
    (set_open_inodes
       (List.filter (fun e => negb (Nat.eqb (fst e) p)) (open_inodes st)) st).
Proof.
  intros [Hh Hs Hc Hz Hf Hw] Hin Hone.
  assert (forall q i, (q, i) ∈ open_inodes st -> q <> p -> inode.sector i <> inode.sector ino)
    as Hother.
  { intros q i Hq Hne Heq. apply Hne.
    by injection (NoDup_fmap_eq _ _ (q, i) (p, ino) Hs Hq Hin Heq). }
  constructor; cbn [open_inodes set_open_inodes heap_next fs_cache].
  - by apply NoDup_fmap_filter.
  - by apply NoDup_fmap_filter.
  - intros q i Hq. apply elem_of_filter_bool in Hq as [Hq Hne]. cbn in Hne.
    apply negb_true_iff, Nat.eqb_neq in Hne.
    destruct (Z.eqb_spec (inode.sector ino) (inode.sector i)) as [Heq|_].
    + by destruct (Hother q i Hq Hne).
    + rewrite Z.add_0_l. by apply (Hc q).
  - intros s Hnone.
    destruct (Z.eqb_spec (inode.sector ino) s) as [<-|Hne].
    + destruct (Hc p ino Hin) as (<- & _). lia.
    + rewrite Z.add_0_l. apply Hz. intros q i Hq.
      destruct (Nat.eqb_spec q p) as [->|Hqp].
      * assert (i = ino) as ->; [|done].
        by injection (NoDup_fmap_eq fst _ (p, i) (p, ino) Hh Hq Hin eq_refl).
      * apply (Hnone q). apply elem_of_filter_bool. split; [done|]. cbn.
        by apply negb_true_iff, Nat.eqb_neq.
  - intros q i Hq. apply elem_of_filter_bool in Hq as [Hq _]. by apply (Hf q i).
  - done.
Qed.

Lemma registry_find cnt st s :
  registry_ok cnt st ->
  (exists p ino, (p, ino) ∈ open_inodes st /\ inode.sector ino = s) \/
  (forall p ino, (p, ino) ∈ open_inodes st -> inode.sector ino <> s).
Proof.
  intros _.
  destruct (List.find (fun e => inode.sector (snd e) =? s) (open_inodes st))
    as [[p ino]|] eqn:E.
  - left. apply List.find_some in E as [Hin He]. apply list_elem_of_In in Hin.
    apply Z.eqb_eq in He. eauto.
  - right. intros p ino Hin. apply list_elem_of_In in Hin.
    apply (List.find_none _ _ E) in Hin. by apply Z.eqb_neq in Hin.
Qed.

Lemma history_registry_ok st0 evs st :
  open_inodes st0 = [] -> cache_wf (fs_cache st0) ->
  history st0 evs st -> Z.of_nat (List.length evs) < INT_MAX ->
  registry_ok (fun s => unmatched s evs) st.
Proof.
  intros Hempty Hwf0 Hhist. induction Hhist as
    [|evs st s p st' Hhist IH Hopen|evs st s st' Hhist IH Hopen
     |evs st p ino st' Hhist IH Hp Hclose]; intros Hlen.
  - constructor; rewrite ?Hempty; cbn; try done; try apply NoDup_nil_2;
      intros ? ? Hin; by apply elem_of_nil in Hin.
  - cbn [List.length] in Hlen. specialize (IH ltac:(lia)).
    cbn [unmatched].
    destruct (registry_find _ st s IH) as [(p0 & ino & Hin & Hs)|Hnone].
    + rewrite (inode_open_existing s p0 ino st (reg_handles _ _ IH) (reg_sectors _ _ IH)
                 Hin Hs) in Hopen.
      injection Hopen as <- <-. subst s.
      apply (registry_adjust _ st p0 ino 1 IH Hin).
      destruct (reg_counts _ _ IH p0 ino Hin) as (Hc & Hpos & _).
      pose proof (unmatched_le (inode.sector ino) evs). lia.
    + destruct (inode_open_new s st (reg_cache _ _ IH) Hnone)
        as [[_ Hfail]|(_ & c' & Hwf' & Hok & _)].
      * rewrite Hfail in Hopen. discriminate.
      * rewrite Hok in Hopen. injection Hopen as <- <-.
        by apply registry_push.
  - cbn [List.length] in Hlen. specialize (IH ltac:(lia)).
    cbn [unmatched].
    assert (registry_ok (fun s0 => unmatched s0 evs) st') as Hok;
      [|destruct Hok; constructor; try done; intros; rewrite Z.add_0_l; eauto].
    destruct (registry_find _ st s IH) as [(p0 & ino & Hin & Hs)|Hnone].
    + rewrite (inode_open_existing s p0 ino st (reg_handles _ _ IH) (reg_sectors _ _ IH)
                 Hin Hs) in Hopen. discriminate.
    + destruct (inode_open_new s st (reg_cache _ _ IH) Hnone)
        as [[_ Hfail]|(_ & c' & Hwf' & Hok & _)].
      * rewrite Hfail in Hopen. injection Hopen as <-. by apply registry_heap.
      * rewrite Hok in Hopen. discriminate.
  - cbn [List.length] in Hlen. specialize (IH ltac:(lia)).
    cbn [unmatched].
    pose proof (lookup_inode_Some _ _ _ Hp) as Hin.
    destruct (reg_counts _ _ IH p ino Hin) as (Hc & Hpos & Hrem).
    pose proof (unmatched_le (inode.sector ino) evs) as Hle.
    rewrite (inode_close_Ok p ino st Hp Hrem) in Hclose.
    rewrite to_int_small in Hclose by (unfold INT_MAX in *; lia).
    destruct (Z.eqb_spec (inode.open_cnt ino - 1) 0) as [Hz|Hnz];
      injection Hclose as <-.
    + apply (registry_drop _ st p ino IH Hin). lia.
    + rewrite <- (to_int_small (inode.open_cnt ino - 1)) by (unfold INT_MAX in *; lia).
      replace (inode.open_cnt ino - 1) with (inode.open_cnt ino + -1) by lia.
      apply (registry_adjust _ st p ino (-1) IH Hin). unfold INT_MAX in *. lia.
Qed.

(** C9. Along any history of opens and closes that starts with an empty
    registry, the registry holds at most one record per sector, each
    under its own handle, and each record's [open_cnt] is the number of
    opens of its sector not yet matched by a close (a sector with no
    record has none outstanding); opening a sector that has a record
    returns that record's handle with [open_cnt] one higher and adds no
    record; and a close of a live handle always returns. *)
Theorem open_inodes_identity_map (st0 : fs_state) (evs : list reg_event)
    (st : fs_state) :
  open_inodes st0 = [] -> cache_wf (fs_cache st0) ->
  history st0 evs st -> Z.of_nat (List.length evs) + 1 < INT_MAX ->
  registry_ok (fun s => unmatched s evs) st /\
  (forall p ino,
     (p, ino) ∈ open_inodes st ->
     exists st',
       inode_open (inode.sector ino) st = Ok (Some p, st') /\
       lookup_inode p (open_inodes st')
         = Some (inode.set_open_cnt (inode.open_cnt ino + 1) ino) /\
       List.length (open_inodes st') = List.length (open_inodes st) /\
       history st0 (Opened (inode.sector ino) p :: evs) st') /\
  (forall p ino,
     (p, ino) ∈ open_inodes st ->
     exists st', inode_close (Some p) st = Ok (tt, st') /\
       history st0 (Closed (inode.sector ino) p :: evs) st').
Proof.
  intros Hempty Hwf0 Hhist Hlen.
  assert (registry_ok (fun s => unmatched s evs) st) as Hok
    by (apply (history_registry_ok st0); [done..|lia]).
  split; [done|]. split.
  - intros p ino Hin.
    pose proof (inode_open_existing _ p ino st (reg_handles _ _ Hok) (reg_sectors _ _ Hok)
                  Hin eq_refl) as Hopen.
    eexists. split; [exact Hopen|].
    assert (history st0 (Opened (inode.sector ino) p :: evs)
              (set_open_inodes
                 (update_at p (inode.set_open_cnt (to_int (inode.open_cnt ino + 1)))
                    <$> open_inodes st) st)) as Hhist'
      by (by eapply history_open).
    split_and!; [| |done].
    + pose proof (history_registry_ok st0 _ _ Hempty Hwf0 Hhist') as Hok'.
      cbn [List.length] in Hok'. specialize (Hok' ltac:(lia)).
      apply lookup_inode_elem; [apply Hok'|].
      cbn. apply elem_of_update_at. exists ino. split; [done|].
      rewrite Nat.eqb_refl. f_equal.
      destruct (reg_counts _ _ Hok p ino Hin) as (Hc & Hpos & _).
      pose proof (unmatched_le (inode.sector ino) evs).
      symmetry. apply to_int_small. unfold INT_MAX in *. lia.
    + cbn. by rewrite length_fmap.
  - intros p ino Hin.
    destruct (reg_counts _ _ Hok p ino Hin) as (_ & _ & Hrem).
    pose proof (lookup_inode_elem _ p ino (reg_handles _ _ Hok) Hin) as Hp.
    pose proof (inode_close_Ok p ino st Hp Hrem) as Hclose.
    eexists. split; [exact Hclose|]. by eapply history_close.
Qed.
End RegistryFacts.

Lemma open_inodes_identity_map_witness :
  open_inodes sample_state = [] /\ cache_wf (fs_cache sample_state) /\
  Z.of_nat (List.length [Opened 1 0; Opened 1 0]) + 1 < INT_MAX /\
  history sample_state [Opened 1 0; Opened 1 0] opened_twice /\
  registry_ok (fun s => unmatched s [Opened 1 0; Opened 1 0]) opened_twice.
Proof.
  split; [reflexivity|]. split; [apply fs_cache_init_wf|]. split; [reflexivity|].
  assert (history sample_state [Opened 1 0; Opened 1 0] opened_twice) as Hh.
  { apply (history_open sample_state [Opened 1 0] opened_once 1 0%nat opened_twice).
    - apply (history_open sample_state [] sample_state 1 0%nat opened_once).
      + apply history_nil.
      + vm_compute; reflexivity.
    - vm_compute; reflexivity. }
  split; [exact Hh|].
  exact (proj1 (open_inodes_identity_map sample_state _ _ eq_refl (fs_cache_init_wf _)
                  Hh eq_refl)).
Defined.

Section AllocationFacts.
Context `{FM : FreeMap}.

(** ** What [inode_allocate] leaves of the record *)

(** C1. [inode_allocate] never assigns [double_indirect_block]: whatever
    the length and the state, when it returns, that field is what it was
    on entry - 0 in the record [inode_create] passes - so for a length
    of more than 252 sectors no double-indirect block is allocated and
    no child block hangs off it.  (The third tier of the source calls
    [inode_allocate_indirect (&disk_inode->indirect_block, l, 1)] a
    second time.) *)
Theorem inode_allocate_no_double_indirect (length : Z) (st : fs_state)
    (b : bool) (d' : inode_disk.t) (st' : fs_state) :
  252 < bytes_to_sectors length <= 16636 ->
  inode_allocate (fresh_disk_inode length) st = Ok ((b, d'), st') ->
  inode_disk.double_indirect_block d' = 0.
Proof.
  intros _. unfold inode_allocate, mbind, M_bind, bind, ret.
  repeat match goal with
         | |- context [if ?c then _ else _] => destruct c
         | |- context [match ?m ?s with _ => _ end] => destruct (m s) as [[? ?]| |]
         end;
    intros [= <- <- <-] || discriminate; reflexivity.
Qed.
End AllocationFacts.

Lemma inode_allocate_no_double_indirect_witness :
  252 < bytes_to_sectors 129536 <= 16636 /\
  inode_allocate (fresh_disk_inode 129536) sample_state
    = Ok ((true, allocated_253), after_allocate_253) /\
  inode_disk.double_indirect_block allocated_253 = 0 /\
  inode_disk.indirect_block allocated_253 = 126 /\
  allocated (trace after_allocate_253) = Z.of_nat <$> seq 2 254 /\
  take 2 (inode_indirect_block.of_bytes (sector_content (fs_cache after_allocate_253) 126))
    = [255; 128].
Proof.
  assert (252 < bytes_to_sectors 129536 <= 16636) as Hn by (vm_compute; split; congruence).
  assert (inode_allocate (fresh_disk_inode 129536) sample_state
            = Ok ((true, allocated_253), after_allocate_253)) as Ha
    by (vm_compute; reflexivity).
  split; [exact Hn|]. split; [exact Ha|].
  split; [exact (inode_allocate_no_double_indirect 129536 sample_state true
                   allocated_253 after_allocate_253 Hn Ha)|].
  split; [vm_compute; reflexivity|]. split; vm_compute; reflexivity.
Defined.

(** Where block 252 of that file is then looked up: [index_to_sector]
    follows [double_indirect_block] = 0 and lands on sector 0, not on sector
    255, the sector the allocation took last. *)
Example block_252_of_allocated_253 :
  value_of (index_to_sector allocated_253 252 after_allocate_253) 1 = 0 /\
  List.last (allocated (trace after_allocate_253)) 0 = 255.
Proof. split; vm_compute; reflexivity. Qed.

(** C2. A file of 253 sectors on the sample state: [inode_allocate]
    reports success after taking sectors 2 to 255 from the free map;
    [inode_deallocate] on the record it left then gives back a different
    collection - sector 127 is never released, and sector 0, which was
    never handed out, is released three times. *)
Theorem allocate_deallocate_253_sectors :
  inode_allocate (fresh_disk_inode 129536) sample_state
    = Ok ((true, allocated_253), after_allocate_253) /\
  inode_deallocate (inode.mk 1 1 true 0 allocated_253) after_allocate_253
    = Ok (true, after_deallocate_253) /\
  allocated (trace after_deallocate_253) = Z.of_nat <$> seq 2 254 /\
  released (trace after_deallocate_253)
    = (Z.of_nat <$> seq 2 124) ++ [255] ++ (Z.of_nat <$> seq 128 127) ++ [126; 0; 0; 0] /\
  (127 ∈ allocated (trace after_deallocate_253)) /\
  (127 ∉ released (trace after_deallocate_253)) /\
  (0 ∈ released (trace after_deallocate_253)) /\
  (0 ∉ allocated (trace after_deallocate_253)).
Proof.
  split; [vm_compute; reflexivity|]. split; [vm_compute; reflexivity|].
  assert (allocated (trace after_deallocate_253) = Z.of_nat <$> seq 2 254) as ->
    by (vm_compute; reflexivity).
  assert (released (trace after_deallocate_253)
          = (Z.of_nat <$> seq 2 124) ++ [255] ++ (Z.of_nat <$> seq 128 127) ++ [126; 0; 0; 0])
    as -> by (vm_compute; reflexivity).
  assert (forall (x : Z) l, (x ∈ l) <-> existsb (Z.eqb x) l = true) as Hdec.
  { intros x l. rewrite list_elem_of_In, List.existsb_exists. split.
    - intros H. exists x. by rewrite Z.eqb_refl.
    - intros (y & Hy & Heq). by apply Z.eqb_eq in Heq as ->. }
  split; [reflexivity|]. split; [reflexivity|].
  rewrite !Hdec. split; [vm_compute; reflexivity|]. split; [|split].
  - intros H. vm_compute in H. discriminate.
  - vm_compute; reflexivity.
  - intros H. vm_compute in H. discriminate.
Qed.

(** ** Zero-filling at allocation *)

Lemma zero_filled_app evs1 evs2 :
  zero_filled evs1 -> zero_filled evs2 -> zero_filled (evs1 ++ evs2).
Proof.
  revert evs1.
  assert (forall n evs1, (List.length evs1 <= n)%nat ->
            zero_filled evs1 -> zero_filled evs2 -> zero_filled (evs1 ++ evs2)) as H.
  { induction n as [|n IH]; intros [|e evs1] Hlen H1 H2; cbn in Hlen; try done; try lia.
    destruct e as [s|s|s buf]; cbn in *.
    - destruct evs1 as [|[s'|s'|s' buf'] rest]; try done.
      destruct H1 as (-> & -> & H1). split_and!; [done..|].
      apply IH; [cbn in Hlen; lia|done..].
    - apply IH; [lia|done..].
    - apply IH; [lia|done..]. }
  intros evs1. by apply (H (List.length evs1)).
Qed.

Section ZeroFill.
Context `{FM : FreeMap}.

Lemma extends_refl st : extends_zero_filled st st.
Proof. exists []. by rewrite app_nil_r. Qed.

Lemma extends_trans st1 st2 st3 :
  extends_zero_filled st1 st2 -> extends_zero_filled st2 st3 ->
  extends_zero_filled st1 st3.
Proof.
  intros (e1 & H1 & Hz1) (e2 & H2 & Hz2). exists (e1 ++ e2).
  split; [by rewrite H2, H1, app_assoc|by apply zero_filled_app].
Qed.

Lemma zero_fills_ret {A} (a : A) : zero_fills (mret a).
Proof. intros st a' st' [= <- <-]. apply extends_refl. Qed.

Lemma zero_fills_bind {A B} (m : M A) (f : A -> M B) :
  zero_fills m -> (forall a, zero_fills (f a)) -> zero_fills (x ← m; f x).
Proof.
  intros Hm Hf st b st'. unfold mbind, M_bind, bind.
  destruct (m st) as [[a st1]| |] eqn:E; [|done..].
  intros H. eapply extends_trans; [by eapply Hm|by eapply Hf].
Qed.

Lemma zero_fills_fault {A} : zero_fills (@fault _ A).
Proof. by intros st a st'. Qed.

Lemma zero_fills_of_option {A} (o : option A) : zero_fills (of_option o).
Proof. destruct o; [apply zero_fills_ret|apply zero_fills_fault]. Qed.

Lemma zero_fills_cache_read s : zero_fills (cache_read s).
Proof.
  intros st a st'. unfold cache_read.
  destruct (fs_cache_read s (fs_cache st)) as [[buf c]|]; [|done].
  intros [= <- <-]. exists []. by rewrite app_nil_r.
Qed.

Lemma zero_fills_cache_write s buf : zero_fills (cache_write s buf).
Proof.
  intros st a st'. unfold cache_write.
  destruct (fs_cache_write s buf (fs_cache st)) as [c|]; [|done].
  intros [= <- <-]. by exists [EvCacheWrite s buf].
Qed.

Lemma zero_fills_malloc : zero_fills malloc.
Proof. intros st a st' [= <- <-]. exists []. by rewrite app_nil_r. Qed.

(** The pair of calls at every allocation site: take a sector, write zeros
    to it. *)
Lemma zero_fills_allocate {A} (entry : Z) (k : Z -> M A) :
  (forall e, zero_fills (k e)) ->
  zero_fills ('(_, entry) ← free_map_allocate 1 entry;
              _ ← cache_write entry sector_zero; k entry).
Proof.
  intros Hk st a st'. unfold mbind, M_bind, bind, free_map_allocate.
  destruct (fm_allocate 1 (free_map st)) as [[s m]|].
  - unfold cache_write. cbn [fs_cache log set_free_map].
    destruct (fs_cache_write s sector_zero (fs_cache st)) as [c|]; [|done].
    intros H. apply Hk in H as (evs & Htr & Hz).
    exists ([EvAllocate s; EvCacheWrite s sector_zero] ++ evs).
    split; [|by cbn]. rewrite Htr. cbn. by rewrite <- !app_assoc.
  - intros H.
    apply (zero_fills_bind (cache_write entry sector_zero) (fun _ => k entry)
             (zero_fills_cache_write _ _) (fun _ => Hk entry) st a st' H).
Qed.

Lemma zero_fills_allocate_direct count i blocks :
  zero_fills (allocate_direct count i blocks).
Proof.
  revert i blocks. induction count as [|count IH]; intros i blocks; cbn [allocate_direct].
  - apply zero_fills_ret.
  - apply zero_fills_bind; [apply zero_fills_of_option|]. intros entry.
    apply zero_fills_allocate. intros e. apply IH.
Qed.

Lemma zero_fills_allocate_children rec n count i blocks nsectors :
  (forall e k, zero_fills (rec e k)) ->
  zero_fills (allocate_children rec n count i blocks nsectors).
Proof.
  intros Hrec. revert i blocks nsectors.
  induction count as [|count IH]; intros i blocks nsectors; cbn [allocate_children].
  - apply zero_fills_ret.
  - apply zero_fills_bind; [apply zero_fills_of_option|]. intros entry.
    apply zero_fills_bind; [apply Hrec|]. intros entry'. apply IH.
Qed.

Lemma zero_fills_allocate_indirect depth entry nsectors :
  zero_fills (inode_allocate_indirect depth entry nsectors).
Proof.
  revert entry nsectors. induction depth as [|depth IH]; intros entry nsectors;
    cbn [inode_allocate_indirect].
  - apply zero_fills_allocate. intros e. apply zero_fills_ret.
  - apply zero_fills_bind.
    { destruct (entry =? 0); [|apply zero_fills_ret].
      apply zero_fills_allocate. intros e. apply zero_fills_ret. }
    intros e. apply zero_fills_bind; [apply zero_fills_cache_read|]. intros buf.
    apply zero_fills_bind; [by apply zero_fills_allocate_children|]. intros blocks.
    apply zero_fills_bind; [apply zero_fills_cache_write|]. intros _.
    apply zero_fills_ret.
Qed.

Lemma zero_fills_inode_allocate disk : zero_fills (inode_allocate disk).
Proof.
  unfold inode_allocate.
  destruct (_ <? 0); [apply zero_fills_ret|].
  apply zero_fills_bind; [apply zero_fills_allocate_direct|]. intros blocks.
  destruct (_ =? 0); [apply zero_fills_ret|].
  apply zero_fills_bind; [apply zero_fills_allocate_indirect|]. intros e1.
  destruct (_ =? 0); [apply zero_fills_ret|].
  apply zero_fills_bind; [apply zero_fills_allocate_indirect|]. intros e2.
  destruct (_ =? 0); apply zero_fills_ret.
Qed.
End ZeroFill.

(** ** The on-disk layout round trip *)

Lemma le32_decode w rest :
  0 <= w < UINT_MOD -> words_of_bytes (le32 w ++ rest) = w :: words_of_bytes rest.
Proof.
  unfold UINT_MOD. intros Hw. unfold le32. cbn [app words_of_bytes]. f_equal.
  Z.div_mod_to_equations. lia.
Qed.

Lemma words_roundtrip ws :
  Forall (fun w => 0 <= w < UINT_MOD) ws -> words_of_bytes (bytes_of_words ws) = ws.
Proof.
  induction 1 as [|w ws Hw _ IH]; [done|].
  unfold bytes_of_words in *. cbn [flat_map]. by rewrite le32_decode, IH.
Qed.

Lemma to_int_to_uint z : -2147483648 <= z <= INT_MAX -> to_int (to_uint z) = z.
Proof.
  unfold to_int, to_uint, INT_MAX, UINT_MOD. intros H.
  Z.div_mod_to_equations. lia.
Qed.

Lemma inode_disk_roundtrip d :
  List.length (inode_disk.direct_blocks d) = Z.to_nat DIRECT_BLOCKS ->
  -2147483648 <= inode_disk.length d <= INT_MAX ->
  Forall (fun w => 0 <= w < UINT_MOD)
    (inode_disk.magic d :: inode_disk.indirect_block d
       :: inode_disk.double_indirect_block d :: inode_disk.direct_blocks d) ->
  inode_disk.of_bytes (inode_disk.to_bytes d) = d.
Proof.
  intros Hlen Hl Hr. destruct d as [len magic direct ind dbl]. cbn in Hlen, Hl, Hr.
  apply Forall_cons_1 in Hr as [Hm Hr]. apply Forall_cons_1 in Hr as [Hi Hr].
  apply Forall_cons_1 in Hr as [Hd Hr].
  unfold inode_disk.of_bytes, inode_disk.to_bytes. cbn [inode_disk.length inode_disk.magic
    inode_disk.direct_blocks inode_disk.indirect_block inode_disk.double_indirect_block].
  rewrite words_roundtrip.
  - change (Z.to_nat DIRECT_BLOCKS) with 124%nat in *.
    cbn [app nth drop]. rewrite to_int_to_uint by done.
    change 126%nat with (2 + 124)%nat. change 127%nat with (2 + 125)%nat.
    cbn [nth Nat.add]. rewrite !List.app_nth2 by lia.
    rewrite Hlen. rewrite drop_0, take_app_length' by done. reflexivity.
  - apply Forall_app. split; [|apply Forall_app; split].
    + apply Forall_cons_2; [unfold to_uint, UINT_MOD; apply Z.mod_pos_bound; lia|].
      apply Forall_cons_2; [done|apply Forall_nil_2].
    + done.
    + apply Forall_cons_2; [done|]. apply Forall_cons_2; [done|apply Forall_nil_2].
Qed.

(** ** A file of one sector *)

(** Unfold the binds of a monadic term applied to a state. *)
Ltac mrun := unfold mbind, M_bind, bind, mret, M_ret, ret; cbv beta iota.

Section OneSector.
Context `{FM : FreeMap}.

Lemma free_map_allocate_Ok entry st s m :
  fm_allocate 1 (free_map st) = Some (s, m) ->
  free_map_allocate 1 entry st = Ok ((true, s), log (EvAllocate s) (set_free_map m st)).
Proof. intros H. unfold free_map_allocate. by rewrite H. Qed.

Lemma malloc_Ok st :
  malloc st = Ok (heap_ok st (heap_next st), set_heap_next (S (heap_next st)) st).
Proof. done. Qed.

(** [inode_allocate] for 512 bytes takes one sector and zero-fills it. *)
Lemma inode_allocate_one_sector st d m :
  cache_wf (fs_cache st) -> fm_allocate 1 (free_map st) = Some (d, m) ->
  exists c,
    inode_allocate (fresh_disk_inode 512) st
      = Ok ((true, one_sector_inode d),
            log (EvCacheWrite d sector_zero)
              (set_fs_cache c (log (EvAllocate d) (set_free_map m st)))) /\
    cache_wf c /\
    (forall s', sector_content c s' =
                if Z.eqb s' d then sector_zero else sector_content (fs_cache st) s').
Proof.
  intros Hwf Halloc.
  destruct (cache_write_Ok d sector_zero (log (EvAllocate d) (set_free_map m st)) Hwf)
    as (c & Hw & Hwf' & Hc).
  exists c. split; [|done].
  unfold inode_allocate.
  change (inode_disk.length (fresh_disk_inode 512) <? 0) with false. cbv iota.
  change (bytes_to_sectors (inode_disk.length (fresh_disk_inode 512))) with 1.
  change (min 1 DIRECT_BLOCKS) with 1. change (Z.to_nat 1) with 1%nat.
  change (to_uint (1 - 1) =? 0) with true. cbv iota zeta.
  cbn [allocate_direct].
  change (inode_disk.direct_blocks (fresh_disk_inode 512) !! 0%nat) with (Some 0).
  cbn [of_option]. mrun.
  rewrite (free_map_allocate_Ok 0 st d m Halloc). mrun.
  rewrite Hw. reflexivity.
Qed.

(** [inode_create (s, 512)]: one data sector [d], zero-filled, and the
    record written to [s]. *)
Lemma inode_create_one_sector st s d m :
  cache_wf (fs_cache st) -> fm_allocate 1 (free_map st) = Some (d, m) -> d <> s ->
  heap_ok st (heap_next st) = true ->
  exists st1,
    inode_create s 512 st = Ok (true, st1) /\
    open_inodes st1 = open_inodes st /\ heap_next st1 = S (heap_next st) /\
    heap_ok st1 = heap_ok st /\ cache_wf (fs_cache st1) /\
    sector_content (fs_cache st1) s = inode_disk.to_bytes (one_sector_inode d) /\
    sector_content (fs_cache st1) d = sector_zero.
Proof.
  intros Hwf Halloc Hne Hok.
  destruct (inode_allocate_one_sector (set_heap_next (S (heap_next st)) st) d m Hwf Halloc)
    as (c & Ha & Hwfc & Hc).
  set (sta := log (EvCacheWrite d sector_zero) _) in Ha.
  destruct (cache_write_Ok s (inode_disk.to_bytes (one_sector_inode d)) sta Hwfc)
    as (c2 & Hw & Hwf2 & Hc2).
  eexists. split.
  { unfold inode_create. change (512 <? 0) with false. mrun.
    unfold malloc. rewrite Hok. mrun. rewrite Ha. mrun. rewrite Hw. reflexivity. }
  cbn [open_inodes heap_next heap_ok fs_cache log set_fs_cache]. split_and!; try done.
  - by rewrite Hc2, Z.eqb_refl.
  - rewrite Hc2. destruct (Z.eqb_spec d s); [done|].
    unfold sta. cbn [fs_cache log set_fs_cache]. by rewrite Hc, Z.eqb_refl.
Qed.

Lemma one_sector_inode_roundtrip d :
  0 <= d < UINT_MOD ->
  inode_disk.of_bytes (inode_disk.to_bytes (one_sector_inode d)) = one_sector_inode d.
Proof.
  intros Hd. apply inode_disk_roundtrip.
  - unfold one_sector_inode. cbn [inode_disk.direct_blocks inode_disk.set_direct_blocks].
    by rewrite length_insert.
  - unfold INT_MAX. cbn. lia.
  - unfold one_sector_inode, fresh_disk_inode, inode_disk.zeroed.
    cbn [inode_disk.direct_blocks inode_disk.set_direct_blocks inode_disk.magic
         inode_disk.indirect_block inode_disk.double_indirect_block].
    repeat (apply Forall_cons_2; [unfold UINT_MOD, INODE_MAGIC; lia|]).
    apply Forall_insert; [|done]. apply Forall_replicate. unfold UINT_MOD. lia.
Qed.

Lemma byte_to_sector_first d s st :
  byte_to_sector (inode.mk s 1 false 0 (one_sector_inode d)) 0 st = Ok (d, st).
Proof. reflexivity. Qed.

Lemma memcpy_first_byte b :
  memcpy_at sector_zero 0 [b] = b :: replicate 511%nat 0.
Proof. reflexivity. Qed.

(** The one pass [inode_write_at] makes for a byte at offset 0, and the one
    pass [inode_read_at] makes for the whole sector. *)
Lemma write_loop_first_byte s d b :
  write_loop (Z.to_nat 1) (inode.mk s 1 false 0 (one_sector_inode d)) [b] 1 0 0 false
  = (sector_idx ← byte_to_sector (inode.mk s 1 false 0 (one_sector_inode d)) 0;
     ok ← malloc;
     if negb ok then mret 0 else
     buf ← cache_read sector_idx;
     _ ← cache_write sector_idx (memcpy_at buf 0 [b]);
     mret 1).
Proof. reflexivity. Qed.

Lemma read_loop_whole_sector s d :
  read_loop (Z.to_nat 512) (inode.mk s 1 false 0 (one_sector_inode d)) [] 512 0 0 false
  = (sector_idx ← byte_to_sector (inode.mk s 1 false 0 (one_sector_inode d)) 0;
     buf ← cache_read sector_idx;
     mret (512, [] ++ buf)).
Proof. reflexivity. Qed.

Lemma inode_write_first_byte st p s d b :
  cache_wf (fs_cache st) ->
  lookup_inode p (open_inodes st) = Some (inode.mk s 1 false 0 (one_sector_inode d)) ->
  d <> NO_SECTOR -> heap_ok st (heap_next st) = true ->
  sector_content (fs_cache st) d = sector_zero ->
  exists st3,
    inode_write_at p [b] 1 0 st = Ok (1, st3) /\
    open_inodes st3 = open_inodes st /\ cache_wf (fs_cache st3) /\
    sector_content (fs_cache st3) d = b :: replicate 511%nat 0.
Proof.
  intros Hwf Hp Hd Hok Hzero.
  destruct (cache_read_Ok d (set_heap_next (S (heap_next st)) st) Hwf)
    as (c1 & Hr & Hwf1 & Hc1).
  cbn [fs_cache set_heap_next] in Hr. rewrite Hzero in Hr.
  destruct (cache_write_Ok d (memcpy_at sector_zero 0 [b])
              (set_fs_cache c1 (set_heap_next (S (heap_next st)) st)) Hwf1)
    as (c2 & Hw & Hwf2 & Hc2).
  eexists. split.
  { unfold inode_write_at.
    rewrite (bind_Ok _ _ _ _ _ (deref_Ok _ _ _ Hp)).
    cbn [inode.deny_write_cnt]. change (negb (0 =? 0)) with false. cbv iota.
    change (to_int (0 + 1 - 1)) with 0.
    rewrite (bind_Ok _ _ _ _ _ (byte_to_sector_first d s st)).
    destruct (Z.eqb_spec d NO_SECTOR) as [|_]; [done|].
    rewrite write_loop_first_byte.
    rewrite (bind_Ok _ _ _ _ _ (byte_to_sector_first d s st)).
    rewrite (bind_Ok _ _ _ _ _ (malloc_Ok st)). rewrite Hok. cbn [negb].
    rewrite (bind_Ok _ _ _ _ _ Hr). rewrite (bind_Ok _ _ _ _ _ Hw). reflexivity. }
  cbn [open_inodes fs_cache log set_fs_cache set_heap_next]. split_and!; [done..|].
  by rewrite Hc2, Z.eqb_refl, memcpy_first_byte.
Qed.

Lemma inode_read_whole_sector st p s d buf :
  cache_wf (fs_cache st) ->
  lookup_inode p (open_inodes st) = Some (inode.mk s 1 false 0 (one_sector_inode d)) ->
  sector_content (fs_cache st) d = buf ->
  exists st4, inode_read_at p 512 0 st = Ok ((512, buf), st4).
Proof.
  intros Hwf Hp Hbuf.
  destruct (cache_read_Ok d st Hwf) as (c1 & Hr & _). rewrite Hbuf in Hr.
  eexists. unfold inode_read_at.
  rewrite (bind_Ok _ _ _ _ _ (deref_Ok _ _ _ Hp)).
  rewrite read_loop_whole_sector.
  rewrite (bind_Ok _ _ _ _ _ (byte_to_sector_first d s st)).
  rewrite (bind_Ok _ _ _ _ _ Hr). reflexivity.
Qed.

(** What holds of zero-filling for every state: every sector
    [inode_allocate] obtains from the free map is written with 512 zero
    bytes through the cache by the very next call; and on a file of one
    sector created at [s] (a sector in use, with no inode open on it, a
    free sector left, and [malloc] succeeding), writing the byte [b] at
    offset 0 and then reading the whole sector returns [b] followed by
    511 zeros. *)
Theorem fresh_file_reads_zero :
  (forall disk st ok d' st',
     inode_allocate disk st = Ok ((ok, d'), st') ->
     exists evs, trace st' = trace st ++ evs /\ zero_filled evs) /\
  (forall st s d m b,
     cache_wf (fs_cache st) ->
     (forall p ino, (p, ino) ∈ open_inodes st -> inode.sector ino <> s) ->
     fm_in_use (free_map st) s = true ->
     fm_allocate 1 (free_map st) = Some (d, m) ->
     heap_ok st (heap_next st) = true ->
     heap_ok st (S (heap_next st)) = true ->
     heap_ok st (S (S (heap_next st))) = true ->
     exists st1 p st2 st3 st4,
       inode_create s 512 st = Ok (true, st1) /\
       inode_open s st1 = Ok (Some p, st2) /\
       inode_write_at p [b] 1 0 st2 = Ok (1, st3) /\
       inode_read_at p 512 0 st3 = Ok ((512, b :: replicate 511%nat 0), st4)).
Proof.
  split.
  { intros disk st ok d' st' H. by apply (zero_fills_inode_allocate disk st _ _ H). }
  intros st s d m b Hwf Hnone Huse Halloc Hok0 Hok1 Hok2.
  assert (d <> s) as Hds.
  { intros ->. rewrite (fm_allocate_fresh 1 _ _ _ ltac:(lia) Halloc) in Huse. done. }
  pose proof (fm_allocate_range _ _ _ _ Halloc) as Hrange.
  change NO_SECTOR with 4294967295 in Hrange.
  assert (d <> NO_SECTOR) as Hdn by (change NO_SECTOR with 4294967295; lia).
  destruct (inode_create_one_sector st s d m Hwf Halloc Hds Hok0)
    as (st1 & Hcreate & Hreg1 & Hnext1 & Hheap1 & Hwf1 & Hs1 & Hd1).
  assert (forall p ino, (p, ino) ∈ open_inodes st1 -> inode.sector ino <> s) as Hnone1
    by (by rewrite Hreg1).
  destruct (inode_open_new s st1 Hwf1 Hnone1)
    as [[Hfail _]|(_ & c2 & Hwf2 & Hopen & Hc2)].
  { rewrite Hheap1, Hnext1, Hok1 in Hfail. done. }
  rewrite Hs1, one_sector_inode_roundtrip in Hopen by (unfold UINT_MOD; lia).
  set (p := heap_next st1) in *. set (st2 := set_open_inodes _ _) in Hopen.
  assert (lookup_inode p (open_inodes st2)
          = Some (inode.mk s 1 false 0 (one_sector_inode d))) as Hp.
  { unfold st2, lookup_inode. cbn [open_inodes set_open_inodes List.find fst].
    by rewrite Nat.eqb_refl. }
  destruct (inode_write_first_byte st2 p s d b) as (st3 & Hwrite & Hreg3 & Hwf3 & Hd3).
  - done.
  - done.
  - done.
  - unfold st2. cbn [heap_ok heap_next set_open_inodes set_fs_cache set_heap_next].
    by rewrite Hheap1, Hnext1.
  - unfold st2. cbn [fs_cache set_open_inodes set_fs_cache]. by rewrite Hc2.
  - destruct (inode_read_whole_sector st3 p s d _ Hwf3 ltac:(by rewrite Hreg3) Hd3)
      as (st4 & Hread).
    by exists st1, p, st2, st3, st4.
Qed.
End OneSector.

Lemma fresh_file_reads_zero_witness :
  cache_wf (fs_cache sample_state) /\
  fm_in_use (free_map sample_state) 1 = true /\
  fm_allocate 1 (free_map sample_state)
    = Some (2, Bitmap.set_multiple 2 1 true sample_free_map) /\
  exists st1 p st2 st3 st4,
    inode_create 1 512 sample_state = Ok (true, st1) /\
    inode_open 1 st1 = Ok (Some p, st2) /\
    inode_write_at p [77] 1 0 st2 = Ok (1, st3) /\
    inode_read_at p 512 0 st3 = Ok ((512, 77 :: replicate 511%nat 0), st4).
Proof.
  assert (fm_allocate 1 (free_map sample_state)
          = Some (2, Bitmap.set_multiple 2 1 true sample_free_map)) as Halloc
    by (vm_compute; reflexivity).
  split; [apply fs_cache_init_wf|]. split; [reflexivity|]. split; [exact Halloc|].
  apply (proj2 fresh_file_reads_zero sample_state 1 2
           (Bitmap.set_multiple 2 1 true sample_free_map) 77).
  - apply fs_cache_init_wf.
  - intros p ino Hin. by apply elem_of_nil in Hin.
  - reflexivity.
  - exact Halloc.
  - reflexivity.
  - reflexivity.
  - reflexivity.
Defined.

(** ** The fuel of the byte-range loops *)

(** Turn the boolean comparisons among the hypotheses into propositions. *)
Ltac reflect_comparisons :=
  repeat match goal with
         | H : (_ <? _) = true |- _ => apply Z.ltb_lt in H
         | H : (_ <? _) = false |- _ => apply Z.ltb_ge in H
         | H : (_ <=? _) = true |- _ => apply Z.leb_le in H
         | H : (_ <=? _) = false |- _ => apply Z.leb_gt in H
         | H : (_ >? _) = true |- _ => apply Z.gtb_lt in H
         | H : (_ >? _) = false |- _ => rewrite Z.gtb_ltb in H; apply Z.ltb_ge in H
         end.

(** Step through two runs of the same loop body that differ in fuel only. *)
Ltac same_pass IH :=
  repeat first
    [ reflexivity
    | apply IH; reflect_comparisons; lia
    | match goal with
      | |- context [match ?x with _ => _ end] =>
          lazymatch x with
          | context [write_loop] => fail
          | context [read_loop] => fail
          | _ => destruct x eqn:?
          end
      end ].

Section LoopFuel.
Context `{FM : FreeMap}.

(** Each pass of [inode_write_at]'s loop takes at least one byte off
    [size], so [size] passes are enough: more fuel changes nothing. *)
Lemma write_loop_fuel fuel1 fuel2 ino buffer size offset bytes_written bounce st :
  (Z.to_nat size <= fuel1)%nat -> (Z.to_nat size <= fuel2)%nat ->
  write_loop fuel1 ino buffer size offset bytes_written bounce st
    = write_loop fuel2 ino buffer size offset bytes_written bounce st.
Proof.
  revert fuel2 size offset bytes_written bounce st.
  induction fuel1 as [|fuel1 IH]; intros [|fuel2] size offset bw bounce st H1 H2;
    cbn [write_loop]; try reflexivity.
  - destruct (size >? 0) eqn:E; [|done]. reflect_comparisons. lia.
  - destruct (size >? 0) eqn:E; [|done]. reflect_comparisons. lia.
  - unfold mbind, M_bind, bind, mret, M_ret, ret. cbv zeta. same_pass IH.
Qed.

(** The same for [inode_read_at]. *)
Lemma read_loop_fuel fuel1 fuel2 ino buffer size offset bytes_read bounce st :
  (Z.to_nat size <= fuel1)%nat -> (Z.to_nat size <= fuel2)%nat ->
  read_loop fuel1 ino buffer size offset bytes_read bounce st
    = read_loop fuel2 ino buffer size offset bytes_read bounce st.
Proof.
  revert fuel2 buffer size offset bytes_read bounce st.
  induction fuel1 as [|fuel1 IH]; intros [|fuel2] buffer size offset br bounce st H1 H2;
    cbn [read_loop]; try reflexivity.
  - destruct (size >? 0) eqn:E; [|done]. reflect_comparisons. lia.
  - destruct (size >? 0) eqn:E; [|done]. reflect_comparisons. lia.
  - unfold mbind, M_bind, bind, mret, M_ret, ret. cbv zeta. same_pass IH.
Qed.
End LoopFuel.


(** ** Further properties of the sector cache *)

(** X1. [fs_cache_read] is transparent: on a well-formed cache it always
    returns, the bytes it copies out are what the cache and the device
    together hold for the sector, and afterwards every sector still holds
    what it held (only the line's bookkeeping changes). *)
Theorem fs_cache_read_transparent (s : Z) (c : cache_state) :
  cache_wf c ->
  exists c',
    fs_cache_read s c = Some (sector_content c s, c') /\ cache_wf c' /\
    (forall s', sector_content c' s' = sector_content c s') /\
    fs_cache_find s c' <> None.
Proof.
  intros Hwf. unfold fs_cache_read.
  destruct (cache_line_for_spec s c Hwf)
    as (i & c1 & e & -> & Hwf1 & Hi & Hfree & Hsec & Hdata & Hsame).
  cbn [mbind option_bind]. rewrite (update_entry_Some _ _ _ _ Hi). cbn [mbind option_bind].
  cbn [cache set_cache]. rewrite list_lookup_insert_eq by (by apply lookup_lt_Some in Hi).
  cbn [mbind option_bind]. eexists. split; [by rewrite <- Hdata; destruct e|].
  assert (cache_wf (set_cache (<[i:=cache_entry_t.set_access true e]> (cache c1)) c1)) as Hwf2.
  { apply (cache_wf_insert_same c1 i e); try done.
    intros Hd. destruct e; cbn in *. by apply (wf_clean c1 Hwf1 i _ Hi). }
  split; [done|]. split.
  - intros s'. rewrite <- Hsame. by apply (sector_content_insert c1 i e).
  - rewrite <- Hsec.
    change (cache_entry_t.sector e)
      with (cache_entry_t.sector (cache_entry_t.set_access true e)).
    rewrite (fs_cache_find_unique _ i (cache_entry_t.set_access true e) Hwf2); [done| |done].
    cbn [cache set_cache]. apply list_lookup_insert_eq. by apply lookup_lt_Some in Hi.
Qed.

Lemma fs_cache_read_transparent_witness :
  cache_wf fresh_cache /\
  exists c',
    fs_cache_read 5 fresh_cache = Some (sector_content fresh_cache 5, c') /\ cache_wf c' /\
    (forall s', sector_content c' s' = sector_content fresh_cache s') /\
    fs_cache_find 5 c' <> None.
Proof.
  split; [apply fs_cache_init_wf|].
  apply (fs_cache_read_transparent 5 fresh_cache). apply fs_cache_init_wf.
Defined.

(** While no line holds [s], the sweep of [fs_cache_evict] writes nothing
    to sector [s] of the device. *)
Lemma evict_scan_device fuel c v c' s :
  (forall j e, cache c !! j = Some e -> holds s e = false) ->
  evict_scan fuel c = Some (v, c') ->
  fs_device c' s = fs_device c s.
Proof.
  revert c. induction fuel as [|fuel IH]; intros c Hno; cbn [evict_scan]; [done|].
  destruct (cache c !! clock c) as [e|] eqn:He; [|done]. cbn [mbind option_bind].
  destruct (cache_entry_t.free e) eqn:Hf; [by intros [= <- <-]|].
  destruct (cache_entry_t.access e) eqn:Ha.
  - rewrite (update_entry_Some _ _ _ _ He). cbn [mbind option_bind]. intros H.
    apply IH in H; [done|]. cbn [cache set_clock set_cache].
    intros j e' Hj. destruct (decide (j = clock c)) as [->|Hne].
    + rewrite list_lookup_insert_eq in Hj by (by apply lookup_lt_Some in He).
      injection Hj as <-. specialize (Hno _ _ He). by destruct e.
    + rewrite list_lookup_insert_ne in Hj by done. eauto.
  - specialize (Hno _ _ He). apply holds_false in Hno as [Hno|Hno]; [congruence|].
    unfold fs_cache_flush. rewrite He. cbn [mbind option_bind].
    destruct (cache_entry_t.dirty e) eqn:Hd.
    + rewrite (update_entry_Some _ _ _ e) by done. cbn [mbind option_bind].
      unfold update_entry. cbn [cache set_cache set_fs_device].
      rewrite list_lookup_insert_eq by (by apply lookup_lt_Some in He).
      cbn [mbind option_bind]. intros [= <- <-]. cbn [fs_device set_cache set_fs_device].
      unfold block_write. destruct (s =? cache_entry_t.sector e) eqn:E; [|done].
      apply Z.eqb_eq in E. congruence.
    + cbn [mbind option_bind]. rewrite (update_entry_Some _ _ _ e) by done.
      cbn [mbind option_bind]. by intros [= <- <-].
Qed.

(** X2. [fs_cache_write] is write-back, never write-through: whatever the
    cache looks like, a write to sector [s] leaves the device's copy of
    [s] as it was; the new bytes reach the device only through a later
    eviction or [fs_cache_destroy]. *)
Theorem fs_cache_write_defers (s : Z) (buf : list Z) (c c' : cache_state) :
  fs_cache_write s buf c = Some c' -> fs_device c' s = fs_device c s.
Proof.
  unfold fs_cache_write, cache_line_for.
  destruct (fs_cache_find s c) as [i|] eqn:Hfind; cbn [mbind option_bind].
  - unfold update_entry. destruct (cache c !! i); [|done]. by intros [= <-].
  - destruct (fs_cache_evict c) as [[v c1]|] eqn:Hev; [|done]. cbn [mbind option_bind].
    apply (evict_scan_device _ _ _ _ s) in Hev.
    2:{ intros j e Hj. by apply (proj1 (find_from_None (cache c) s) Hfind j e). }
    unfold update_entry at 2. destruct (cache c1 !! v); [|done]. cbn [mbind option_bind].
    unfold update_entry. cbn [cache set_cache].
    destruct (_ !! v); [|done]. cbn [mbind option_bind]. by intros [= <-].
Qed.

Lemma fs_cache_write_defers_witness :
  fs_cache_write 100 [5] warm_cache = Some warm_cache_written /\
  fs_device warm_cache_written 100 = fs_device warm_cache 100 /\
  fs_device warm_cache_written 63 = [1].
Proof.
  assert (fs_cache_write 100 [5] warm_cache = Some warm_cache_written) as H
    by (vm_compute; reflexivity).
  split; [exact H|]. split; [exact (fs_cache_write_defers 100 [5] _ _ H)|].
  vm_compute; reflexivity.
Defined.

(** X3. [fs_cache_evict] always comes back: on a well-formed cache the
    clock loop stops within [CACHE_SIZE + 1] passes and hands out a line
    of the array that is free, and no sector's content is lost on the
    way. *)
Theorem fs_cache_evict_returns (c : cache_state) :
  cache_wf c ->
  exists v c' e,
    fs_cache_evict c = Some (v, c') /\ (v < CACHE_SIZE)%nat /\
    cache c' !! v = Some e /\ cache_entry_t.free e = true /\
    cache_wf c' /\ (forall s, sector_content c' s = sector_content c s).
Proof.
  intros Hwf. destruct (fs_cache_evict_total c Hwf) as [[v c'] Hev].
  destruct (evict_scan_spec _ _ _ _ Hwf Hev) as (Hwf' & Hsame & (e & He & Hfree) & _).
  exists v, c', e. split; [done|]. split; [|done].
  apply lookup_lt_Some in He. by rewrite (wf_length _ Hwf') in He.
Qed.

Lemma fs_cache_evict_returns_witness :
  cache_wf warm_cache /\
  exists v c' e,
    fs_cache_evict warm_cache = Some (v, c') /\ (v < CACHE_SIZE)%nat /\
    cache c' !! v = Some e /\ cache_entry_t.free e = true /\
    cache_wf c' /\ (forall s, sector_content c' s = sector_content warm_cache s).
Proof.
  split; [exact warm_cache_wf|]. exact (fs_cache_evict_returns warm_cache warm_cache_wf).
Defined.

(** X4. Whatever reads and writes follow [fs_cache_init], none of them
    fails, the array keeps its [CACHE_SIZE] lines, and no sector is ever
    held by two valid lines at once. *)
Theorem cache_unique_residency (dev : block_device) (ops : list cache_op) :
  exists c,
    run_ops ops (fs_cache_init (cache_bss dev)) = Some c /\
    List.length (cache c) = CACHE_SIZE /\
    forall s i j ei ej,
      cache c !! i = Some ei -> cache c !! j = Some ej ->
      holds s ei = true -> holds s ej = true -> i = j.
Proof.
  destruct (run_ops_spec ops _ (fs_cache_init_wf dev)) as (c & Hrun & Hwf & _).
  exists c. split; [done|]. split; [by destruct Hwf|].
  intros s i j ei ej Hi Hj [Hfi Hsi]%holds_true [Hfj Hsj]%holds_true.
  apply (wf_unique c Hwf i j ei ej); congruence.
Qed.

(** The write-through history does not tell apart two devices with the
    same sectors. *)
Lemma write_through_observe_ext ops dev dev' :
  (forall s, dev s = dev' s) ->
  fst (write_through.observe ops dev) = fst (write_through.observe ops dev') /\
  forall s, snd (write_through.observe ops dev) s = snd (write_through.observe ops dev') s.
Proof.
  revert dev dev'. induction ops as [|[s|s buf] ops IH]; intros dev dev' Heq;
    cbn [write_through.observe write_through.fs_cache_read].
  - done.
  - specialize (IH dev dev' Heq).
    destruct (write_through.observe ops dev) as [outs d2].
    destruct (write_through.observe ops dev') as [outs' d2'].
    cbn [fst snd] in *. destruct IH as [-> IH]. split; [|done].
    unfold block_read. by rewrite Heq.
  - apply IH. intros s'. unfold write_through.fs_cache_write, block_write.
    by rewrite Heq.
Qed.

Lemma observe_simulates ops c dev :
  cache_wf c -> (forall s, sector_content c s = dev s) ->
  exists c',
    observe ops c = Some (fst (write_through.observe ops dev), c') /\ cache_wf c' /\
    forall s, sector_content c' s = snd (write_through.observe ops dev) s.
Proof.
  revert c dev. induction ops as [|[s|s buf] ops IH]; intros c dev Hwf Heq;
    cbn [observe write_through.observe write_through.fs_cache_read].
  - by exists c.
  - destruct (fs_cache_read_spec s c Hwf) as (c1 & -> & Hwf1 & Hsame).
    cbn [mbind option_bind].
    destruct (IH c1 dev Hwf1) as (c' & -> & Hwf' & Hc').
    { intros s'. by rewrite Hsame. }
    cbn [mbind option_bind].
    destruct (write_through.observe ops dev) as [outs d2]. cbn [fst snd] in *.
    exists c'. unfold block_read. by rewrite Heq.
  - destruct (fs_cache_write_spec s buf c Hwf) as (c1 & -> & Hwf1 & Hsame & _).
    cbn [mbind option_bind]. apply IH; [done|].
    intros s'. rewrite Hsame. unfold write_through.fs_cache_write, block_write.
    by rewrite Heq.
Qed.

Lemma sector_content_init dev s :
  sector_content (fs_cache_init (cache_bss dev)) s = dev s.
Proof. reflexivity. Qed.

(** X5. The write-back cache cannot be told from the write-through
    [cache.c] it replaced: after [fs_cache_init], every read of any
    history fills the caller's buffer with the bytes the write-through
    version would have read from the device, and once [fs_cache_destroy]
    has run the device holds, sector by sector, what the write-through
    version would have left on it. *)
Theorem cache_refines_write_through (dev : block_device) (ops : list cache_op) :
  exists c c',
    observe ops (fs_cache_init (cache_bss dev))
      = Some (fst (write_through.observe ops dev), c) /\
    fs_cache_destroy c = Some c' /\
    forall s, fs_device c' s = snd (write_through.observe ops dev) s.
Proof.
  destruct (observe_simulates ops (fs_cache_init (cache_bss dev)) dev)
    as (c & Hobs & Hwf & Hc); [apply fs_cache_init_wf|apply sector_content_init|].
  destruct (fs_cache_destroy_spec c Hwf) as (c' & Hd & Hdev).
  exists c, c'. split; [done|]. split; [done|]. intros s. by rewrite Hdev.
Qed.

(** Nothing is left for [fs_cache_destroy] to do on a cache without a
    dirty valid line. *)
Lemma destroy_from_clean n i c :
  (i + n <= List.length (cache c))%nat ->
  (forall j e, cache c !! j = Some e ->
     cache_entry_t.free e = false -> cache_entry_t.dirty e = false) ->
  destroy_from n i c = Some c.
Proof.
  revert i. induction n as [|n IH]; intros i Hlen Hclean; cbn [destroy_from]; [done|].
  destruct (lookup_lt_is_Some_2 (cache c) i) as [e He]; [lia|].
  rewrite He. cbn [mbind option_bind].
  destruct (cache_entry_t.free e) eqn:Hf; cbn [negb mbind option_bind].
  - apply IH; [lia|done].
  - unfold fs_cache_flush. rewrite He. cbn [mbind option_bind].
    rewrite (Hclean _ _ He Hf). cbn [mbind option_bind]. apply IH; [lia|done].
Qed.

(** X6. [fs_cache_destroy] flushes and nothing more: afterwards no valid
    line is dirty, the lines still answer for the same contents, and a
    second [fs_cache_destroy] changes nothing at all. *)
Theorem fs_cache_destroy_idempotent (c : cache_state) :
  cache_wf c ->
  exists c1,
    fs_cache_destroy c = Some c1 /\ fs_cache_destroy c1 = Some c1 /\
    (forall j e, cache c1 !! j = Some e ->
       cache_entry_t.free e = false -> cache_entry_t.dirty e = false) /\
    (forall s, sector_content c1 s = sector_content c s).
Proof.
  intros Hwf.
  destruct (destroy_from_spec CACHE_SIZE 0 c Hwf) as (c1 & Hd & Hwf1 & Hsame & Hclean);
    [done|intros; lia|].
  exists c1. split; [done|]. split; [|done].
  apply destroy_from_clean; [|done]. by rewrite (wf_length _ Hwf1).
Qed.

Lemma fs_cache_destroy_idempotent_witness :
  cache_wf warm_cache /\
  exists c1,
    fs_cache_destroy warm_cache = Some c1 /\ fs_cache_destroy c1 = Some c1 /\
    (forall j e, cache c1 !! j = Some e ->
       cache_entry_t.free e = false -> cache_entry_t.dirty e = false) /\
    (forall s, sector_content c1 s = sector_content warm_cache s).
Proof.
  split; [exact warm_cache_wf|]. exact (fs_cache_destroy_idempotent warm_cache warm_cache_wf).
Defined.

(** ** What the inode layer leaves alone *)

Section Maintains.
Context `{FM : FreeMap}.
Variable R : fs_state -> fs_state -> Prop.
Hypothesis R_refl : forall st, R st st.
Hypothesis R_trans : forall st1 st2 st3, R st1 st2 -> R st2 st3 -> R st1 st3.

Lemma maintains_ret {A} (a : A) : maintains R (mret a).
Proof. intros st a' st' [= <- <-]. apply R_refl. Qed.

Lemma maintains_bind {A B} (m : M A) (f : A -> M B) :
  maintains R m -> (forall a, maintains R (f a)) -> maintains R (x ← m; f x).
Proof.
  intros Hm Hf st b st'. unfold mbind, M_bind, bind.
  destruct (m st) as [[a st1]| |] eqn:E; [|done..].
  intros H. eapply R_trans; [by eapply Hm|by eapply Hf].
Qed.

Lemma maintains_fault {A} : maintains R (@fault _ A).
Proof. by intros st a st'. Qed.

Lemma maintains_panic {A} msg : maintains R (@panic _ A msg).
Proof. by intros st a st'. Qed.

Lemma maintains_of_option {A} (o : option A) : maintains R (of_option o).
Proof. destruct o; [apply maintains_ret|apply maintains_fault]. Qed.

Lemma maintains_deref p : maintains R (deref p).
Proof.
  intros st a st'. unfold deref, mbind, M_bind, bind, get.
  destruct (lookup_inode p (open_inodes st)); [|done].
  intros [= <- <-]. apply R_refl.
Qed.
End Maintains.

(** Take a monadic term apart along its binds and branches; [prims]
    closes the calls to the collaborators. *)
Ltac maintain refl trans prims :=
  repeat first
    [ apply (maintains_ret _ refl)
    | apply maintains_fault
    | apply maintains_panic
    | apply (maintains_of_option _ refl)
    | apply (maintains_deref _ refl)
    | prims
    | apply (maintains_bind _ trans); [|intros ?]
    | match goal with
      | |- maintains _ (let '(_, _) := ?a in _) => destruct a
      | |- maintains _ (if ?b then _ else _) => destruct b eqn:?
      | |- maintains _ (match ?b with _ => _ end) => destruct b eqn:?
      end ].

Section ReadOnly.
Context `{FM : FreeMap}.

Lemma same_disk_refl st : same_disk st st.
Proof. by intros Hwf. Qed.

Lemma same_disk_trans st1 st2 st3 :
  same_disk st1 st2 -> same_disk st2 st3 -> same_disk st1 st3.
Proof.
  intros H12 H23 Hwf. destruct (H12 Hwf) as (Hwf2 & Hc & Hm & Ho & Ht & Hh).
  destruct (H23 Hwf2) as (Hwf3 & Hc' & Hm' & Ho' & Ht' & Hh').
  split; [done|]. split; [intros s; by rewrite Hc', Hc|]. repeat split; congruence.
Qed.

Lemma same_disk_malloc : maintains same_disk malloc.
Proof. by intros st a st' [= <- <-] Hwf. Qed.

Lemma same_disk_cache_read s : maintains same_disk (cache_read s).
Proof.
  intros st a st' H Hwf. destruct (cache_read_Ok s st Hwf) as (c' & Heq & Hwf' & Hc).
  rewrite Heq in H. injection H as <- <-. by cbn.
Qed.

Lemma same_disk_index_to_sector disk index :
  maintains same_disk (index_to_sector disk index).
Proof.
  unfold index_to_sector.
  maintain same_disk_refl same_disk_trans
    ltac:(first [apply same_disk_malloc | apply same_disk_cache_read]).
Qed.

Lemma same_disk_byte_to_sector ino pos : maintains same_disk (byte_to_sector ino pos).
Proof.
  unfold byte_to_sector.
  maintain same_disk_refl same_disk_trans ltac:(apply same_disk_index_to_sector).
Qed.

Lemma same_disk_read_loop fuel ino buffer size offset bytes_read bounce :
  maintains same_disk (read_loop fuel ino buffer size offset bytes_read bounce).
Proof.
  revert buffer size offset bytes_read bounce.
  induction fuel as [|fuel IH]; intros buffer size offset bytes_read bounce;
    cbn [read_loop].
  - apply (maintains_ret _ same_disk_refl).
  - maintain same_disk_refl same_disk_trans
      ltac:(first [apply same_disk_malloc | apply same_disk_cache_read
                  | apply same_disk_byte_to_sector | apply IH]).
Qed.

(** X7. [inode_read_at] only looks: whatever the handle, the size and
    the offset, a read that returns leaves every sector holding what it
    held, and takes nothing from the free map, gives nothing back to it,
    and changes neither the open-inode registry nor the history of
    writes. *)
Theorem inode_read_at_read_only (p : nat) (size offset : Z) (st : fs_state)
    (r : Z * list Z) (st' : fs_state) :
  cache_wf (fs_cache st) ->
  inode_read_at p size offset st = Ok (r, st') ->
  cache_wf (fs_cache st') /\
  (forall s, sector_content (fs_cache st') s = sector_content (fs_cache st) s) /\
  free_map st' = free_map st /\ open_inodes st' = open_inodes st /\
  trace st' = trace st.
Proof.
  intros Hwf H.
  assert (maintains same_disk (inode_read_at p size offset)) as Hm.
  { unfold inode_read_at.
    maintain same_disk_refl same_disk_trans ltac:(apply same_disk_read_loop). }
  destruct (Hm _ _ _ H Hwf) as (? & ? & ? & ? & ? & ?). done.
Qed.
End ReadOnly.

Lemma inode_read_at_read_only_witness :
  cache_wf (fs_cache sample_open_state) /\
  inode_read_at 0 512 0 sample_open_state
    = Ok ((512, sector_zero), state_after sample_read sample_state) /\
  open_inodes (state_after sample_read sample_state) = open_inodes sample_open_state /\
  trace (state_after sample_read sample_state) = trace sample_open_state.
Proof.
  assert (cache_wf (fs_cache sample_open_state)) as Hwf by apply fs_cache_init_wf.
  assert (inode_read_at 0 512 0 sample_open_state
          = Ok ((512, sector_zero), state_after sample_read sample_state)) as H
    by (vm_compute; reflexivity).
  split; [exact Hwf|]. split; [exact H|].
  destruct (inode_read_at_read_only 0 512 0 _ _ _ Hwf H) as (_ & _ & _ & Ho & Ht).
  split; [exact Ho|exact Ht].
Defined.

Section NoAllocation.
Context `{FM : FreeMap}.

Lemma no_allocation_refl st : no_allocation st st.
Proof.
  intros Hwf. do 4 (split; [done|]). exists []. by rewrite app_nil_r.
Qed.

Lemma no_allocation_trans st1 st2 st3 :
  no_allocation st1 st2 -> no_allocation st2 st3 -> no_allocation st1 st3.
Proof.
  intros H12 H23 Hwf. destruct (H12 Hwf) as (Hwf2 & Hm & Ho & Hh & evs & Ht & Ha & Hr).
  destruct (H23 Hwf2) as (Hwf3 & Hm' & Ho' & Hh' & evs' & Ht' & Ha' & Hr').
  split; [done|]. split; [congruence|]. split; [congruence|]. split; [congruence|].
  exists (evs ++ evs'). split; [by rewrite Ht', Ht, app_assoc|].
  unfold allocated, released in *. by rewrite !omap_app, Ha, Ha', Hr, Hr'.
Qed.

Lemma same_disk_no_allocation {A} (m : M A) :
  maintains same_disk m -> maintains no_allocation m.
Proof.
  intros Hm st a st' H Hwf. destruct (Hm _ _ _ H Hwf) as (? & ? & ? & ? & Ht & ?).
  do 4 (split; [done|]). exists []. by rewrite Ht, app_nil_r.
Qed.

Lemma no_allocation_cache_write s buf : maintains no_allocation (cache_write s buf).
Proof.
  intros st a st' H Hwf. destruct (cache_write_Ok s buf st Hwf) as (c' & Heq & Hwf' & Hc).
  rewrite Heq in H. destruct a. injection H as <-. do 4 (split; [done|]).
  by exists [EvCacheWrite s buf].
Qed.

Lemma no_allocation_write_loop fuel ino buffer size offset bytes_written bounce :
  maintains no_allocation (write_loop fuel ino buffer size offset bytes_written bounce).
Proof.
  revert size offset bytes_written bounce.
  induction fuel as [|fuel IH]; intros size offset bytes_written bounce;
    cbn [write_loop].
  - apply (maintains_ret _ no_allocation_refl).
  - maintain no_allocation_refl no_allocation_trans
      ltac:(first [ apply same_disk_no_allocation, same_disk_malloc
                  | apply same_disk_no_allocation, same_disk_cache_read
                  | apply same_disk_no_allocation, same_disk_byte_to_sector
                  | apply no_allocation_cache_write
                  | apply IH ]).
Qed.

(** X8. [inode_write_at] never grows or shrinks a file: a write that
    returns has taken no sector from the free map and released none, and
    has left the registry of open inodes as it was; all it does to the
    disk goes through [fs_cache_write]. *)
Theorem inode_write_at_no_allocation (p : nat) (buffer : list Z) (size offset : Z)
    (st : fs_state) (n : Z) (st' : fs_state) :
  cache_wf (fs_cache st) ->
  inode_write_at p buffer size offset st = Ok (n, st') ->
  cache_wf (fs_cache st') /\
  free_map st' = free_map st /\ open_inodes st' = open_inodes st /\
  exists evs, trace st' = trace st ++ evs /\ allocated evs = [] /\ released evs = [].
Proof.
  intros Hwf H.
  assert (maintains no_allocation (inode_write_at p buffer size offset)) as Hm.
  { unfold inode_write_at.
    maintain no_allocation_refl no_allocation_trans
      ltac:(first [ apply same_disk_no_allocation, same_disk_byte_to_sector
                  | apply no_allocation_write_loop ]). }
  destruct (Hm _ _ _ H Hwf) as (? & ? & ? & ? & ?). done.
Qed.
End NoAllocation.

Lemma inode_write_at_no_allocation_witness :
  cache_wf (fs_cache sample_open_state) /\
  inode_write_at 0 [7] 1 0 sample_open_state
    = Ok (1, state_after sample_write sample_state) /\
  free_map (state_after sample_write sample_state) = free_map sample_open_state /\
  open_inodes (state_after sample_write sample_state) = open_inodes sample_open_state.
Proof.
  assert (cache_wf (fs_cache sample_open_state)) as Hwf by apply fs_cache_init_wf.
  assert (inode_write_at 0 [7] 1 0 sample_open_state
          = Ok (1, state_after sample_write sample_state)) as H
    by (vm_compute; reflexivity).
  split; [exact Hwf|]. split; [exact H|].
  destruct (inode_write_at_no_allocation 0 [7] 1 0 _ _ _ Hwf H) as (_ & Hm & Ho & _).
  split; [exact Hm|exact Ho].
Defined.

(** ** Edges of the copy loops *)

Section CopyLoops.
Context `{FM : FreeMap}.

(** X9. A write of no bytes at offset 0 halts the kernel: with writes
    allowed, whenever [offset + size - 1] is negative, the check made
    before the loop asks [byte_to_sector] for a byte before the start of
    the file, gets [-1], and takes it for a write past the end.  This
    holds for every inode, empty or not. *)
Theorem inode_write_at_empty_panics (p : nat) (ino : inode.t) (buffer : list Z)
    (size offset : Z) (st : fs_state) :
  lookup_inode p (open_inodes st) = Some ino ->
  inode.deny_write_cnt ino = 0 ->
  -2147483648 <= offset + size - 1 < 0 ->
  inode_write_at p buffer size offset st = Panic "extendable fs not implement".
Proof.
  intros Hp Hdeny Hneg. unfold inode_write_at.
  rewrite (bind_Ok _ _ _ _ _ (deref_Ok _ _ _ Hp)). rewrite Hdeny. cbn [Z.eqb negb].
  rewrite (bind_Ok _ _ st NO_SECTOR st); [done|].
  apply byte_to_sector_outside. rewrite to_int_small by (unfold INT_MAX; lia). lia.
Qed.

(** X10. [inode_read_at] at or past the end of the file, or for no
    bytes, copies nothing: it returns 0 and touches neither the cache
    nor anything else. *)
Theorem inode_read_at_past_end (p : nat) (ino : inode.t) (size offset : Z)
    (st : fs_state) :
  lookup_inode p (open_inodes st) = Some ino ->
  size <= 0 \/ (0 <= inode_length ino <= offset /\ offset <= INT_MAX) ->
  inode_read_at p size offset st = Ok ((0, []), st).
Proof.
  intros Hp Hcase. unfold inode_read_at.
  rewrite (bind_Ok _ _ _ _ _ (deref_Ok _ _ _ Hp)).
  destruct (Z.to_nat size) as [|fuel] eqn:Hfuel; [done|]. cbn [read_loop].
  destruct (size >? 0) eqn:Hs; [|done]. apply Z.gtb_lt in Hs.
  destruct Hcase as [Hle|[Hlen Hmax]]; [lia|].
  rewrite (bind_Ok _ _ st NO_SECTOR st).
  2:{ apply byte_to_sector_outside. unfold inode_length in Hlen. lia. }
  match goal with |- context [Z.leb ?c 0] => assert ((c <=? 0) = true) as -> end; [|done].
  apply Z.leb_le. rewrite to_int_small by (unfold INT_MAX in *; lia).
  unfold BLOCK_SECTOR_SIZE.
  assert (0 <= Z.rem offset 512 < 512) as Hrem by (apply Z.rem_bound_pos; lia).
  assert ((inode_length ino - offset <? 512 - Z.rem offset 512) = true) as ->
    by (apply Z.ltb_lt; lia).
  destruct (size <? _) eqn:E; reflect_comparisons; lia.
Qed.

(** One pass of a copy loop moves between 1 and [size] bytes, so the
    count returned lies between what was counted before and that plus
    [size]. *)
Ltac loop_pass size IH :=
  match goal with
  | |- context [Z.leb ?c 0] =>
      let chunk := fresh "chunk" in
      set (chunk := c);
      assert (chunk <= size)
        by (subst chunk; destruct (size <? _) eqn:?; reflect_comparisons; lia)
  end;
  repeat first
    [ match goal with
      | |- ret _ _ = Ok _ -> _ => intros [= <- <-]
      | |- ret _ _ = Ok _ -> _ => intros [= <- <- <-]
      | |- fault _ = Ok _ -> _ => discriminate
      | |- context [match ?m with Ok _ => _ | Panic _ => _ | Fault => _ end] =>
          destruct m as [[? ?]| |] eqn:?; [|discriminate..]
      | |- context [if ?b then _ else _] => destruct b eqn:?
      end ];
  reflect_comparisons;
  try lia;
  let H := fresh in intros H; apply IH in H; lia.

Lemma read_loop_bound fuel ino buffer size offset br bounce st n bytes st' :
  read_loop fuel ino buffer size offset br bounce st = Ok ((n, bytes), st') ->
  br <= n <= br + Z.max 0 size.
Proof.
  revert buffer size offset br bounce st.
  induction fuel as [|fuel IH]; intros buffer size offset br bounce st; cbn [read_loop].
  - intros [= <- <- <-]. lia.
  - destruct (size >? 0) eqn:Hs; [|intros [= <- <- <-]; lia].
    unfold mbind, M_bind, bind.
    destruct (byte_to_sector ino offset st) as [[sec st1]| |]; [|done..].
    loop_pass size IH.
Qed.

Lemma write_loop_bound fuel ino buffer size offset bw bounce st n st' :
  write_loop fuel ino buffer size offset bw bounce st = Ok (n, st') ->
  bw <= n <= bw + Z.max 0 size.
Proof.
  revert size offset bw bounce st.
  induction fuel as [|fuel IH]; intros size offset bw bounce st; cbn [write_loop].
  - intros [= <- <-]. lia.
  - destruct (size >? 0) eqn:Hs; [|intros [= <- <-]; lia].
    unfold mbind, M_bind, bind.
    destruct (byte_to_sector ino offset st) as [[sec st1]| |]; [|done..].
    loop_pass size IH.
Qed.

(** X11. Neither copy loop moves more than it was asked to: the count
    [inode_read_at] or [inode_write_at] returns is never negative and
    never more than [size]. *)
Theorem transfer_count_bounded (p : nat) (buffer : list Z) (size offset : Z)
    (st : fs_state) :
  (forall n bytes st',
     inode_read_at p size offset st = Ok ((n, bytes), st') -> 0 <= n <= Z.max 0 size) /\
  (forall n st',
     inode_write_at p buffer size offset st = Ok (n, st') -> 0 <= n <= Z.max 0 size).
Proof.
  split.
  - intros n bytes st'. unfold inode_read_at, mbind, M_bind, bind.
    destruct (deref p st) as [[ino st1]| |]; [|done..].
    intros H. apply read_loop_bound in H. lia.
  - intros n st'. unfold inode_write_at, mbind, M_bind, bind.
    destruct (deref p st) as [[ino st1]| |]; [|done..].
    destruct (negb _); [intros [= <- <-]; lia|].
    destruct (byte_to_sector _ _ _) as [[sec st2]| |]; [|done..].
    destruct (sec =? NO_SECTOR); [done|].
    intros H. apply write_loop_bound in H. lia.
Qed.
End CopyLoops.

Lemma inode_write_at_empty_panics_witness :
  lookup_inode 0 (open_inodes sample_open_state) = Some sample_inode /\
  inode.deny_write_cnt sample_inode = 0 /\
  -2147483648 <= 0 + 0 - 1 < 0 /\
  inode_write_at 0 [] 0 0 sample_open_state = Panic "extendable fs not implement".
Proof.
  split; [reflexivity|]. split; [reflexivity|]. split; [lia|].
  apply (inode_write_at_empty_panics 0 sample_inode [] 0 0 sample_open_state);
    [reflexivity|reflexivity|lia].
Defined.

Lemma inode_read_at_past_end_witness :
  lookup_inode 0 (open_inodes sample_open_state) = Some sample_inode /\
  (0 <= inode_length sample_inode <= 512 /\ 512 <= INT_MAX) /\
  inode_read_at 0 10 512 sample_open_state = Ok ((0, []), sample_open_state).
Proof.
  split; [reflexivity|].
  assert (0 <= inode_length sample_inode <= 512 /\ 512 <= INT_MAX) as H
    by (vm_compute; split; [split|]; discriminate).
  split; [exact H|].
  apply (inode_read_at_past_end 0 sample_inode 10 512 sample_open_state);
    [reflexivity|right; exact H].
Defined.

Lemma transfer_count_bounded_witness :
  inode_read_at 0 512 0 sample_open_state
    = Ok ((512, sector_zero), state_after sample_read sample_state) /\
  0 <= 512 <= Z.max 0 512 /\
  inode_write_at 0 [7] 1 0 sample_open_state
    = Ok (1, state_after sample_write sample_state) /\
  0 <= 1 <= Z.max 0 1.
Proof.
  assert (inode_read_at 0 512 0 sample_open_state
          = Ok ((512, sector_zero), state_after sample_read sample_state)) as Hr
    by (vm_compute; reflexivity).
  assert (inode_write_at 0 [7] 1 0 sample_open_state
          = Ok (1, state_after sample_write sample_state)) as Hw
    by (vm_compute; reflexivity).
  split; [exact Hr|].
  split; [exact (proj1 (transfer_count_bounded 0 [7] 512 0 sample_open_state) _ _ _ Hr)|].
  split; [exact Hw|].
  exact (proj2 (transfer_count_bounded 0 [7] 1 0 sample_open_state) _ _ Hw).
Defined.

(** ** The direct tier of the block map *)

Lemma take_take_le {A} (l : list A) (n m : nat) :
  (n <= m)%nat -> take n (take m l) = take n l.
Proof. intros H. by rewrite take_take, Nat.min_l. Qed.

Lemma NO_SECTOR_value : NO_SECTOR = 4294967295.
Proof. reflexivity. Qed.

Lemma min_le_l a b : a <= b -> min a b = a.
Proof. unfold min. intros H. destruct (a <? b) eqn:E; [done|]. apply Z.ltb_ge in E. lia. Qed.

Lemma bytes_to_sectors_small size :
  0 <= size <= INT_MAX - 511 ->
  bytes_to_sectors size = (size + 511) / 512 /\
  512 * (bytes_to_sectors size - 1) < size <= 512 * bytes_to_sectors size.
Proof.
  intros H. unfold bytes_to_sectors, INT_MAX in *.
  destruct (DIV_ROUND_UP_ceiling to_int size BLOCK_SECTOR_SIZE) as [Heq Hb]; [lia|done| |].
  { apply to_int_small. unfold BLOCK_SECTOR_SIZE, INT_MAX. lia. }
  unfold BLOCK_SECTOR_SIZE in *. rewrite Heq in *.
  replace (size + 512 - 1) with (size + 511) in * by lia.
  assert (0 <= (size + 511) / 512 < UINT_MOD).
  { split; [apply Z.div_pos; lia|]. apply Z.div_lt_upper_bound; unfold UINT_MOD; lia. }
  rewrite to_uint_small by done. split; [done|lia].
Qed.

(** X12. [bytes_to_sectors] rounds up: for every size whose rounding does
    not overflow [off_t], it is the least number of 512-byte sectors that
    hold [size] bytes. *)
Theorem bytes_to_sectors_ceiling (size : Z) :
  0 <= size <= INT_MAX - 511 ->
  0 <= bytes_to_sectors size /\
  512 * (bytes_to_sectors size - 1) < size <= 512 * bytes_to_sectors size.
Proof.
  intros H. destruct (bytes_to_sectors_small size H) as [Heq Hb]. split; [|done].
  rewrite Heq. apply Z.div_pos; lia.
Qed.

Lemma bytes_to_sectors_ceiling_witness :
  0 <= 513 <= INT_MAX - 511 /\
  0 <= bytes_to_sectors 513 /\
  512 * (bytes_to_sectors 513 - 1) < 513 <= 512 * bytes_to_sectors 513.
Proof.
  assert (0 <= 513 <= INT_MAX - 511) as H by (unfold INT_MAX; lia).
  split; [exact H|]. exact (bytes_to_sectors_ceiling 513 H).
Defined.

Section DirectTier.
Context `{FM : FreeMap}.

Lemma free_map_allocate_None entry st :
  fm_allocate 1 (free_map st) = None ->
  free_map_allocate 1 entry st = Ok ((false, entry), st).
Proof. intros H. unfold free_map_allocate. by rewrite H. Qed.

Lemma of_option_Ok {A} (o : option A) (a : A) st : o = Some a -> of_option o st = Ok (a, st).
Proof. by intros ->. Qed.


Lemma released_app evs1 evs2 : released (evs1 ++ evs2) = released evs1 ++ released evs2.
Proof. apply omap_app. Qed.

(** The first loop of [inode_allocate]: entries [i] to [i + count - 1]
    take, in order, the sectors the free map hands out. *)
Lemma allocate_direct_spec count i blocks st :
  cache_wf (fs_cache st) -> (i + count <= List.length blocks)%nat ->
  exists blocks' st' evs,
    allocate_direct count i blocks st = Ok (blocks', st') /\
    cache_wf (fs_cache st') /\
    open_inodes st' = open_inodes st /\ heap_ok st' = heap_ok st /\
    heap_next st' = heap_next st /\
    trace st' = trace st ++ evs /\ released evs = [] /\
    List.length blocks' = List.length blocks /\
    take i blocks' = take i blocks /\
    drop (i + count) blocks' = drop (i + count) blocks /\
    (List.length (allocated evs) <= count)%nat /\
    (List.length (allocated evs) = count -> take count (drop i blocks') = allocated evs) /\
    (Forall (fun w => 0 <= w < UINT_MOD) blocks ->
     Forall (fun w => 0 <= w < UINT_MOD) blocks').
Proof.
  revert i blocks st. induction count as [|count IH]; intros i blocks st Hwf Hlen;
    cbn [allocate_direct].
  - exists blocks, st, []. rewrite app_nil_r. by rewrite Nat.add_0_r.
  - destruct (lookup_lt_is_Some_2 blocks i) as [entry He]; [lia|].
    rewrite (bind_Ok _ _ _ _ _ (of_option_Ok _ _ st He)).
    destruct (fm_allocate 1 (free_map st)) as [[s m]|] eqn:Hfm.
    + rewrite (bind_Ok _ _ _ _ _ (free_map_allocate_Ok entry st s m Hfm)).
      destruct (cache_write_Ok s sector_zero (log (EvAllocate s) (set_free_map m st)) Hwf)
        as (c1 & Hw & Hwf1 & _).
      rewrite (bind_Ok _ _ _ _ _ Hw).
      match type of Hw with _ = Ok (_, ?s2) =>
        destruct (IH (S i) (<[i:=s]> blocks) s2 Hwf1) as
        (blocks' & st' & evs & -> & Hwf' & Ho & Hh & Hn & Ht & Hr & Hl & Htk & Hdr & Hle & Heq & Hrg)
      end.
      { rewrite length_insert. lia. }
      exists blocks', st', ([EvAllocate s; EvCacheWrite s sector_zero] ++ evs).
      rewrite length_insert in Hl.
      split; [done|]. split; [done|]. split; [done|]. split; [done|]. split; [done|].
      split; [rewrite Ht; cbn; by rewrite <- !app_assoc|].
      split; [by rewrite released_app, Hr|]. split; [done|].
      assert (blocks' !! i = Some s) as Hi.
      { rewrite <- (lookup_take_lt blocks' (S i) i) by lia. rewrite Htk.
        rewrite lookup_take_lt by lia. apply list_lookup_insert_eq. lia. }
      split.
      { rewrite <- (take_take_le blocks' i (S i)) by lia. rewrite Htk.
        rewrite take_take_le by lia. apply take_insert_ge. lia. }
      split.
      { replace (i + S count)%nat with (S i + count)%nat by lia. rewrite Hdr.
        apply drop_insert_lt. lia. }
      assert (allocated ([EvAllocate s; EvCacheWrite s sector_zero] ++ evs)
              = s :: allocated evs) as -> by done.
      split; [cbn; lia|]. split.
      { intros Hall. cbn in Hall. injection Hall as Hall.
        rewrite (drop_S blocks' s i Hi). cbn [take]. f_equal. by apply Heq. }
      intros HF. apply Hrg. apply Forall_insert; [done|].
      pose proof (fm_allocate_range _ _ _ _ Hfm) as Hrange.
      rewrite NO_SECTOR_value in Hrange. unfold UINT_MOD. lia.
    + rewrite (bind_Ok _ _ _ _ _ (free_map_allocate_None entry st Hfm)).
      destruct (cache_write_Ok entry sector_zero st Hwf) as (c1 & Hw & Hwf1 & _).
      rewrite (bind_Ok _ _ _ _ _ Hw). rewrite (list_insert_id blocks i entry He).
      match type of Hw with _ = Ok (_, ?s2) =>
        destruct (IH (S i) blocks s2 Hwf1) as
        (blocks' & st' & evs & -> & Hwf' & Ho & Hh & Hn & Ht & Hr & Hl & Htk & Hdr & Hle & Heq & Hrg)
      end; [lia|].
      exists blocks', st', ([EvCacheWrite entry sector_zero] ++ evs).
      split; [done|]. split; [done|]. split; [done|]. split; [done|]. split; [done|].
      split; [rewrite Ht; cbn; by rewrite <- !app_assoc|].
      split; [by rewrite released_app, Hr|]. split; [done|].
      split.
      { rewrite <- (take_take_le blocks' i (S i)) by lia. rewrite Htk.
        by rewrite take_take_le by lia. }
      split.
      { replace (i + S count)%nat with (S i + count)%nat by lia. by rewrite Hdr. }
      assert (allocated ([EvCacheWrite entry sector_zero] ++ evs) = allocated evs) as ->
        by done.
      split; [lia|]. split; [lia|done].
Qed.
End DirectTier.

Section DirectTierFacts.
Context `{FM : FreeMap}.

Lemma bytes_to_sectors_direct length :
  0 <= length <= 124 * 512 ->
  0 <= bytes_to_sectors length <= 124 /\
  min (bytes_to_sectors length) DIRECT_BLOCKS = bytes_to_sectors length.
Proof.
  intros H. destruct (bytes_to_sectors_small length) as [Heq Hb]; [unfold INT_MAX; lia|].
  assert (0 <= bytes_to_sectors length <= 124) as Hn.
  { rewrite Heq. split; [apply Z.div_pos; lia|].
    apply Z.lt_succ_r, Z.div_lt_upper_bound; lia. }
  split; [done|]. apply min_le_l. unfold DIRECT_BLOCKS. lia.
Qed.

Lemma fresh_direct_blocks length :
  inode_disk.direct_blocks (fresh_disk_inode length) = replicate 124%nat 0.
Proof. reflexivity. Qed.

(** [inode_allocate] on a file that fits the direct tier: only the first
    loop runs. *)
Lemma inode_allocate_direct length st :
  cache_wf (fs_cache st) -> 0 <= length <= 124 * 512 ->
  exists blocks' st' evs,
    inode_allocate (fresh_disk_inode length) st
      = Ok ((true, inode_disk.set_direct_blocks blocks' (fresh_disk_inode length)), st') /\
    cache_wf (fs_cache st') /\
    open_inodes st' = open_inodes st /\ heap_ok st' = heap_ok st /\
    heap_next st' = heap_next st /\
    trace st' = trace st ++ evs /\ released evs = [] /\
    List.length blocks' = 124%nat /\
    drop (Z.to_nat (bytes_to_sectors length)) blocks'
      = replicate (124 - Z.to_nat (bytes_to_sectors length)) 0 /\
    (List.length (allocated evs) <= Z.to_nat (bytes_to_sectors length))%nat /\
    (List.length (allocated evs) = Z.to_nat (bytes_to_sectors length) ->
     take (Z.to_nat (bytes_to_sectors length)) blocks' = allocated evs) /\
    Forall (fun w => 0 <= w < UINT_MOD) blocks'.
Proof.
  intros Hwf Hlen. destruct (bytes_to_sectors_direct length Hlen) as [Hn Hmin].
  destruct (allocate_direct_spec (Z.to_nat (bytes_to_sectors length)) 0
              (inode_disk.direct_blocks (fresh_disk_inode length)) st Hwf)
    as (blocks' & st' & evs & Hrun & Hwf' & Ho & Hh & Hhn & Ht & Hr & Hl & _ & Hdr & Hle & Heq & Hrg).
  { rewrite fresh_direct_blocks, length_replicate. lia. }
  rewrite fresh_direct_blocks, length_replicate in *.
  exists blocks', st', evs. split.
  - unfold inode_allocate. change (inode_disk.length (fresh_disk_inode length)) with length.
    destruct (length <? 0) eqn:E; [apply Z.ltb_lt in E; lia|].
    rewrite Hmin, (bind_Ok _ _ _ _ _ Hrun), Z.sub_diag. done.
  - split; [done|]. split; [done|]. split; [done|]. split; [done|]. split; [done|].
    split; [done|]. split; [done|]. split.
    { rewrite Nat.add_0_l in Hdr. by rewrite Hdr, drop_replicate. }
    split; [done|]. split; [by rewrite drop_0 in Heq|].
    apply Hrg. apply Forall_replicate. unfold UINT_MOD. lia.
Qed.

(** The first loop of [inode_deallocate]: entries [i] to [i + count - 1]
    go back to the free map in order; the cache is not looked at. *)
Lemma deallocate_direct_spec count i blocks st :
  (i + count <= List.length blocks)%nat ->
  exists st',
    deallocate_direct count i blocks st = Ok (tt, st') /\
    fs_cache st' = fs_cache st /\ open_inodes st' = open_inodes st /\
    heap_ok st' = heap_ok st /\ heap_next st' = heap_next st /\
    trace st' = trace st ++ (EvRelease <$> take count (drop i blocks)).
Proof.
  revert i st. induction count as [|count IH]; intros i st Hlen; cbn [deallocate_direct].
  - exists st. by rewrite app_nil_r.
  - destruct (lookup_lt_is_Some_2 blocks i) as [entry He]; [lia|].
    rewrite (bind_Ok _ _ _ _ _ (of_option_Ok _ _ st He)).
    unfold free_map_release at 1.
    rewrite (bind_Ok (modify _) _ st tt _ eq_refl).
    match goal with |- context [deallocate_direct _ _ _ ?s2] =>
      destruct (IH (S i) s2) as (st' & -> & Hc & Ho & Hh & Hn & Ht) end; [lia|].
    exists st'. split; [done|]. split; [done|]. split; [done|]. split; [done|].
    split; [done|]. rewrite Ht, (drop_S blocks entry i He). cbn. by rewrite <- app_assoc.
Qed.

Lemma inode_deallocate_direct ino st :
  0 <= inode_length ino <= 124 * 512 ->
  (Z.to_nat (bytes_to_sectors (inode_length ino))
   <= List.length (inode_disk.direct_blocks (inode.data ino)))%nat ->
  exists st',
    inode_deallocate ino st = Ok (true, st') /\
    fs_cache st' = fs_cache st /\ open_inodes st' = open_inodes st /\
    heap_ok st' = heap_ok st /\ heap_next st' = heap_next st /\
    trace st' = trace st ++
      (EvRelease <$> take (Z.to_nat (bytes_to_sectors (inode_length ino)))
                       (inode_disk.direct_blocks (inode.data ino))).
Proof.
  intros Hlen Hblocks. unfold inode_length in *.
  destruct (bytes_to_sectors_direct _ Hlen) as [Hn Hmin].
  destruct (deallocate_direct_spec (Z.to_nat (bytes_to_sectors (inode_disk.length (inode.data ino))))
              0 (inode_disk.direct_blocks (inode.data ino)) st)
    as (st' & Hrun & Hrest); [lia|].
  exists st'. split; [|by rewrite drop_0 in Hrest].
  unfold inode_deallocate.
  destruct (_ <? 0) eqn:E; [apply Z.ltb_lt in E; lia|].
  rewrite Hmin, (bind_Ok _ _ _ _ _ Hrun), Z.sub_diag. done.
Qed.

Lemma released_releases l : released (EvRelease <$> l) = l.
Proof. induction l as [|x l IH]; [done|]. cbn. by rewrite <- IH at 2. Qed.

Lemma allocated_releases l : allocated (EvRelease <$> l) = [].
Proof. induction l as [|x l IH]; [done|]. by cbn. Qed.


(** X14. [inode_deallocate] on an inode of at most 124 sectors returns
    true after releasing exactly the first [bytes_to_sectors (length)]
    direct entries, in order, one sector each; it does not look at the
    cache and releases nothing else. *)
Theorem inode_deallocate_direct_tier (ino : inode.t) (st : fs_state) :
  0 <= inode_length ino <= 124 * 512 ->
  (Z.to_nat (bytes_to_sectors (inode_length ino))
   <= List.length (inode_disk.direct_blocks (inode.data ino)))%nat ->
  exists st' evs,
    inode_deallocate ino st = Ok (true, st') /\
    fs_cache st' = fs_cache st /\ open_inodes st' = open_inodes st /\
    trace st' = trace st ++ evs /\ allocated evs = [] /\
    released evs = take (Z.to_nat (bytes_to_sectors (inode_length ino)))
                     (inode_disk.direct_blocks (inode.data ino)).
Proof.
  intros Hlen Hblocks.
  destruct (inode_deallocate_direct ino st Hlen Hblocks) as (st' & Hrun & Hc & Ho & _ & _ & Ht).
  eexists st', _. split; [done|]. split; [done|]. split; [done|]. split; [exact Ht|].
  split; [apply allocated_releases|apply released_releases].
Qed.

End DirectTierFacts.


Lemma inode_deallocate_direct_tier_witness :
  0 <= inode_length (inode.mk 1 1 true 0 allocated_2) <= 124 * 512 /\
  exists st' evs,
    inode_deallocate (inode.mk 1 1 true 0 allocated_2) after_allocate_2 = Ok (true, st') /\
    fs_cache st' = fs_cache after_allocate_2 /\
    open_inodes st' = open_inodes after_allocate_2 /\
    trace st' = trace after_allocate_2 ++ evs /\ allocated evs = [] /\
    released evs = take (Z.to_nat (bytes_to_sectors (inode_length (inode.mk 1 1 true 0 allocated_2))))
                     (inode_disk.direct_blocks (inode.data (inode.mk 1 1 true 0 allocated_2))).
Proof.
  assert (0 <= inode_length (inode.mk 1 1 true 0 allocated_2) <= 124 * 512) as H
    by (vm_compute; split; discriminate).
  split; [exact H|].
  apply (inode_deallocate_direct_tier (inode.mk 1 1 true 0 allocated_2) after_allocate_2 H).
  vm_compute. lia.
Defined.


Section Exhaustion.
Context `{FM : FreeMap}.

(** The first loop of [inode_allocate] when the free map has nothing to
    give: every pass leaves its entry at 0 and writes zeros to sector 0. *)
Lemma allocate_direct_exhausted count i k st :
  cache_wf (fs_cache st) -> fm_allocate 1 (free_map st) = None -> (i + count <= k)%nat ->
  exists st',
    allocate_direct count i (replicate k 0) st = Ok (replicate k 0, st') /\
    cache_wf (fs_cache st') /\ free_map st' = free_map st /\
    open_inodes st' = open_inodes st /\ heap_ok st' = heap_ok st /\
    heap_next st' = heap_next st /\
    trace st' = trace st ++ replicate count (EvCacheWrite 0 sector_zero) /\
    (forall s, sector_content (fs_cache st') s =
               if (s =? 0) && negb (count =? 0)%nat then sector_zero
               else sector_content (fs_cache st) s).
Proof.
  revert i st. induction count as [|count IH]; intros i st Hwf Hfm Hlen;
    cbn [allocate_direct].
  - exists st. rewrite app_nil_r. do 7 (split; [done|]). intros s. by rewrite andb_false_r.
  - assert (replicate k 0 !! i = Some 0) as He by (apply lookup_replicate_2; lia).
    rewrite (bind_Ok _ _ _ _ _ (of_option_Ok _ _ st He)).
    rewrite (bind_Ok _ _ _ _ _ (free_map_allocate_None 0 st Hfm)).
    destruct (cache_write_Ok 0 sector_zero st Hwf) as (c1 & Hw & Hwf1 & Hc1).
    rewrite (bind_Ok _ _ _ _ _ Hw). rewrite (list_insert_id _ i 0 He).
    match type of Hw with _ = Ok (_, ?s2) =>
      destruct (IH (S i) s2 Hwf1 Hfm) as (st' & -> & Hwf' & Hm & Ho & Hh & Hn & Ht & Hc)
    end; [lia|].
    exists st'. do 6 (split; [done|]). split.
    { rewrite Ht. cbn. by rewrite <- app_assoc. }
    intros s. rewrite Hc. cbn [fs_cache log set_fs_cache]. rewrite Hc1.
    destruct (s =? 0); [|done]. by destruct (count =? 0)%nat.
Qed.

(** X16. [inode_allocate] does not look at the verdict of
    [free_map_allocate].  When the free map has no sector left, the
    creation of a file of 1 to 124 sectors still reports success: every
    block pointer of the record stays 0, nothing is taken from the free
    map, and sector 0 of the disk is overwritten with zeros. *)
Theorem inode_allocate_ignores_exhaustion (length sector : Z) (st : fs_state) :
  cache_wf (fs_cache st) -> fm_allocate 1 (free_map st) = None ->
  0 < length <= 124 * 512 ->
  exists st',
    inode_allocate (fresh_disk_inode length) st
      = Ok ((true, fresh_disk_inode length), st') /\
    free_map st' = free_map st /\
    trace st' = trace st ++
      replicate (Z.to_nat (bytes_to_sectors length)) (EvCacheWrite 0 sector_zero) /\
    sector_content (fs_cache st') 0 = sector_zero /\
    (forall s, s <> 0 -> sector_content (fs_cache st') s = sector_content (fs_cache st) s) /\
    (heap_ok st (heap_next st) = true ->
     exists st2, inode_create sector length st = Ok (true, st2)).
Proof.
  intros Hwf Hfm Hlen.
  assert (0 <= length <= 124 * 512) as Hlen' by lia.
  destruct (bytes_to_sectors_direct length Hlen') as [Hn Hmin].
  destruct (bytes_to_sectors_small length) as [_ Hb]; [unfold INT_MAX; lia|].
  assert (forall st0, cache_wf (fs_cache st0) -> free_map st0 = free_map st ->
            exists st',
              inode_allocate (fresh_disk_inode length) st0
                = Ok ((true, fresh_disk_inode length), st') /\
              cache_wf (fs_cache st') /\
              free_map st' = free_map st0 /\
              trace st' = trace st0 ++
                replicate (Z.to_nat (bytes_to_sectors length)) (EvCacheWrite 0 sector_zero) /\
              (forall s, sector_content (fs_cache st') s =
                         if (s =? 0) && negb (Z.to_nat (bytes_to_sectors length) =? 0)%nat
                         then sector_zero else sector_content (fs_cache st0) s)) as Hrun.
  { intros st0 Hwf0 Hfm0.
    destruct (allocate_direct_exhausted (Z.to_nat (bytes_to_sectors length)) 0 124 st0 Hwf0)
      as (st' & Hrun & Hwf' & Hm & _ & _ & _ & Ht & Hc); [by rewrite Hfm0|lia|].
    exists st'. split; [|done].
    unfold inode_allocate. change (inode_disk.length (fresh_disk_inode length)) with length.
    destruct (length <? 0) eqn:E; [apply Z.ltb_lt in E; lia|].
    rewrite Hmin, fresh_direct_blocks, (bind_Ok _ _ _ _ _ Hrun), Z.sub_diag. done. }
  assert ((Z.to_nat (bytes_to_sectors length) =? 0)%nat = false) as Hpos
    by (apply Nat.eqb_neq; lia).
  destruct (Hrun st Hwf eq_refl) as (st' & Hal & Hwf' & Hm & Ht & Hc).
  exists st'. do 3 (split; [done|]). split; [by rewrite Hc, Hpos|]. split.
  { intros s Hs. rewrite Hc. by apply Z.eqb_neq in Hs as ->. }
  intros Hheap. unfold inode_create.
  destruct (length <? 0) eqn:E; [apply Z.ltb_lt in E; lia|].
  rewrite (bind_Ok _ _ _ _ _ (malloc_Ok st)), Hheap.
  destruct (Hrun (set_heap_next (S (heap_next st)) st) Hwf eq_refl)
    as (st1 & Hal1 & Hwf1 & _).
  rewrite (bind_Ok _ _ _ _ _ Hal1).
  destruct (cache_write_Ok sector (inode_disk.to_bytes (fresh_disk_inode length)) st1 Hwf1)
    as (c2 & Hw & _).
  rewrite (bind_Ok _ _ _ _ _ Hw). by eexists.
Qed.
End Exhaustion.

Lemma inode_allocate_ignores_exhaustion_witness :
  cache_wf (fs_cache full_state) /\ fm_allocate 1 (free_map full_state) = None /\
  0 < 1024 <= 124 * 512 /\
  exists st',
    inode_allocate (fresh_disk_inode 1024) full_state
      = Ok ((true, fresh_disk_inode 1024), st') /\
    free_map st' = free_map full_state /\
    trace st' = trace full_state ++
      replicate (Z.to_nat (bytes_to_sectors 1024)) (EvCacheWrite 0 sector_zero) /\
    sector_content (fs_cache st') 0 = sector_zero /\
    (forall s, s <> 0 ->
       sector_content (fs_cache st') s = sector_content (fs_cache full_state) s) /\
    (heap_ok full_state (heap_next full_state) = true ->
     exists st2, inode_create 1 1024 full_state = Ok (true, st2)).
Proof.
  assert (cache_wf (fs_cache full_state)) as Hwf by apply fs_cache_init_wf.
  split; [exact Hwf|]. split; [reflexivity|]. split; [lia|].
  apply (inode_allocate_ignores_exhaustion 1024 1 full_state Hwf); [reflexivity|lia].
Defined.

Section CreateOpen.
Context `{FM : FreeMap}.

Lemma lookup_inode_head p ino (l : list (nat * inode.t)) :
  lookup_inode p ((p, ino) :: l) = Some ino.
Proof. unfold lookup_inode. cbn. by rewrite Nat.eqb_refl. Qed.

(** X17. What [inode_create] writes, [inode_open] reads back.  For a
    file of at most 124 sectors created at a sector that is not open,
    with the kernel allocator serving both requests, [inode_create]
    returns true and the following [inode_open] of the same sector
    returns a fresh in-memory inode for that sector, opened once, not
    removed, writable, carrying the magic number, the length asked for
    and null indirect pointers: its [data] is the sector's bytes. *)
Theorem inode_create_open_roundtrip (sector length : Z) (st : fs_state) :
  cache_wf (fs_cache st) -> 0 <= length <= 124 * 512 ->
  heap_ok st (heap_next st) = true -> heap_ok st (S (heap_next st)) = true ->
  (forall p ino, (p, ino) ∈ open_inodes st -> inode.sector ino <> sector) ->
  exists st1 p st2 ino,
    inode_create sector length st = Ok (true, st1) /\
    inode_open sector st1 = Ok (Some p, st2) /\
    lookup_inode p (open_inodes st2) = Some ino /\
    inode.sector ino = sector /\ inode.open_cnt ino = 1 /\
    inode.removed ino = false /\ inode.deny_write_cnt ino = 0 /\
    inode_length ino = length /\
    inode_disk.magic (inode.data ino) = INODE_MAGIC /\
    inode_disk.indirect_block (inode.data ino) = 0 /\
    inode_disk.double_indirect_block (inode.data ino) = 0 /\
    sector_content (fs_cache st2) sector = inode_disk.to_bytes (inode.data ino).
Proof.
  intros Hwf Hlen Hh1 Hh2 Hclosed.
  destruct (inode_allocate_direct length (set_heap_next (S (heap_next st)) st) Hwf Hlen)
    as (blocks' & stb & evs & Hal & Hwfb & Hob & Hhb & Hnb & _ & _ & Hl & _ & _ & _ & Hrg).
  set (d' := inode_disk.set_direct_blocks blocks' (fresh_disk_inode length)) in *.
  destruct (cache_write_Ok sector (inode_disk.to_bytes d') stb Hwfb) as (c1 & Hw & Hwf1 & Hc1).
  set (st1 := log (EvCacheWrite sector (inode_disk.to_bytes d')) (set_fs_cache c1 stb)) in *.
  assert (inode_create sector length st = Ok (true, st1)) as Hcreate.
  { unfold inode_create. destruct (length <? 0) eqn:E; [apply Z.ltb_lt in E; lia|].
    rewrite (bind_Ok _ _ _ _ _ (malloc_Ok st)), Hh1, (bind_Ok _ _ _ _ _ Hal).
    by rewrite (bind_Ok _ _ _ _ _ Hw). }
  assert (inode_disk.of_bytes (sector_content (fs_cache st1) sector) = d') as Hback.
  { cbn [st1 fs_cache log set_fs_cache]. rewrite Hc1, Z.eqb_refl.
    apply inode_disk_roundtrip.
    - done.
    - cbn. unfold INT_MAX. lia.
    - repeat apply Forall_cons_2; try done; cbn; unfold INODE_MAGIC, UINT_MOD; lia. }
  destruct (inode_open_new sector st1) as [[Hfail _]|(_ & c2 & Hwf2 & Hopen & Hc2)].
  - done.
  - intros p ino Hin. apply Hclosed with p. cbn in Hin. by rewrite Hob in Hin.
  - cbn in Hfail. rewrite Hhb, Hnb in Hfail. cbn in Hfail. congruence.
  - rewrite Hback in Hopen.
    eexists st1, _, _, (inode.mk sector 1 false 0 d'). split; [done|]. split; [exact Hopen|].
    split; [apply lookup_inode_head|]. do 8 (split; [done|]).
    cbn [fs_cache set_open_inodes set_fs_cache]. rewrite Hc2.
    cbn [st1 fs_cache log set_fs_cache]. by rewrite Hc1, Z.eqb_refl.
Qed.
End CreateOpen.

Lemma inode_create_open_roundtrip_witness :
  cache_wf (fs_cache sample_state) /\ 0 <= 1024 <= 124 * 512 /\
  exists st1 p st2 ino,
    inode_create 1 1024 sample_state = Ok (true, st1) /\
    inode_open 1 st1 = Ok (Some p, st2) /\
    lookup_inode p (open_inodes st2) = Some ino /\
    inode.sector ino = 1 /\ inode.open_cnt ino = 1 /\
    inode.removed ino = false /\ inode.deny_write_cnt ino = 0 /\
    inode_length ino = 1024 /\
    inode_disk.magic (inode.data ino) = INODE_MAGIC /\
    inode_disk.indirect_block (inode.data ino) = 0 /\
    inode_disk.double_indirect_block (inode.data ino) = 0 /\
    sector_content (fs_cache st2) 1 = inode_disk.to_bytes (inode.data ino).
Proof.
  assert (cache_wf (fs_cache sample_state)) as Hwf by apply fs_cache_init_wf.
  split; [exact Hwf|]. split; [lia|].
  apply (inode_create_open_roundtrip 1 1024 sample_state Hwf);
    [lia|reflexivity|reflexivity|].
  intros p ino Hin. cbn in Hin. by apply elem_of_nil in Hin.
Defined.

(** ** Round trips at the open-inode registry *)

Lemma lookup_update_at p f (l : list (nat * inode.t)) :
  lookup_inode p (update_at p f <$> l) = f <$> lookup_inode p l.
Proof.
  unfold lookup_inode. induction l as [|[q i] l IH]; [done|].
  rewrite fmap_cons. cbn [List.find]. unfold update_at at 1. cbn [fst snd].
  destruct (Nat.eqb q p) eqn:E; cbn [fst snd]; rewrite E; [|apply IH].
  unfold update_at. cbn. by rewrite E.
Qed.

Lemma lookup_filter_out p (l : list (nat * inode.t)) :
  lookup_inode p (List.filter (fun e => negb (Nat.eqb (fst e) p)) l) = None.
Proof.
  unfold lookup_inode. induction l as [|[q i] l IH]; [done|].
  cbn. destruct (Nat.eqb q p) eqn:E; cbn; [done|]. by rewrite E.
Qed.

Lemma filter_out_fresh p (l : list (nat * inode.t)) :
  (forall q i, (q, i) ∈ l -> q <> p) ->
  List.filter (fun e => negb (Nat.eqb (fst e) p)) l = l.
Proof.
  induction l as [|[q i] l IH]; intros H; [done|]. cbn.
  assert (Nat.eqb q p = false) as -> by (apply Nat.eqb_neq, (H q i); left).
  cbn. f_equal. apply IH. intros q' i' Hin. apply (H q' i'). by right.
Qed.

Lemma update_at_twice_id p f g ino (l : list (nat * inode.t)) :
  NoDup (fst <$> l) -> lookup_inode p l = Some ino -> f (g ino) = ino ->
  update_at p f <$> (update_at p g <$> l) = l.
Proof.
  intros Hnd Hp Hfg. apply lookup_inode_Some in Hp.
  apply list_eq. intros k. rewrite !list_lookup_fmap.
  destruct (l !! k) as [[q x]|] eqn:E; [|done]. cbn. f_equal.
  unfold update_at. cbn. destruct (Nat.eqb q p) eqn:Eq; cbn; rewrite ?Eq; [|done].
  apply Nat.eqb_eq in Eq. subst q.
  assert ((p, x) = (p, ino)) as [= ->]; [|by rewrite Hfg].
  apply (NoDup_fmap_eq fst l); [done| |done|done]. by apply list_elem_of_lookup_2 in E.
Qed.

Section RegistryRoundTrips.
Context `{FM : FreeMap}.

Lemma set_open_inodes_same st l st0 :
  l = open_inodes st -> fs_cache st0 = fs_cache st -> free_map st0 = free_map st ->
  heap_ok st0 = heap_ok st -> heap_next st0 = heap_next st -> trace st0 = trace st ->
  set_open_inodes l st0 = st.
Proof. destruct st, st0. cbn. by intros -> -> -> -> -> ->. Qed.

(** X18. Opening an inode and closing it again leaves the registry as it
    was, whether or not the sector was open before: the new record is
    taken off the list again, or the count goes up by one and back.
    Nothing is released and nothing is written. *)
Theorem inode_open_close_roundtrip (cnt : Z -> Z) (st : fs_state) (sector : Z) :
  registry_ok cnt st -> cnt sector < INT_MAX ->
  heap_ok st (heap_next st) = true ->
  exists p st1 st2,
    inode_open sector st = Ok (Some p, st1) /\
    inode_close (Some p) st1 = Ok (tt, st2) /\
    open_inodes st2 = open_inodes st /\ free_map st2 = free_map st /\
    trace st2 = trace st /\
    (forall s, sector_content (fs_cache st2) s = sector_content (fs_cache st) s).
Proof.
  intros Hok Hcnt Hheap.
  destruct (registry_find cnt st sector Hok) as [(p & ino & Hin & Hsec)|Hnone].
  - destruct (reg_counts cnt st Hok p ino Hin) as (Hc & Hpos & Hrem).
    pose proof (inode_open_existing sector p ino st (reg_handles cnt st Hok)
                  (reg_sectors cnt st Hok) Hin Hsec) as Hopen.
    pose proof (lookup_inode_elem _ p ino (reg_handles cnt st Hok) Hin) as Hlook.
    rewrite Hsec in Hc.
    assert (to_int (inode.open_cnt ino + 1) = inode.open_cnt ino + 1) as Hup
      by (apply to_int_small; unfold INT_MAX in *; lia).
    rewrite Hup in Hopen.
    eexists p, _, _. split; [exact Hopen|]. split.
    + apply inode_close_Ok.
      * cbn [open_inodes set_open_inodes]. rewrite lookup_update_at, Hlook. done.
      * by destruct ino.
    + assert (to_int (inode.open_cnt (inode.set_open_cnt (inode.open_cnt ino + 1) ino) - 1)
              = inode.open_cnt ino) as ->.
      { cbn. rewrite to_int_small by (unfold INT_MAX in *; lia). lia. }
      destruct (inode.open_cnt ino =? 0) eqn:E; [apply Z.eqb_eq in E; lia|].
      cbn [open_inodes set_open_inodes free_map trace fs_cache].
      split; [|done].
      apply (update_at_twice_id p _ _ ino); [apply (reg_handles cnt st Hok)|done|].
      by destruct ino.
  - destruct (inode_open_new sector st (reg_cache cnt st Hok) Hnone)
      as [[Hfail _]|(_ & c' & Hwf' & Hopen & Hc')]; [congruence|].
    eexists (heap_next st), _, _. split; [exact Hopen|]. split.
    + apply inode_close_Ok; [apply lookup_inode_head|done].
    + cbn [inode.open_cnt]. change (to_int (1 - 1) =? 0) with true. cbv iota.
      cbn [open_inodes set_open_inodes free_map trace fs_cache set_fs_cache set_heap_next].
      split; [|done]. cbn [List.filter fst]. rewrite Nat.eqb_refl. cbn [negb].
      apply filter_out_fresh. intros q i Hq.
      pose proof (reg_fresh cnt st Hok q i Hq). lia.
Qed.

(** X19. Deletion is deferred to the last close.  [inode_remove] only
    sets the flag: nothing is released and the inode stays open.  A
    later [inode_close] by any opener but the last releases nothing
    either; the close by the last opener takes the inode off the list
    and gives back first the inode's own sector and then (for a file of
    at most 124 sectors) its data sectors in order. *)
Theorem inode_remove_deferred (p : nat) (ino : inode.t) (st : fs_state) :
  lookup_inode p (open_inodes st) = Some ino ->
  0 <= inode_length ino <= 124 * 512 ->
  (Z.to_nat (bytes_to_sectors (inode_length ino))
   <= List.length (inode_disk.direct_blocks (inode.data ino)))%nat ->
  exists st1,
    inode_remove p st = Ok (tt, st1) /\
    trace st1 = trace st /\ free_map st1 = free_map st /\ fs_cache st1 = fs_cache st /\
    lookup_inode p (open_inodes st1) = Some (inode.set_removed true ino) /\
    (1 < inode.open_cnt ino <= INT_MAX ->
     exists st2,
       inode_close (Some p) st1 = Ok (tt, st2) /\ trace st2 = trace st /\
       free_map st2 = free_map st /\
       lookup_inode p (open_inodes st2)
         = Some (inode.set_open_cnt (inode.open_cnt ino - 1) (inode.set_removed true ino))) /\
    (inode.open_cnt ino = 1 ->
     exists st2,
       inode_close (Some p) st1 = Ok (tt, st2) /\
       lookup_inode p (open_inodes st2) = None /\
       trace st2 = trace st ++
         EvRelease (inode.sector ino)
           :: (EvRelease <$> take (Z.to_nat (bytes_to_sectors (inode_length ino)))
                                (inode_disk.direct_blocks (inode.data ino)))).
Proof.
  intros Hp Hlen Hblocks.
  set (st1 := set_open_inodes (update_at p (inode.set_removed true) <$> open_inodes st) st).
  assert (lookup_inode p (open_inodes st1) = Some (inode.set_removed true ino)) as Hp1.
  { cbn [st1 open_inodes set_open_inodes]. by rewrite lookup_update_at, Hp. }
  exists st1. split.
  { unfold inode_remove. by rewrite (bind_Ok _ _ _ _ _ (deref_Ok _ _ _ Hp)). }
  do 4 (split; [done|]). split.
  - intros Hcnt.
    assert (to_int (inode.open_cnt ino - 1) = inode.open_cnt ino - 1) as Hdown
      by (apply to_int_small; unfold INT_MAX in *; lia).
    eexists. split.
    + unfold inode_close. rewrite (bind_Ok _ _ _ _ _ (deref_Ok _ _ _ Hp1)).
      change (inode.open_cnt (inode.set_removed true ino)) with (inode.open_cnt ino).
      rewrite Hdown. unfold update_inode at 1.
      rewrite (bind_Ok (modify _) _ st1 tt _ eq_refl).
      destruct (inode.open_cnt ino - 1 =? 0) eqn:E; [apply Z.eqb_eq in E; lia|]. done.
    + split; [done|]. split; [done|].
      cbn [open_inodes set_open_inodes]. by rewrite lookup_update_at, Hp1.
  - intros Hone.
    set (l2 := List.filter (fun e => negb (Nat.eqb (fst e) p))
                 (update_at p (inode.set_open_cnt 0) <$> open_inodes st1)).
    set (st2 := log (EvRelease (inode.sector ino))
                  (set_free_map (fm_release (inode.sector ino) 1 (free_map st1))
                     (set_open_inodes l2 st1))).
    destruct (inode_deallocate_direct (inode.set_removed true ino) st2)
      as (st3 & Hde & _ & Ho3 & _ & _ & Ht3); [by destruct ino|by destruct ino|].
    exists st3. split.
    + unfold inode_close. rewrite (bind_Ok _ _ _ _ _ (deref_Ok _ _ _ Hp1)).
      change (inode.open_cnt (inode.set_removed true ino)) with (inode.open_cnt ino).
      rewrite Hone. change (to_int (1 - 1)) with 0. unfold update_inode at 1.
      rewrite (bind_Ok (modify _) _ st1 tt _ eq_refl). cbn [Z.eqb].
      rewrite (bind_Ok (modify _) _ _ tt _ eq_refl).
      cbn [inode.removed inode.set_removed]. unfold free_map_release at 1.
      rewrite (bind_Ok (modify _) _ _ tt _ eq_refl).
      change (inode.sector (inode.set_removed true ino)) with (inode.sector ino).
      by rewrite (bind_Ok _ _ _ _ _ Hde).
    + split.
      * rewrite Ho3. cbn [st2 open_inodes log set_free_map set_open_inodes l2].
        apply lookup_filter_out.
      * rewrite Ht3. cbn [st2 st1 trace log set_free_map set_open_inodes].
        rewrite <- app_assoc. by destruct ino.
Qed.

(** X20. [inode_deny_write] and [inode_allow_write] undo each other: an
    opener that may still deny writes can do so, and allowing them again
    gives back the very state it started from.  Denying more often than
    the inode is open, or allowing writes nobody denied, fails the
    assertion and halts the kernel. *)
Theorem inode_deny_allow_roundtrip (p : nat) (ino : inode.t) (st : fs_state) :
  NoDup (fst <$> open_inodes st) ->
  lookup_inode p (open_inodes st) = Some ino ->
  0 <= inode.deny_write_cnt ino < INT_MAX ->
  (inode.deny_write_cnt ino < inode.open_cnt ino ->
   exists st1,
     inode_deny_write p st = Ok (tt, st1) /\
     lookup_inode p (open_inodes st1)
       = Some (inode.set_deny_write_cnt (inode.deny_write_cnt ino + 1) ino) /\
     inode_allow_write p st1 = Ok (tt, st)) /\
  (inode.open_cnt ino <= inode.deny_write_cnt ino ->
   inode_deny_write p st
     = Panic "assertion `inode->deny_write_cnt <= inode->open_cnt' failed") /\
  (inode.deny_write_cnt ino = 0 ->
   inode_allow_write p st = Panic "assertion `inode->deny_write_cnt > 0' failed").
Proof.
  intros Hnd Hp Hrange.
  assert (to_int (inode.deny_write_cnt ino + 1) = inode.deny_write_cnt ino + 1) as Hup
    by (apply to_int_small; unfold INT_MAX in *; lia).
  split; [|split].
  - intros Hlt.
    set (st1 := set_open_inodes
                  (update_at p (inode.set_deny_write_cnt (inode.deny_write_cnt ino + 1))
                     <$> open_inodes st) st).
    assert (lookup_inode p (open_inodes st1)
            = Some (inode.set_deny_write_cnt (inode.deny_write_cnt ino + 1) ino)) as Hp1.
    { cbn [st1 open_inodes set_open_inodes]. by rewrite lookup_update_at, Hp. }
    exists st1. split; [|split; [done|]].
    + unfold inode_deny_write. rewrite (bind_Ok _ _ _ _ _ (deref_Ok _ _ _ Hp)), Hup.
      unfold update_inode at 1. rewrite (bind_Ok (modify _) _ st tt _ eq_refl).
      destruct (_ <=? _) eqn:E; [done|]. apply Z.leb_gt in E. lia.
    + unfold inode_allow_write. rewrite (bind_Ok _ _ _ _ _ (deref_Ok _ _ _ Hp1)).
      cbn [inode.deny_write_cnt inode.open_cnt inode.set_deny_write_cnt].
      destruct (_ >? 0) eqn:E1; [|rewrite Z.gtb_ltb in E1; apply Z.ltb_ge in E1; lia].
      destruct (_ <=? _) eqn:E2; [|apply Z.leb_gt in E2; lia].
      cbn [negb]. unfold update_inode, modify. do 2 f_equal.
      apply set_open_inodes_same; try done.
      cbn [st1 open_inodes set_open_inodes].
      apply (update_at_twice_id p _ _ ino); [done|done|].
      replace (inode.deny_write_cnt ino + 1 - 1) with (inode.deny_write_cnt ino) by lia.
      rewrite to_int_small by (unfold INT_MAX in *; lia). by destruct ino.
  - intros Hge. unfold inode_deny_write.
    rewrite (bind_Ok _ _ _ _ _ (deref_Ok _ _ _ Hp)), Hup.
    unfold update_inode at 1. rewrite (bind_Ok (modify _) _ st tt _ eq_refl).
    destruct (_ <=? _) eqn:E; [|done]. apply Z.leb_le in E. lia.
  - intros Hzero. unfold inode_allow_write.
    rewrite (bind_Ok _ _ _ _ _ (deref_Ok _ _ _ Hp)), Hzero. done.
Qed.
End RegistryRoundTrips.

(** ** Reading back what was written *)

Section WriteRead.
Context `{FM : FreeMap}.

Lemma write_loop_done fuel ino buffer size offset bw bounce st :
  size <= 0 -> write_loop fuel ino buffer size offset bw bounce st = Ok (bw, st).
Proof.
  intros H. destruct fuel; cbn [write_loop]; [done|].
  destruct (size >? 0) eqn:E; [apply Z.gtb_lt in E; lia|done].
Qed.

Lemma read_loop_done fuel ino buffer size offset br bounce st :
  size <= 0 -> read_loop fuel ino buffer size offset br bounce st = Ok ((br, buffer), st).
Proof.
  intros H. destruct fuel; cbn [read_loop]; [done|].
  destruct (size >? 0) eqn:E; [apply Z.gtb_lt in E; lia|done].
Qed.

Lemma index_to_sector_direct disk index d st :
  0 <= index < 124 ->
  inode_disk.direct_blocks disk !! Z.to_nat index = Some d ->
  index_to_sector disk index st = Ok (d, st).
Proof.
  intros Hi Hd. unfold index_to_sector. change (0 + DIRECT_BLOCKS) with 124.
  destruct (index <? 124) eqn:E; [|apply Z.ltb_ge in E; lia].
  unfold array_get. destruct (index <? 0) eqn:E0; [apply Z.ltb_lt in E0; lia|].
  by rewrite Hd.
Qed.

(** Within a sector: the chunk of a pass is all of [size]. *)
Lemma chunk_within_sector (len size offset : Z) :
  0 <= offset -> 0 < size -> offset + size <= len <= INT_MAX ->
  Z.rem offset 512 + size <= 512 ->
  (if size <? (if to_int (len - offset) <? 512 - Z.rem offset 512
               then to_int (len - offset) else 512 - Z.rem offset 512)
   then size
   else if to_int (len - offset) <? 512 - Z.rem offset 512
        then to_int (len - offset) else 512 - Z.rem offset 512) = size.
Proof.
  intros Ho Hs Hl Hr. rewrite to_int_small by (unfold INT_MAX in *; lia).
  destruct (len - offset <? 512 - Z.rem offset 512) eqn:E1;
    destruct (size <? _) eqn:E2; reflect_comparisons; lia.
Qed.

Lemma same_sector_index (size offset : Z) :
  0 <= offset -> 0 < size -> Z.rem offset 512 + size <= 512 ->
  (offset + size - 1) / 512 = offset / 512.
Proof.
  intros Ho Hs Hr. rewrite Z.rem_mod_nonneg in Hr by lia.
  pose proof (Z.div_mod offset 512 ltac:(lia)) as Hdm.
  pose proof (Z.mod_pos_bound offset 512 ltac:(lia)) as Hm.
  symmetry. apply (Z.div_unique _ _ _ (offset mod 512 + size - 1)); lia.
Qed.
End WriteRead.

Section WriteReadMain.
Context `{FM : FreeMap}.

Lemma write_within_sector p ino buffer size offset d st :
  cache_wf (fs_cache st) ->
  lookup_inode p (open_inodes st) = Some ino ->
  inode.deny_write_cnt ino = 0 ->
  0 <= offset -> 0 < size -> offset + size <= inode_length ino <= 124 * 512 ->
  Z.rem offset 512 + size <= 512 ->
  inode_disk.direct_blocks (inode.data ino) !! Z.to_nat (offset / 512) = Some d ->
  d <> NO_SECTOR ->
  Z.of_nat (List.length buffer) = size ->
  List.length (sector_content (fs_cache st) d) = 512%nat ->
  heap_ok st (heap_next st) = true ->
  exists st1,
    inode_write_at p buffer size offset st = Ok (size, st1) /\
    cache_wf (fs_cache st1) /\ open_inodes st1 = open_inodes st /\
    heap_ok st1 = heap_ok st /\
    (heap_next st1 = heap_next st \/ heap_next st1 = S (heap_next st)) /\
    (forall s, sector_content (fs_cache st1) s =
       if s =? d
       then memcpy_at (sector_content (fs_cache st) d) (Z.to_nat (Z.rem offset 512)) buffer
       else sector_content (fs_cache st) s).
Proof.
  intros Hwf Hp Hdeny Ho Hs Hlen Hrem Hd Hnot Hbuf Hsec Hheap.
  unfold inode_length in Hlen.
  assert (0 <= offset / 512 < 124) as Hidx.
  { split; [apply Z.div_pos; lia|]. apply Z.div_lt_upper_bound; lia. }
  assert (forall pos st0, 0 <= pos < inode_disk.length (inode.data ino) ->
            pos / 512 = offset / 512 -> byte_to_sector ino pos st0 = Ok (d, st0)) as Hbts.
  { intros pos st0 Hpos Hsame. rewrite byte_to_sector_inside by done.
    change BLOCK_SECTOR_SIZE with 512. rewrite Hsame. by apply index_to_sector_direct. }
  unfold inode_write_at. rewrite (bind_Ok _ _ _ _ _ (deref_Ok _ _ _ Hp)), Hdeny.
  cbn [Z.eqb negb].
  rewrite (bind_Ok _ _ st d st).
  2:{ rewrite to_int_small by (unfold INT_MAX; lia).
      apply Hbts; [lia|by apply same_sector_index]. }
  destruct (d =? NO_SECTOR) eqn:E; [apply Z.eqb_eq in E; done|]. clear E.
  destruct (Z.to_nat size) as [|fuel] eqn:Hfuel; [lia|]. cbn [write_loop].
  destruct (size >? 0) eqn:E; [|rewrite Z.gtb_ltb in E; apply Z.ltb_ge in E; lia]. clear E.
  rewrite (bind_Ok _ _ st d st) by (apply Hbts; [lia|done]).
  change BLOCK_SECTOR_SIZE with 512. unfold inode_length.
  rewrite !(chunk_within_sector (inode_disk.length (inode.data ino)) size offset)
    by (unfold INT_MAX; lia).
  destruct (size <=? 0) eqn:E; [apply Z.leb_le in E; lia|]. clear E.
  change (Z.to_nat 0) with 0%nat. rewrite drop_0, Z.sub_diag.
  replace (take (Z.to_nat size) buffer) with buffer by (symmetry; apply take_ge; lia).
  assert (0 <= Z.rem offset 512 < 512) as Hr0 by (apply Z.rem_bound_pos; lia).
  destruct ((Z.rem offset 512 =? 0) && (size =? 512)) eqn:Hfull.
  - apply andb_prop in Hfull as [Ho0%Z.eqb_eq Hs512%Z.eqb_eq].
    destruct (cache_write_Ok d buffer st Hwf) as (c1 & Hw & Hwf1 & Hc1).
    rewrite (bind_Ok _ _ _ _ _ Hw), write_loop_done by lia.
    eexists. split; [done|]. cbn [fs_cache open_inodes heap_ok heap_next log set_fs_cache].
    do 3 (split; [done|]). split; [by left|].
    intros s. rewrite Hc1. destruct (s =? d); [|done].
    rewrite Ho0. unfold memcpy_at. cbn [Z.to_nat take app Nat.add].
    rewrite drop_ge by lia. by rewrite app_nil_r.
  - rewrite (bind_Ok _ _ _ _ _ (malloc_Ok st)), Hheap. cbn [negb].
    assert (((Z.rem offset 512 >? 0) || (size <? 512 - Z.rem offset 512)) = true) as ->.
    { apply orb_true_iff. apply andb_false_iff in Hfull as [E|E]; apply Z.eqb_neq in E.
      - left. apply Z.gtb_lt. lia.
      - destruct (Z.rem offset 512 >? 0) eqn:E1; [by left|right].
        rewrite Z.gtb_ltb in E1. apply Z.ltb_ge in E1. apply Z.ltb_lt. lia. }
    destruct (cache_read_Ok d (set_heap_next (S (heap_next st)) st) Hwf)
      as (c1 & Hr & Hwf1 & Hc1).
    rewrite (bind_Ok _ _ _ _ _ Hr).
    destruct (Z.rem offset 512 <? 0) eqn:E; [apply Z.ltb_lt in E; lia|]. clear E.
    match goal with |- context [cache_write d ?b] =>
      destruct (cache_write_Ok d b (set_fs_cache c1 (set_heap_next (S (heap_next st)) st)) Hwf1)
        as (c2 & Hw & Hwf2 & Hc2)
    end.
    rewrite (bind_Ok _ _ _ _ _ Hw), write_loop_done by lia.
    eexists. split; [done|]. cbn [fs_cache open_inodes heap_ok heap_next log set_fs_cache
                                  set_heap_next].
    do 3 (split; [done|]). split; [by right|].
    intros s. rewrite Hc2. cbn [fs_cache set_fs_cache]. rewrite Hc1.
    by cbn [fs_cache set_heap_next].
Qed.

Lemma read_within_sector p ino size offset d st :
  cache_wf (fs_cache st) ->
  lookup_inode p (open_inodes st) = Some ino ->
  0 <= offset -> 0 < size -> offset + size <= inode_length ino <= 124 * 512 ->
  Z.rem offset 512 + size <= 512 ->
  inode_disk.direct_blocks (inode.data ino) !! Z.to_nat (offset / 512) = Some d ->
  List.length (sector_content (fs_cache st) d) = 512%nat ->
  heap_ok st (heap_next st) = true ->
  exists st1,
    inode_read_at p size offset st
      = Ok ((size, take (Z.to_nat size)
                     (drop (Z.to_nat (Z.rem offset 512)) (sector_content (fs_cache st) d))),
            st1).
Proof.
  intros Hwf Hp Ho Hs Hlen Hrem Hd Hsec Hheap.
  unfold inode_length in Hlen.
  assert (0 <= offset / 512 < 124) as Hidx.
  { split; [apply Z.div_pos; lia|]. apply Z.div_lt_upper_bound; lia. }
  assert (byte_to_sector ino offset st = Ok (d, st)) as Hbts.
  { rewrite byte_to_sector_inside by lia.
    change BLOCK_SECTOR_SIZE with 512. by apply index_to_sector_direct. }
  unfold inode_read_at. rewrite (bind_Ok _ _ _ _ _ (deref_Ok _ _ _ Hp)).
  destruct (Z.to_nat size) as [|fuel] eqn:Hfuel; [lia|]. cbn [read_loop].
  destruct (size >? 0) eqn:E; [|rewrite Z.gtb_ltb in E; apply Z.ltb_ge in E; lia]. clear E.
  rewrite (bind_Ok _ _ _ _ _ Hbts).
  change BLOCK_SECTOR_SIZE with 512. unfold inode_length.
  rewrite !(chunk_within_sector (inode_disk.length (inode.data ino)) size offset)
    by (unfold INT_MAX; lia).
  destruct (size <=? 0) eqn:E; [apply Z.leb_le in E; lia|]. clear E.
  rewrite Z.sub_diag.
  assert (0 <= Z.rem offset 512 < 512) as Hr0 by (apply Z.rem_bound_pos; lia).
  destruct ((Z.rem offset 512 =? 0) && (size =? 512)) eqn:Hfull.
  - apply andb_prop in Hfull as [Ho0%Z.eqb_eq Hs512%Z.eqb_eq].
    destruct (cache_read_Ok d st Hwf) as (c1 & Hr & Hwf1 & Hc1).
    rewrite (bind_Ok _ _ _ _ _ Hr), read_loop_done by lia.
    eexists. rewrite Ho0. change (Z.to_nat 0) with 0%nat.
    rewrite drop_0, take_ge by lia. reflexivity.
  - rewrite (bind_Ok _ _ _ _ _ (malloc_Ok st)), Hheap. cbn [negb].
    destruct (cache_read_Ok d (set_heap_next (S (heap_next st)) st) Hwf)
      as (c1 & Hr & Hwf1 & Hc1).
    rewrite (bind_Ok _ _ _ _ _ Hr).
    destruct (Z.rem offset 512 <? 0) eqn:E; [apply Z.ltb_lt in E; lia|]. clear E.
    rewrite read_loop_done by lia. eexists. rewrite <- Hfuel. reflexivity.
Qed.

(** X21. What [inode_write_at] writes, [inode_read_at] reads back: for a
    stretch of bytes that lies within the file, within one sector and
    within the direct tier, the write stores all [size] bytes, a read of
    the same stretch returns exactly them, the other bytes of that
    sector stay as they were and no other sector changes. *)
Theorem inode_write_then_read (p : nat) (ino : inode.t) (buffer : list Z)
    (size offset d : Z) (st : fs_state) :
  cache_wf (fs_cache st) ->
  lookup_inode p (open_inodes st) = Some ino ->
  inode.deny_write_cnt ino = 0 ->
  0 <= offset -> 0 < size -> offset + size <= inode_length ino <= 124 * 512 ->
  Z.rem offset 512 + size <= 512 ->
  inode_disk.direct_blocks (inode.data ino) !! Z.to_nat (offset / 512) = Some d ->
  d <> NO_SECTOR ->
  Z.of_nat (List.length buffer) = size ->
  List.length (sector_content (fs_cache st) d) = 512%nat ->
  heap_ok st (heap_next st) = true -> heap_ok st (S (heap_next st)) = true ->
  exists st1 st2,
    inode_write_at p buffer size offset st = Ok (size, st1) /\
    inode_read_at p size offset st1 = Ok ((size, buffer), st2) /\
    sector_content (fs_cache st1) d
      = take (Z.to_nat (Z.rem offset 512)) (sector_content (fs_cache st) d)
          ++ buffer
          ++ drop (Z.to_nat (Z.rem offset 512 + size)) (sector_content (fs_cache st) d) /\
    (forall s, s <> d -> sector_content (fs_cache st1) s = sector_content (fs_cache st) s).
Proof.
  intros Hwf Hp Hdeny Ho Hs Hlen Hrem Hd Hnot Hbuf Hsec Hh1 Hh2.
  assert (0 <= Z.rem offset 512 < 512) as Hr0 by (apply Z.rem_bound_pos; lia).
  destruct (write_within_sector p ino buffer size offset d st)
    as (st1 & Hw & Hwf1 & Ho1 & Hk1 & Hn1 & Hc1); try done.
  assert (sector_content (fs_cache st1) d
          = take (Z.to_nat (Z.rem offset 512)) (sector_content (fs_cache st) d)
              ++ buffer
              ++ drop (Z.to_nat (Z.rem offset 512 + size)) (sector_content (fs_cache st) d))
    as Hd1.
  { rewrite Hc1, Z.eqb_refl. unfold memcpy_at. do 3 f_equal. lia. }
  destruct (read_within_sector p ino size offset d st1) as (st2 & Hr); try done.
  { by rewrite Ho1. }
  { rewrite Hd1, !length_app, length_take, length_drop. lia. }
  { rewrite Hk1. by destruct Hn1 as [->| ->]. }
  exists st1, st2. split; [done|]. split.
  - rewrite Hr. do 3 f_equal. rewrite Hd1.
    rewrite drop_app_length'; [|rewrite length_take; lia].
    rewrite take_app_length'; [done|lia].
  - split; [done|]. intros s Hne. rewrite Hc1. by apply Z.eqb_neq in Hne as ->.
Qed.
End WriteReadMain.


Section Inumber.
Context `{FM : FreeMap}.

(** X22. The handle [inode_open] returns stands for the sector asked
    for: on a registry in its normal state, whether the inode was
    already open or has just been read in, [inode_get_inumber] of the
    handle is that sector and the record under the handle is open. *)
Theorem inode_get_inumber_of_open (cnt : Z -> Z) (st : fs_state) (sector : Z)
    (p : nat) (st1 : fs_state) :
  registry_ok cnt st -> cnt sector < INT_MAX ->
  inode_open sector st = Ok (Some p, st1) ->
  inode_get_inumber p st1 = Ok (sector, st1) /\
  exists ino,
    lookup_inode p (open_inodes st1) = Some ino /\ inode.sector ino = sector /\
    inode.open_cnt ino = cnt sector + 1.
Proof.
  intros Hok Hcnt Hopen.
  assert (exists ino, lookup_inode p (open_inodes st1) = Some ino /\
                      inode.sector ino = sector /\ inode.open_cnt ino = cnt sector + 1)
    as (ino & Hp & Hsec & Hc).
  { destruct (registry_find cnt st sector Hok) as [(q & ino & Hin & Hsec)|Hnone].
    - destruct (reg_counts cnt st Hok q ino Hin) as (Hc & Hpos & Hrem).
      rewrite (inode_open_existing sector q ino st (reg_handles cnt st Hok)
                 (reg_sectors cnt st Hok) Hin Hsec) in Hopen.
      injection Hopen as <- <-.
      pose proof (lookup_inode_elem _ q ino (reg_handles cnt st Hok) Hin) as Hlook.
      eexists. cbn [open_inodes set_open_inodes]. rewrite lookup_update_at, Hlook.
      split; [done|]. split; [by destruct ino|].
      rewrite Hsec in Hc. cbn. rewrite to_int_small by (unfold INT_MAX in *; lia). lia.
    - destruct (inode_open_new sector st (reg_cache cnt st Hok) Hnone)
        as [[_ Heq]|(_ & c' & _ & Heq & _)]; rewrite Heq in Hopen; [done|].
      injection Hopen as <- <-. eexists. split; [apply lookup_inode_head|].
      split; [done|]. cbn. rewrite (reg_closed cnt st Hok sector Hnone). done. }
  split; [|by exists ino].
  unfold inode_get_inumber. rewrite (bind_Ok _ _ _ _ _ (deref_Ok _ _ _ Hp)). by rewrite Hsec.
Qed.
End Inumber.

Lemma sample_registry_ok : registry_ok (fun s => unmatched s [Opened 1 0]) opened_once.
Proof.
  apply (history_registry_ok sample_state).
  - reflexivity.
  - apply fs_cache_init_wf.
  - apply (history_open sample_state [] sample_state); [constructor|].
    vm_compute; reflexivity.
  - cbn. unfold INT_MAX. lia.
Qed.

Lemma inode_open_close_roundtrip_witness :
  registry_ok (fun s => unmatched s [Opened 1 0]) opened_once /\
  unmatched 1 [Opened 1 0] < INT_MAX /\
  heap_ok opened_once (heap_next opened_once) = true /\
  exists p st1 st2,
    inode_open 1 opened_once = Ok (Some p, st1) /\
    inode_close (Some p) st1 = Ok (tt, st2) /\
    open_inodes st2 = open_inodes opened_once /\ free_map st2 = free_map opened_once /\
    trace st2 = trace opened_once /\
    (forall s, sector_content (fs_cache st2) s = sector_content (fs_cache opened_once) s).
Proof.
  assert (unmatched 1 [Opened 1 0] < INT_MAX) as Hc by (vm_compute; reflexivity).
  split; [exact sample_registry_ok|]. split; [exact Hc|]. split; [reflexivity|].
  apply (inode_open_close_roundtrip _ opened_once 1 sample_registry_ok Hc). reflexivity.
Defined.

Lemma inode_get_inumber_of_open_witness :
  registry_ok (fun s => unmatched s [Opened 1 0]) opened_once /\
  inode_open 1 opened_once = Ok (Some 0%nat, opened_twice) /\
  inode_get_inumber 0 opened_twice = Ok (1, opened_twice).
Proof.
  assert (unmatched 1 [Opened 1 0] < INT_MAX) as Hc by (vm_compute; reflexivity).
  assert (inode_open 1 opened_once = Ok (Some 0%nat, opened_twice)) as Hopen
    by (vm_compute; reflexivity).
  split; [exact sample_registry_ok|]. split; [exact Hopen|].
  exact (proj1 (inode_get_inumber_of_open _ opened_once 1 0 opened_twice
                  sample_registry_ok Hc Hopen)).
Defined.

Lemma inode_remove_deferred_witness :
  lookup_inode 0 (open_inodes sample_open_state) = Some sample_inode /\
  0 <= inode_length sample_inode <= 124 * 512 /\
  inode.open_cnt sample_inode = 1 /\
  exists st1,
    inode_remove 0 sample_open_state = Ok (tt, st1) /\
    trace st1 = trace sample_open_state /\
    exists st2,
      inode_close (Some 0%nat) st1 = Ok (tt, st2) /\
      lookup_inode 0 (open_inodes st2) = None /\
      trace st2 = trace sample_open_state ++ [EvRelease 1; EvRelease 2].
Proof.
  assert (0 <= inode_length sample_inode <= 124 * 512) as Hlen
    by (vm_compute; split; discriminate).
  split; [reflexivity|]. split; [exact Hlen|]. split; [reflexivity|].
  destruct (inode_remove_deferred 0 sample_inode sample_open_state eq_refl Hlen)
    as (st1 & Hrm & Ht & _ & _ & _ & _ & Hlast).
  { vm_compute. lia. }
  exists st1. split; [exact Hrm|]. split; [exact Ht|].
  destruct (Hlast eq_refl) as (st2 & Hcl & Hgone & Ht2).
  exists st2. split; [exact Hcl|]. split; [exact Hgone|]. exact Ht2.
Defined.

Lemma inode_deny_allow_roundtrip_witness :
  NoDup (fst <$> open_inodes sample_open_state) /\
  lookup_inode 0 (open_inodes sample_open_state) = Some sample_inode /\
  0 <= inode.deny_write_cnt sample_inode < INT_MAX /\
  inode.deny_write_cnt sample_inode < inode.open_cnt sample_inode /\
  exists st1,
    inode_deny_write 0 sample_open_state = Ok (tt, st1) /\
    lookup_inode 0 (open_inodes st1) = Some (inode.set_deny_write_cnt 1 sample_inode) /\
    inode_allow_write 0 st1 = Ok (tt, sample_open_state).
Proof.
  assert (NoDup (fst <$> open_inodes sample_open_state)) as Hnd
    by (apply NoDup_singleton).
  assert (0 <= inode.deny_write_cnt sample_inode < INT_MAX) as Hr
    by (vm_compute; split; [discriminate|reflexivity]).
  assert (inode.deny_write_cnt sample_inode < inode.open_cnt sample_inode) as Hlt
    by (vm_compute; reflexivity).
  split; [exact Hnd|]. split; [reflexivity|]. split; [exact Hr|]. split; [exact Hlt|].
  exact (proj1 (inode_deny_allow_roundtrip 0 sample_inode sample_open_state
                  Hnd eq_refl Hr) Hlt).
Defined.

Lemma inode_write_then_read_witness :
  cache_wf (fs_cache sample_open_state) /\
  lookup_inode 0 (open_inodes sample_open_state) = Some sample_inode /\
  100 + 3 <= inode_length sample_inode <= 124 * 512 /\
  Z.rem 100 512 + 3 <= 512 /\
  inode_disk.direct_blocks (inode.data sample_inode) !! Z.to_nat (100 / 512) = Some 2 /\
  exists st1 st2,
    inode_write_at 0 [7; 8; 9] 3 100 sample_open_state = Ok (3, st1) /\
    inode_read_at 0 3 100 st1 = Ok ((3, [7; 8; 9]), st2) /\
    sector_content (fs_cache st1) 2
      = take (Z.to_nat (Z.rem 100 512)) (sector_content (fs_cache sample_open_state) 2)
          ++ [7; 8; 9]
          ++ drop (Z.to_nat (Z.rem 100 512 + 3))
               (sector_content (fs_cache sample_open_state) 2) /\
    (forall s, s <> 2 ->
       sector_content (fs_cache st1) s = sector_content (fs_cache sample_open_state) s).
Proof.
  assert (cache_wf (fs_cache sample_open_state)) as Hwf by apply fs_cache_init_wf.
  assert (100 + 3 <= inode_length sample_inode <= 124 * 512) as Hlen
    by (vm_compute; split; discriminate).
  assert (Z.rem 100 512 + 3 <= 512) as Hrem by (vm_compute; discriminate).
  split; [exact Hwf|]. split; [reflexivity|]. split; [exact Hlen|]. split; [exact Hrem|].
  split; [reflexivity|].
  apply (inode_write_then_read 0 sample_inode [7; 8; 9] 3 100 2 sample_open_state);
    try reflexivity; try lia; done.
Defined.

(** ** Fixed-point arithmetic *)

Section FixedPointFacts.
Import fixed_point.

Lemma FIX_F_value : FIX_F = 65536.
Proof. reflexivity. Qed.

Lemma fix_int_Ok n :
  -32767 <= n <= 32767 -> fix_int n = Ok (__mk_fix (n * 65536)).
Proof.
  intros H. unfold fix_int.
  change FIX_MIN_INT with (-65535). change FIX_MAX_INT with 65535. rewrite FIX_F_value.
  destruct (-65535 <=? n) eqn:E1; [|apply Z.leb_gt in E1; lia].
  destruct (n <=? 65535) eqn:E2; [|apply Z.leb_gt in E2; lia].
  cbn [andb]. by rewrite to_int_small by (unfold INT_MAX; lia).
Qed.

(** X23. Integers survive the trip through fixed point only in part:
    for every [n] with at most 15 bits of magnitude [fix_int] accepts
    [n] and [fix_trunc] gives [n] back, but [fix_round] gives [n] back
    only when [n] is not negative; for a negative integer it returns
    [n + 1], because the division that follows the added half cuts
    towards zero. *)
Theorem fix_int_roundtrip (n : Z) :
  -32767 <= n <= 32767 ->
  exists x, fix_int n = Ok x /\ fix_trunc x = n /\
            fix_round x = (if 0 <=? n then n else n + 1).
Proof.
  intros H. exists (__mk_fix (n * 65536)). split; [by apply fix_int_Ok|].
  unfold fix_trunc, fix_round. rewrite FIX_F_value. cbn [f].
  split; [by rewrite Z.quot_mul by lia|].
  change (Z.quot 65536 2) with 32768.
  rewrite to_int_small by (unfold INT_MAX; lia).
  destruct (0 <=? n) eqn:Hn; reflect_comparisons.
  - rewrite Z.quot_div_nonneg by lia. symmetry. apply (Z.div_unique _ _ _ 32768); lia.
  - replace (n * 65536 + 32768) with (- ((- n) * 65536 - 32768)) by lia.
    rewrite Z.quot_opp_l by lia. rewrite Z.quot_div_nonneg by lia.
    rewrite <- (Z.div_unique ((- n) * 65536 - 32768) 65536 (- n - 1) 32768); lia.
Qed.

(** X24. On integers the fixed-point operations are the integer ones:
    as long as the result has at most 15 bits of magnitude, adding,
    subtracting, multiplying and scaling the images of integers gives
    the image of the sum, the difference and the product, and
    [fix_compare] orders the images as the integers are ordered. *)
Theorem fix_arithmetic_on_integers (a b : Z) (x y : fixed_point_t) :
  fix_int a = Ok x -> fix_int b = Ok y ->
  -32767 <= a <= 32767 -> -32767 <= b <= 32767 ->
  (-32767 <= a + b <= 32767 -> fix_int (a + b) = Ok (fix_add x y)) /\
  (-32767 <= a - b <= 32767 -> fix_int (a - b) = Ok (fix_sub x y)) /\
  (-32767 <= a * b <= 32767 -> fix_int (a * b) = Ok (fix_mul x y)) /\
  (0 <= b -> -32767 <= a * b <= 32767 -> fix_scale x b = fix_int (a * b)) /\
  fix_compare x y = (if a <? b then -1 else if a >? b then 1 else 0).
Proof.
  intros Hx Hy Ha Hb. rewrite fix_int_Ok in Hx, Hy by done.
  injection Hx as <-. injection Hy as <-.
  split; [|split; [|split; [|split]]].
  - intros H. rewrite fix_int_Ok by done. unfold fix_add. cbn [f].
    rewrite to_int_small by (unfold INT_MAX; lia). do 2 f_equal. lia.
  - intros H. rewrite fix_int_Ok by done. unfold fix_sub. cbn [f].
    rewrite to_int_small by (unfold INT_MAX; lia). do 2 f_equal. lia.
  - intros H. rewrite fix_int_Ok by done. unfold fix_mul. cbn [f].
    rewrite FIX_F_value.
    replace (a * 65536 * (b * 65536)) with (a * b * 65536 * 65536) by lia.
    rewrite Z.quot_mul by lia.
    by rewrite to_int_small by (unfold INT_MAX; lia).
  - intros Hb0 H. rewrite fix_int_Ok by done. unfold fix_scale. cbn [f].
    destruct (0 <=? b) eqn:E; [|apply Z.leb_gt in E; lia].
    rewrite to_int_small by (unfold INT_MAX; lia). do 2 f_equal. lia.
  - unfold fix_compare. cbn [f].
    destruct (a <? b) eqn:E1; destruct (a * 65536 <? b * 65536) eqn:E2;
      reflect_comparisons; try lia; try done.
    destruct (a >? b) eqn:E3; destruct (a * 65536 >? b * 65536) eqn:E4;
      reflect_comparisons; try lia; done.
Qed.

(** X25. [fix_round] rounds to the nearest integer only from [-1/2]
    upwards.  For such [x] the result is within half a unit of [x]
    (halves go up); for [x] below [-1/2] the quotient is cut towards
    zero after the half has been added, so the result lies at least half
    a unit above [x]. *)
Theorem fix_round_nearest (x : fixed_point_t) :
  (-32768 <= f x <= INT_MAX - 32768 ->
   65536 * fix_round x - 32768 <= f x < 65536 * fix_round x + 32768) /\
  (-2147483648 <= f x < -32768 ->
   32768 <= 65536 * fix_round x - f x < 98304).
Proof.
  unfold fix_round. rewrite FIX_F_value. change (Z.quot 65536 2) with 32768.
  split; intros H; rewrite to_int_small by (unfold INT_MAX in *; lia).
  - rewrite Z.quot_div_nonneg by lia.
    pose proof (Z.div_mod (f x + 32768) 65536 ltac:(lia)).
    pose proof (Z.mod_pos_bound (f x + 32768) 65536 ltac:(lia)). lia.
  - pose proof (Z.quot_rem' (f x + 32768) 65536) as Hqr.
    pose proof (Z.rem_bound_pos_neg (f x + 32768) 65536 ltac:(lia) ltac:(lia)). lia.
Qed.

(** X26. The macro [CONVERT_TO_INT_NEAREST] treats both signs alike:
    for every [x] whose rounding stays within [int], the result is
    within half a unit (of [1 << 14]) of [x], and negating [x] negates
    the result. *)
Theorem convert_to_int_nearest_symmetric (x : Z) :
  - (INT_MAX - 8192) <= x <= INT_MAX - 8192 ->
  -8192 <= x - 16384 * CONVERT_TO_INT_NEAREST x <= 8192 /\
  CONVERT_TO_INT_NEAREST (- x) = - CONVERT_TO_INT_NEAREST x.
Proof.
  intros H. unfold CONVERT_TO_INT_NEAREST.
  change FRACTION with 16384. change (Z.quot 16384 2) with 8192.
  rewrite !to_int_small by (unfold INT_MAX in *; lia).
  destruct (0 <=? x) eqn:E1; destruct (0 <=? - x) eqn:E2; reflect_comparisons.
  - assert (x = 0) as -> by lia. done.
  - split.
    + pose proof (Z.quot_rem' (x + 8192) 16384).
      pose proof (Z.rem_bound_pos (x + 8192) 16384 ltac:(lia) ltac:(lia)). lia.
    + replace (- x - 8192) with (- (x + 8192)) by lia. by rewrite Z.quot_opp_l by lia.
  - split.
    + pose proof (Z.quot_rem' (x - 8192) 16384).
      pose proof (Z.rem_bound_pos_neg (x - 8192) 16384 ltac:(lia) ltac:(lia)). lia.
    + replace (- x + 8192) with (- (x - 8192)) by lia. by rewrite Z.quot_opp_l by lia.
  - lia.
Qed.

(** X27. [fix_inv] of the image of a non-zero integer is the fraction
    [1 / n] as [fix_frac] builds it, and [fix_inv] of zero divides by
    zero. *)
Theorem fix_inv_of_integer (n : Z) (x : fixed_point_t) :
  fix_int n = Ok x -> -32767 <= n <= 32767 ->
  (n <> 0 -> fix_inv x = fix_frac 1 n) /\ (n = 0 -> fix_inv x = Fault).
Proof.
  intros Hx Hn. rewrite fix_int_Ok in Hx by done. injection Hx as <-.
  unfold fix_inv. rewrite (fix_int_Ok 1) by lia. unfold fix_div, fix_frac. cbn [f].
  rewrite FIX_F_value. split.
  - intros Hne. destruct (n * 65536 =? 0) eqn:E; [apply Z.eqb_eq in E; lia|].
    destruct (n =? 0) eqn:E0; [apply Z.eqb_eq in E0; lia|].
    change ((1 =? -2147483648) && (n =? -1)) with false. cbv iota.
    assert (-1 <= Z.quot 1 n <= 1) as Hq.
    { destruct (Z.lt_total n 0) as [Hlt|[->|Hgt]]; [|done|].
      - replace n with (- (- n)) by lia. rewrite Z.quot_opp_r by lia.
        pose proof (Z.quot_le_upper_bound 1 (- n) 1 ltac:(lia) ltac:(lia)).
        pose proof (Z.quot_pos 1 (- n) ltac:(lia) ltac:(lia)). lia.
      - pose proof (Z.quot_le_upper_bound 1 n 1 ltac:(lia) ltac:(lia)).
        pose proof (Z.quot_pos 1 n ltac:(lia) ltac:(lia)). lia. }
    rewrite (to_int_small (Z.quot 1 n)) by (unfold INT_MAX; lia).
    change FIX_MIN_INT with (-65535). change FIX_MAX_INT with 65535.
    destruct (-65535 <=? Z.quot 1 n) eqn:E1; [|apply Z.leb_gt in E1; lia].
    destruct (Z.quot 1 n <=? 65535) eqn:E2; [|apply Z.leb_gt in E2; lia].
    cbn [andb]. do 3 f_equal.
    change (1 * 65536 * 65536) with (65536 * 65536). change (1 * 65536) with 65536.
    rewrite (Z.mul_comm n 65536). rewrite Z.quot_mul_cancel_l by lia. done.
  - intros ->. done.
Qed.
End FixedPointFacts.

Lemma fix_int_roundtrip_witness :
  -32767 <= -5 <= 32767 /\
  exists x, fixed_point.fix_int (-5) = Ok x /\ fixed_point.fix_trunc x = -5 /\
            fixed_point.fix_round x = -4.
Proof.
  assert (-32767 <= -5 <= 32767) as H by lia.
  split; [exact H|]. exact (fix_int_roundtrip (-5) H).
Defined.

Lemma fix_arithmetic_on_integers_witness :
  fixed_point.fix_int 3 = Ok (fixed_point.__mk_fix 196608) /\
  fixed_point.fix_int (-4) = Ok (fixed_point.__mk_fix (-262144)) /\
  fixed_point.fix_int (3 * -4)
    = Ok (fixed_point.fix_mul (fixed_point.__mk_fix 196608) (fixed_point.__mk_fix (-262144))) /\
  fixed_point.fix_compare (fixed_point.__mk_fix 196608) (fixed_point.__mk_fix (-262144)) = 1.
Proof.
  split; [reflexivity|]. split; [reflexivity|].
  destruct (fix_arithmetic_on_integers 3 (-4)
              (fixed_point.__mk_fix 196608) (fixed_point.__mk_fix (-262144))
              eq_refl eq_refl ltac:(lia) ltac:(lia)) as (_ & _ & Hmul & _ & Hcmp).
  split; [apply Hmul; lia|exact Hcmp].
Defined.

Lemma fix_round_nearest_witness :
  -2147483648 <= fixed_point.f (fixed_point.__mk_fix (-49152)) < -32768 /\
  fixed_point.fix_round (fixed_point.__mk_fix (-49152)) = 0 /\
  32768 <= 65536 * fixed_point.fix_round (fixed_point.__mk_fix (-49152))
           - fixed_point.f (fixed_point.__mk_fix (-49152)) < 98304.
Proof.
  assert (-2147483648 <= fixed_point.f (fixed_point.__mk_fix (-49152)) < -32768) as H
    by (cbn; lia).
  split; [exact H|]. split; [reflexivity|].
  exact (proj2 (fix_round_nearest (fixed_point.__mk_fix (-49152))) H).
Defined.

Lemma convert_to_int_nearest_symmetric_witness :
  - (INT_MAX - 8192) <= -12288 <= INT_MAX - 8192 /\
  fixed_point.CONVERT_TO_INT_NEAREST (-12288) = -1 /\
  -8192 <= -12288 - 16384 * fixed_point.CONVERT_TO_INT_NEAREST (-12288) <= 8192 /\
  fixed_point.CONVERT_TO_INT_NEAREST (- -12288)
    = - fixed_point.CONVERT_TO_INT_NEAREST (-12288).
Proof.
  assert (- (INT_MAX - 8192) <= -12288 <= INT_MAX - 8192) as H by (unfold INT_MAX; lia).
  split; [exact H|]. split; [reflexivity|].
  exact (convert_to_int_nearest_symmetric (-12288) H).
Defined.

Lemma fix_inv_of_integer_witness :
  fixed_point.fix_int 4 = Ok (fixed_point.__mk_fix 262144) /\
  fixed_point.fix_inv (fixed_point.__mk_fix 262144) = fixed_point.fix_frac 1 4 /\
  fixed_point.fix_frac 1 4 = Ok (fixed_point.__mk_fix 16384).
Proof.
  split; [reflexivity|]. split; [|reflexivity].
  apply (proj1 (fix_inv_of_integer 4 (fixed_point.__mk_fix 262144)
                  eq_refl ltac:(lia))). lia.
Defined.

(** ** The indirect tier of the block map *)

Section IndirectTier.
Context `{FM : FreeMap}.





End IndirectTier.

Section IndirectTierFacts.
Context `{FM : FreeMap}.










End IndirectTierFacts.



(** ** The double-indirect tier of the lookup *)

Section DoubleIndirectLookup.
Context `{FM : FreeMap}.

(** X30. [index_to_sector] reads the third tier as a tree of depth 2:
    for a block index from 252 up to 16635 it takes entry
    [(index - 252) / 128] of the double-indirect block and entry
    [(index - 252) mod 128] of the indirect block found there, reading
    both through the cache and changing no sector; from 16636 on it
    answers [-1] without looking at anything. *)
Theorem index_to_sector_double_indirect (disk : inode_disk.t) (index : Z)
    (B1 B2 : list Z) (c s : Z) (st : fs_state) :
  cache_wf (fs_cache st) ->
  (16636 <= index -> index_to_sector disk index st = Ok (NO_SECTOR, st)) /\
  (252 <= index < 16636 ->
   heap_ok st (heap_next st) = true ->
   sector_content (fs_cache st) (inode_disk.double_indirect_block disk)
     = inode_indirect_block.to_bytes B1 ->
   Forall (fun w => 0 <= w < UINT_MOD) B1 ->
   B1 !! Z.to_nat ((index - 252) / 128) = Some c ->
   sector_content (fs_cache st) c = inode_indirect_block.to_bytes B2 ->
   Forall (fun w => 0 <= w < UINT_MOD) B2 ->
   B2 !! Z.to_nat ((index - 252) mod 128) = Some s ->
   exists st',
     index_to_sector disk index st = Ok (s, st') /\
     (forall s', sector_content (fs_cache st') s' = sector_content (fs_cache st) s') /\
     trace st' = trace st /\ free_map st' = free_map st).
Proof.
  intros Hwf. unfold index_to_sector.
  change (0 + DIRECT_BLOCKS) with 124. change (124 + INDIRECT_BLOCKS) with 252.
  change (252 + DOUBLE_INDIRECT_BLOCKS) with 16636. split.
  - intros Hi.
    destruct (index <? 124) eqn:E1; [apply Z.ltb_lt in E1; lia|].
    destruct (index <? 252) eqn:E2; [apply Z.ltb_lt in E2; lia|].
    destruct (index <? 16636) eqn:E3; [apply Z.ltb_lt in E3; lia|]. done.
  - intros Hi Hheap Hc1 Hr1 Hb1 Hc2 Hr2 Hb2.
    destruct (index <? 124) eqn:E1; [apply Z.ltb_lt in E1; lia|].
    destruct (index <? 252) eqn:E2; [apply Z.ltb_lt in E2; lia|].
    destruct (index <? 16636) eqn:E3; [|apply Z.ltb_ge in E3; lia].
    rewrite (bind_Ok _ _ _ _ _ (malloc_Ok st)), Hheap. cbn [negb].
    destruct (cache_read_Ok (inode_disk.double_indirect_block disk)
                (set_heap_next (S (heap_next st)) st) Hwf) as (c1 & Hrd1 & Hwf1 & Hs1).
    rewrite (bind_Ok _ _ _ _ _ Hrd1). cbn [fs_cache set_heap_next] in *.
    rewrite Hc1. unfold inode_indirect_block.of_bytes, inode_indirect_block.to_bytes.
    rewrite words_roundtrip by done.
    change INDIRECT_BLOCKS with 128.
    rewrite Z.quot_div_nonneg, Z.rem_mod_nonneg by lia.
    assert (0 <= (index - 252) / 128) as Hq by (apply Z.div_pos; lia).
    pose proof (Z.mod_pos_bound (index - 252) 128 ltac:(lia)) as Hm.
    rewrite (bind_Ok _ _ _ c (set_fs_cache c1 (set_heap_next (S (heap_next st)) st))).
    2:{ unfold array_get. destruct (_ <? 0) eqn:E; [apply Z.ltb_lt in E; lia|].
        by rewrite Hb1. }
    destruct (cache_read_Ok c (set_fs_cache c1 (set_heap_next (S (heap_next st)) st)) Hwf1)
      as (c2 & Hrd2 & Hwf2 & Hs2).
    rewrite (bind_Ok _ _ _ _ _ Hrd2). cbn [fs_cache set_fs_cache].
    rewrite Hs1. cbn [fs_cache set_heap_next]. rewrite Hc2.
    rewrite words_roundtrip by done.
    unfold array_get. destruct (_ <? 0) eqn:E; [apply Z.ltb_lt in E; lia|].
    rewrite Hb2. eexists. split; [reflexivity|]. cbn [fs_cache set_fs_cache trace free_map].
    split; [|done]. intros s'. rewrite Hs2. cbn [fs_cache set_fs_cache]. by rewrite Hs1.
Qed.
End DoubleIndirectLookup.

Lemma double_sample_state_wf : cache_wf (fs_cache double_sample_state).
Proof.
  destruct (cache_write_Ok 10
              (inode_indirect_block.to_bytes (<[0%nat := 11]> (replicate 128%nat 0)))
              sample_state (fs_cache_init_wf _)) as (c1 & H1 & Hwf1 & _).
  unfold double_sample_state. rewrite H1. cbn [state_after].
  match goal with |- context [cache_write 11 ?b ?s] =>
    destruct (cache_write_Ok 11 b s Hwf1) as (c2 & H2 & Hwf2 & _); rewrite H2
  end.
  exact Hwf2.
Qed.

Lemma index_to_sector_double_indirect_witness :
  cache_wf (fs_cache double_sample_state) /\
  252 <= 255 < 16636 /\
  (exists st', index_to_sector double_sample_disk 255 double_sample_state = Ok (77, st')) /\
  index_to_sector double_sample_disk 16636 double_sample_state
    = Ok (NO_SECTOR, double_sample_state).
Proof.
  split; [exact double_sample_state_wf|]. split; [lia|].
  destruct (index_to_sector_double_indirect double_sample_disk 255
              (<[0%nat := 11]> (replicate 128%nat 0))
              (<[3%nat := 77]> (replicate 128%nat 0)) 11 77
              double_sample_state double_sample_state_wf) as [_ Hin].
  destruct (index_to_sector_double_indirect double_sample_disk 16636 [] [] 0 0
              double_sample_state double_sample_state_wf) as [Hout _].
  split; [|apply Hout; lia].
  destruct Hin as (st' & Hrun & _); [lia|reflexivity|vm_compute; reflexivity| |reflexivity
                                    |vm_compute; reflexivity| |reflexivity|by exists st'].
  - apply Forall_insert; [apply Forall_replicate|]; unfold UINT_MOD; lia.
  - apply Forall_insert; [apply Forall_replicate|]; unfold UINT_MOD; lia.
Defined.

(** The file of 125 sectors on the sample state: sectors 2 to 125 for the
    direct entries, 126 for the indirect block, 127 for the last block. *)
Example allocate_125_sectors :
  inode_allocate (fresh_disk_inode 64000) sample_state
    = Ok ((true, allocated_125), after_allocate_125) /\
  allocated (trace after_allocate_125) = Z.of_nat <$> seq 2 126 /\
  inode_disk.indirect_block allocated_125 = 126 /\
  value_of (index_to_sector allocated_125 124 after_allocate_125) 0 = 127 /\
  inode_deallocate (inode.mk 1 1 true 0 allocated_125) after_allocate_125
    = Ok (true, after_deallocate_125) /\
  released (trace after_deallocate_125) = (Z.of_nat <$> seq 2 124) ++ [127; 126].
Proof.
  split; [vm_compute; reflexivity|]. split; [vm_compute; reflexivity|].
  split; [vm_compute; reflexivity|]. split; [vm_compute; reflexivity|].
  split; vm_compute; reflexivity.
Qed.

(** ** A fresh file of 253 sectors *)

(** C7. A file of 253 sectors created on a disk with old content:
    [inode_create] reports success after taking sectors 2 to 255 from
    the free map, and the file's first block reads back as zeros; but
    its last block, number 252, which lies within the file's length,
    reads back as 512 bytes of value 7.  They come from sector 901, which
    the creation neither obtained from the free map nor wrote: the
    lookup of block 252 goes through the double-indirect pointer, which
    the allocation left null. *)
Theorem fresh_file_block_252_reads_stale :
  inode_create 1 129536 stale_state = Ok (true, created_253) /\
  inode_open 1 created_253 = Ok (Some 1%nat, opened_253) /\
  inode_length <$> lookup_inode 1 (open_inodes opened_253) = Some 129536 /\
  inode_read_at 1 512 0 opened_253 = Ok ((512, sector_zero), read_first_of_253) /\
  inode_read_at 1 512 129024 opened_253
    = Ok ((512, replicate 512%nat 7), read_last_of_253) /\
  allocated (trace created_253) = Z.of_nat <$> seq 2 254 /\
  existsb (Z.eqb 901) (written (trace created_253)) = false /\
  (inode_disk.double_indirect_block <$> (inode.data <$> lookup_inode 1 (open_inodes opened_253)))
    = Some 0.
Proof.
  split; [vm_compute; reflexivity|]. split; [vm_compute; reflexivity|].
  split; [vm_compute; reflexivity|]. split; [vm_compute; reflexivity|].
  split; [vm_compute; reflexivity|]. split; [vm_compute; reflexivity|].
  split; vm_compute; reflexivity.
Qed.
